(** * Grin stats collector ([scripts/06_collector.py]): a shallow embedding

    The collector polls a Grin node over JSON-RPC, keeps block, fee and peer
    tables in an embedded relational store and publishes JSON documents.

    Conventions of the embedding:
    - Python integers are [Z]; SQLite REAL values and Python floats are exact
      rationals [Q] kept in reduced form (rounding error and overflow of
      binary floating point are not represented);
    - decoded JSON is the inductive type [json]; Python exceptions are the
      type [exn], and a computation that may raise returns [Exc];
    - effectful code lives in the monad [M]: it threads a [World] (store,
      published files, trace of external interactions) and reads the outside
      world through the oracles of an [Env] (clock, network, Python's
      library parsers);
    - tables with a primary key are [gmap]s from the key to the rest of the
      row; the append-only snapshot table is a list in insertion order; where
      SQL leaves the order of result rows open (ties of an ORDER BY), the
      model takes the order in which the table enumerates its rows;
    - opening, committing and closing the database, creating the schema and
      the output directory, and printing to the terminal have no counterpart
      in the model; the statements of a run take effect in program order;
    - the worker pools run independent tasks; the model runs them one after
      the other in the order they were submitted. *)

From Stdlib Require Import ZArith QArith String Ascii List Lia.
From stdpp Require Import gmap strings list fin_maps.
From Stdlib Require Import Sorted.

Set Warnings "-register-all".
Open Scope string_scope.
Open Scope list_scope.
Open Scope Z_scope.

(* ====================================================================== *)
(** * Part I: definitions                                                  *)
(* ====================================================================== *)

(** ** Python values *)

Module Py.

(** The exception classes the collector meets.  [OSError] stands for
    [urllib.error.URLError] and every other [OSError] (timeouts, refused
    connections); [SystemExit] is not an [Exception]. *)
Inductive exn : Type :=
| OSError
| RuntimeError (msg : string)
| ValueError
| KeyError (key : string)
| AttributeError
| TypeError
| SystemExit (code : Z).

Definition is_OSError (e : exn) : bool :=
  match e with OSError => true | _ => false end.

(** [except Exception] catches everything but [SystemExit]. *)
Definition is_Exception (e : exn) : bool :=
  match e with SystemExit _ => false | _ => true end.

Inductive Exc (A : Type) : Type :=
| Ok (a : A)
| Raise (e : exn).
Arguments Ok {A} a.
Arguments Raise {A} e.

(** Decoded JSON, as [json.loads] returns it.  An object lists its members
    in document order, each key once. *)
Inductive json : Type :=
| JNull
| JBool (b : bool)
| JInt (n : Z)
| JReal (q : Q)
| JStr (s : string)
| JArr (items : list json)
| JObj (members : list (string * json)).

(** Truth value of [if x:] / [not x]. *)
Definition truthy (j : json) : bool :=
  match j with
  | JNull => false
  | JBool b => b
  | JInt n => negb (n =? 0)
  | JReal q => negb (Qeq_bool q 0)
  | JStr s => negb (String.eqb s "")
  | JArr l => match l with [] => false | _ => true end
  | JObj kv => match kv with [] => false | _ => true end
  end.

Fixpoint assoc (k : string) (kv : list (string * json)) : option json :=
  match kv with
  | [] => None
  | (k', v) :: rest => if String.eqb k k' then Some v else assoc k rest
  end.

(** [d.get(k, dflt)]: only a dict has [.get]. *)
Definition get (d : json) (k : string) (dflt : json) : Exc json :=
  match d with
  | JObj kv => Ok (default dflt (assoc k kv))
  | _ => Raise AttributeError
  end.

(** [d[k]] with a string key. *)
Definition getitem (d : json) (k : string) : Exc json :=
  match d with
  | JObj kv => match assoc k kv with
               | Some v => Ok v
               | None => Raise (KeyError k)
               end
  | _ => Raise TypeError
  end.

(** ** Strings *)

(** [s.startswith(p)]. *)
Definition startswith (s p : string) : bool := String.prefix p s.

(** [sub in s]. *)
Fixpoint contains (sub s : string) : bool :=
  String.prefix sub s ||
  match s with
  | EmptyString => false
  | String _ s' => contains sub s'
  end.

Definition is_char (c : ascii) (d : ascii) : bool := Ascii.eqb c d.

(** [s.split(c)[0]]: the text before the first [c]. *)
Fixpoint split_head (c : ascii) (s : string) : string :=
  match s with
  | EmptyString => EmptyString
  | String d s' => if is_char c d then EmptyString else String d (split_head c s')
  end.

(** [s.rsplit(c, 1)]: [None] when [c] does not occur, else the text before
    and after its last occurrence. *)
Fixpoint rsplit1 (c : ascii) (s : string) : option (string * string) :=
  match s with
  | EmptyString => None
  | String d s' =>
      match rsplit1 c s' with
      | Some (a, b) => Some (String d a, b)
      | None => if is_char c d then Some (EmptyString, s') else None
      end
  end.

(** [s.rsplit(c, 1)[0]] and [s.rsplit(c, 1)[-1]]. *)
Definition rsplit_first (c : ascii) (s : string) : string :=
  match rsplit1 c s with Some (a, _) => a | None => s end.
Definition rsplit_last (c : ascii) (s : string) : string :=
  match rsplit1 c s with Some (_, b) => b | None => s end.

Definition in_chars (chars : string) (c : ascii) : bool :=
  existsb (is_char c) (list_ascii_of_string chars).

Fixpoint lstrip (chars s : string) : string :=
  match s with
  | EmptyString => EmptyString
  | String c s' => if in_chars chars c then lstrip chars s' else s
  end.

Fixpoint rstrip (chars s : string) : string :=
  match s with
  | EmptyString => EmptyString
  | String c s' =>
      match rstrip chars s' with
      | EmptyString => if in_chars chars c then EmptyString else String c EmptyString
      | r => String c r
      end
  end.

(** [s.strip(chars)]. *)
Definition strip (chars s : string) : string := rstrip chars (lstrip chars s).

(** [s.replace(old, new)] for a non-empty [old]: occurrences are replaced
    left to right, without overlap.  [skip] counts the characters of an
    occurrence still to be dropped. *)
Fixpoint replace_from (old new : string) (skip : nat) (s : string) : string :=
  match s with
  | EmptyString => EmptyString
  | String c s' =>
      match skip with
      | S k => replace_from old new k s'
      | O =>
          if String.prefix old s
          then (new ++ replace_from old new (String.length old - 1) s')%string
          else String c (replace_from old new 0 s')
      end
  end.
Definition replace (old new s : string) : string := replace_from old new 0 s.

(** ** Lists *)

(** [range(a, b)]. *)
Definition range (a b : Z) : list Z :=
  map (fun k => a + Z.of_nat k) (seq 0 (Z.to_nat (b - a))).

(** [l.sort(key=f)] / [sorted(l, key=f)]: a stable sort. *)
Fixpoint insert_by {A} (key : A -> Z) (x : A) (l : list A) : list A :=
  match l with
  | [] => [x]
  | y :: l' => if key y <=? key x then y :: insert_by key x l' else x :: l
  end.
Definition sort_by {A} (key : A -> Z) (l : list A) : list A :=
  fold_left (fun acc x => insert_by key x acc) l [].

Fixpoint enumerate_from {A} (i : nat) (l : list A) : list (nat * A) :=
  match l with
  | [] => []
  | x :: l' => (i, x) :: enumerate_from (S i) l'
  end.
(** [enumerate(l)]. *)
Definition enumerate {A} (l : list A) : list (nat * A) := enumerate_from 0 l.

Definition sum (l : list Z) : Z := fold_left Z.add l 0.

(** ** Numbers *)

(** [a / b] on integers: the quotient as a float. *)
Definition true_div (a b : Z) : Q := Qred (inject_Z a / inject_Z b).

(** [round(x, 2)] on a float: to the nearest hundredth, ties to even. *)
Definition round_half_even (q : Q) : Z :=
  let n := Qnum q in
  let d := Zpos (Qden q) in
  let f := n / d in
  let r := 2 * (n mod d) in
  if r <? d then f
  else if d <? r then f + 1
  else if Z.even f then f else f + 1.
Definition round2 (q : Q) : Q :=
  Qred (round_half_even (q * inject_Z 100) # 100).

End Py.
Import Py.

(** ** Hashrate estimation *)

(** A fetched header [(height, ts, total_diff)] and a header with its
    hashrate [(height, ts, total_diff, hashrate)]. *)
Definition Header : Type := Z * Z * Z.
Definition Rated : Type := Z * Z * Z * Q.

Definition rated_hashrate (r : Rated) : Q := snd r.
Definition rated_header (r : Rated) : Header := fst r.

(** One iteration of the loop of [calc_hashrate]: [rows] is the whole input,
    [out] the list built so far and [(i, row)] the pair [enumerate] yields.
    [rows[i - 1]] is in range whenever [i] is not 0; the default of the
    lookup is never used. *)
Definition calc_hashrate_step (rows : list Header) (out : list Rated)
    (ir : nat * Header) : list Rated :=
  let '(i, (h, ts, diff)) := ir in
  if Nat.eqb i 0 then out ++ [(h, ts, diff, 0%Q)]
  else
    let '(ph, pts, pdiff) := default (h, ts, diff) (rows !! (i - 1)%nat) in
    let dt := ts - pts in
    let dd := diff - pdiff in
    let hr :=
      if (0 <? dt) && (0 <? dd) then true_div dd dt
      else match last out with
           | Some prev => rated_hashrate prev
           | None => 0%Q
           end in
    out ++ [(h, ts, diff, hr)].

Definition calc_hashrate (rows : list Header) : list Rated :=
  fold_left (calc_hashrate_step rows) (enumerate rows) [].

(** The estimator seen as a recursion along the list, used to reason about
    [calc_hashrate]: the rate a row gets from its predecessor [p], whose
    computed rate is [phr]. *)
Definition next_hashrate (p : Header) (phr : Q) (r : Header) : Q :=
  let '(_, pts, pdiff) := p in
  let '(_, ts, diff) := r in
  if (0 <? ts - pts) && (0 <? diff - pdiff) then true_div (diff - pdiff) (ts - pts)
  else phr.

(** The rated rows that follow a row [p] rated [phr]. *)
Fixpoint rate_after (p : Header) (phr : Q) (rows : list Header) : list Rated :=
  match rows with
  | [] => []
  | r :: rest =>
      let hr := next_hashrate p phr r in
      (r, hr) :: rate_after r hr rest
  end.

(** ** Configuration *)

Definition BLOCKS_PER_HOUR : Z := 60.
Definition BLOCKS_PER_DAY : Z := 1440.
Definition RECENT_HOURS : Z := 24.
Definition HOURLY_DAYS : Z := 30.
Definition GEO_BATCH : nat := 100.
Definition PEER_RETENTION_DAYS : Z := 30.
Definition PEER_HISTORY_DAYS : Z := 7.

(** ** The store *)

Inductive Bucket : Type := Recent | Hourly | Daily.

#[global] Instance Bucket_eq_dec : EqDecision Bucket.
Proof. solve_decision. Defined.

(** Table [blocks], keyed by [height]. *)
Record BlockRow : Type := mkBlock {
  b_timestamp : Z;
  b_total_diff : Z;
  b_hashrate : Q;
  b_bucket : Bucket
}.

(** Table [block_stats], keyed by [height]. *)
Record StatRow : Type := mkStat {
  s_timestamp : Z;
  s_tx_count : Z;
  s_fee_total : Z;
  s_output_count : Z
}.

(** Table [peer_snapshots]: rows in insertion (id) order. *)
Record Snapshot : Type := mkSnapshot {
  sampled_at : Z;
  snap_user_agent : string;
  snap_count : Z
}.

(** Table [known_peers], keyed by [(ip, network)]. *)
Record PeerRow : Type := mkPeerRow {
  k_port : string;
  k_user_agent : string;
  k_direction : string;
  k_lat : json;
  k_lng : json;
  k_country : json;
  k_country_code : json;
  k_city : json;
  first_seen : Z;
  last_seen : Z
}.

(** The database.  Table [meta] holds integers written with [str] and read
    back with [int]; the model keeps the integer. *)
Record DB : Type := mkDB {
  blocks : gmap Z BlockRow;
  block_stats : gmap Z StatRow;
  peer_snapshots : list Snapshot;
  meta : gmap string Z;
  known_peers : gmap (string * string) PeerRow
}.

Definition with_blocks (f : gmap Z BlockRow -> gmap Z BlockRow) (d : DB) : DB :=
  mkDB (f (blocks d)) (block_stats d) (peer_snapshots d) (meta d) (known_peers d).
Definition with_block_stats (f : gmap Z StatRow -> gmap Z StatRow) (d : DB) : DB :=
  mkDB (blocks d) (f (block_stats d)) (peer_snapshots d) (meta d) (known_peers d).
Definition with_peer_snapshots (f : list Snapshot -> list Snapshot) (d : DB) : DB :=
  mkDB (blocks d) (block_stats d) (f (peer_snapshots d)) (meta d) (known_peers d).
Definition with_meta (f : gmap string Z -> gmap string Z) (d : DB) : DB :=
  mkDB (blocks d) (block_stats d) (peer_snapshots d) (f (meta d)) (known_peers d).
Definition with_known_peers
    (f : gmap (string * string) PeerRow -> gmap (string * string) PeerRow) (d : DB) : DB :=
  mkDB (blocks d) (block_stats d) (peer_snapshots d) (meta d) (f (known_peers d)).

(** ** The outside world *)

(** An HTTP request: a JSON-RPC call (with the secret of its
    [Authorization] header, if any) or a geolocation batch. *)
Inductive Request : Type :=
| RpcRequest (url method : string) (params : json) (auth : option string)
| GeoRequest (ips : list string).

(** What [urlopen], [resp.read()] and [json.loads] give for a request. *)
Inductive Outcome : Type :=
| NetError            (* URLError / OSError *)
| NotJson             (* json.loads raises ValueError *)
| Body (data : json).

(** External interactions, in the order they happen. *)
Inductive Event : Type :=
| EvClock                          (* time.time() *)
| EvUrlopen (req : Request)
| EvSleep (seconds : Q)            (* time.sleep *)
| EvConnect (port : Z)             (* socket.create_connection *)
| EvWrite (filename : string).     (* a file replaced under WWW_DATA *)

(** The state a run threads: the database, the files under [WWW_DATA]
    (keyed by file name, holding the document given to [json.dump]) and the
    trace of interactions so far. *)
Record World : Type := mkWorld {
  db : DB;
  files : gmap string json;
  trace : list Event
}.

(** What a run reads from outside.  The oracles for the clock, the network
    and the sockets are indexed by the number of interactions that happened
    before the call.  The last three are Python library functions. *)
Record Env : Type := mkEnv {
  NODE_URL : string;
  API_SECRET : string;
  MAINNET_OWNER_URL : string;
  TESTNET_OWNER_URL : string;
  TESTNET_API_SECRET : string;
  clock : nat -> Z;                  (* int(time.time()) *)
  urlopen : nat -> Request -> Outcome;
  listening : nat -> Z -> bool;      (* a connection to 127.0.0.1:port succeeds *)
  strptime : string -> option Z;     (* strptime(s, "%Y-%m-%dT%H:%M:%S") read as
                                        UTC epoch seconds; None when it raises *)
  int_of_str : string -> option Z;   (* int(s); None when it raises *)
  str_of : json -> string            (* str(x) of a value that is not a string *)
}.

(** ** The monad of effectful code *)

Definition M (A : Type) : Type := World -> Exc A * World.

Definition ret {A} (a : A) : M A := fun w => (Ok a, w).

Definition bind {A B} (m : M A) (k : A -> M B) : M B :=
  fun w => match m w with
           | (Ok a, w') => k a w'
           | (Raise e, w') => (Raise e, w')
           end.

Definition raise {A} (e : exn) : M A := fun w => (Raise e, w).

(** [try: body / except <catches> as e: handler e].  What [body] did before
    raising stays done. *)
Definition try_except {A} (body : M A) (catches : exn -> bool) (handler : exn -> M A) : M A :=
  fun w => match body w with
           | (Raise e, w') => if catches e then handler e w' else (Raise e, w')
           | r => r
           end.

Definition lift {A} (x : Exc A) : M A := fun w => (x, w).

Declare Scope M_scope.
Delimit Scope M_scope with M.
Bind Scope M_scope with M.
Notation "x <- c1 ;; c2" := (bind c1 (fun x => c2))
  (at level 100, c1 at next level, right associativity) : M_scope.
Notation "c1 ;; c2" := (bind c1 (fun _ => c2))
  (at level 100, right associativity) : M_scope.
Open Scope M_scope.

Definition emit (ev : Event) : M unit :=
  fun w => (Ok tt, mkWorld (db w) (files w) (trace w ++ [ev])).

(** The number of interactions so far. *)
Definition steps : M nat := fun w => (Ok (length (trace w)), w).

Definition query {A} (q : DB -> A) : M A := fun w => (Ok (q (db w)), w).

Definition execute (stmt : DB -> DB) : M unit :=
  fun w => (Ok tt, mkWorld (stmt (db w)) (files w) (trace w)).

(** Bind of pure computations that may raise. *)
Definition and_then {A B} (x : Exc A) (k : A -> Exc B) : Exc B :=
  match x with
  | Ok a => k a
  | Raise e => Raise e
  end.

(** The world after further interactions [evs]. *)
Definition push (evs : list Event) (w : World) : World :=
  mkWorld (db w) (files w) (trace w ++ evs).

(** The tier of a point of a given age, in seconds. *)
Definition bucket_of_age (age : Z) : Bucket :=
  if age <? 24 * 3600 then Recent
  else if age <? 30 * 86400 then Hourly
  else Daily.

(** The interactions of [n] failed attempts, from attempt number [attempt]
    on: each is a request followed by a sleep of [1 + attempt] seconds. *)
Fixpoint backoff (req : Request) (attempt n : nat) : list Event :=
  match n with
  | O => []
  | S n' => EvUrlopen req :: EvSleep (inject_Z (1 + Z.of_nat attempt))
            :: backoff req (S attempt) n'
  end.

Section Collector.

Context (env : Env).

(** ** Python library functions that depend on the oracles *)

(** [str(x)]. *)
Definition py_str (x : json) : string :=
  match x with
  | JStr s => s
  | _ => str_of env x
  end.

(** [int(x)]. *)
Definition py_int (x : json) : Exc Z :=
  match x with
  | JInt n => Ok n
  | JBool b => Ok (if b then 1 else 0)
  | JReal q => Ok (Z.quot (Qnum q) (Zpos (Qden q)))
  | JStr s => match int_of_str env s with
              | Some n => Ok n
              | None => Raise ValueError
              end
  | _ => Raise TypeError
  end.

(** [int(time.time())]. *)
Definition int_time : M Z :=
  k <- steps ;;
  emit EvClock ;;
  ret (clock env k).

Definition sleep (seconds : Q) : M unit := emit (EvSleep seconds).

(** [urlopen(req)] followed by [json.loads(resp.read())]. *)
Definition urlopen_json (req : Request) : M json :=
  k <- steps ;;
  emit (EvUrlopen req) ;;
  match urlopen env k req with
  | NetError => raise OSError
  | NotJson => raise ValueError
  | Body data => ret data
  end.

(** ** Grin JSON-RPC helper *)

(** The request [_rpc] builds: the [Authorization] header is added only for
    a non-empty secret. *)
Definition rpc_request (url method : string) (params : json) (secret : string) : Request :=
  RpcRequest url method params
    (if String.eqb secret "" then None else Some ("grin:" ++ secret)%string).

(** What [_rpc] makes of a decoded response: an [Err]-tagged result is
    raised, an [Ok]-tagged one unwrapped, anything else returned as it is. *)
Definition rpc_result (data : json) : Exc json :=
  and_then (get data "result" (JObj [])) (fun result =>
  match result with
  | JObj kv =>
      match assoc "Err" kv with
      | Some err => Raise (RuntimeError ("Grin API Err: " ++ py_str err)%string)
      | None => Ok (default JNull (assoc "Ok" kv))
      end
  | _ => Ok result
  end).

(** The body of the [try] in [_rpc]. *)
Definition rpc_attempt (req : Request) : M json :=
  data <- urlopen_json req ;;
  lift (rpc_result data).

(** [for attempt in range(retries)], from [attempt] on, with [remaining]
    iterations left. *)
Fixpoint rpc_loop (req : Request) (retries attempt remaining : nat) : M json :=
  match remaining with
  | O => ret JNull
  | S rest =>
      try_except (rpc_attempt req) is_OSError
        (fun e =>
           if Nat.eqb attempt (retries - 1) then raise e
           else
             sleep (inject_Z (1 + Z.of_nat attempt)) ;;
             rpc_loop req retries (S attempt) rest)
  end.

Definition _rpc (url method : string) (params : json) (secret : string) (retries : nat)
    : M json :=
  rpc_loop (rpc_request url method params secret) retries 0 retries.

Definition grin_rpc (method : string) (params : json) (retries : nat) : M json :=
  _rpc (NODE_URL env) method params (API_SECRET env) retries.

(** ** Timestamp helpers *)

(** [parse_ts]: only a string has [.split]; whatever goes wrong, the
    handler returns the current time. *)
Definition parse_ts (ts_str : json) : M Z :=
  try_except
    (match ts_str with
     | JStr s =>
         match strptime env (split_head "." s) with
         | Some t => ret t
         | None => raise ValueError
         end
     | _ => raise AttributeError
     end)
    is_Exception
    (fun _ => int_time).

Definition now_ts : M Z := int_time.

(** ** Database helpers *)

Definition get_meta (key : string) (dflt : Z) : M Z :=
  query (fun d => default dflt (meta d !! key)).

Definition set_meta (key : string) (value : Z) : M unit :=
  execute (with_meta (insert key value)).

(** ** Block fetching *)

Definition by_height_params (height : Z) : json :=
  JObj [("height", JInt height); ("hash", JNull); ("commit", JNull)].

Definition fetch_header (height : Z) : M (option Header) :=
  try_except
    (data <- grin_rpc "get_header" (by_height_params height) 3 ;;
     if negb (truthy data) then ret None
     else
       h <- lift (and_then (getitem data "height") py_int) ;;
       ts_str <- lift (getitem data "timestamp") ;;
       ts <- parse_ts ts_str ;;
       diff <- lift (and_then (getitem data "total_difficulty") py_int) ;;
       ret (Some (h, ts, diff)))
    is_Exception
    (fun _ => ret None).

(** The worker pool: one task per height, each task independent of the
    others.  The model runs the tasks one after the other, in the order they
    were submitted, and keeps the results that are not [None]. *)
Fixpoint run_tasks {A} (task : Z -> M (option A)) (heights : list Z) : M (list A) :=
  match heights with
  | [] => ret []
  | h :: rest =>
      row <- task h ;;
      rows <- run_tasks task rest ;;
      ret (match row with Some r => r :: rows | None => rows end)
  end.

Definition header_height (r : Header) : Z := fst (fst r).

Definition fetch_headers_batch (heights : list Z) (workers : nat) : M (list Header) :=
  results <- run_tasks fetch_header heights ;;
  ret (sort_by header_height results).

(** [for x in j]: a list yields its items, a dict its keys, a string its
    characters; nothing else is iterable. *)
Definition iter (j : json) : Exc (list json) :=
  match j with
  | JArr l => Ok l
  | JObj kv => Ok (map (fun kv => JStr (fst kv)) kv)
  | JStr s => Ok (map (fun c => JStr (String c EmptyString)) (list_ascii_of_string s))
  | _ => Raise TypeError
  end.

(** [len(j)]. *)
Definition len (j : json) : Exc Z :=
  match j with
  | JArr l => Ok (Z.of_nat (length l))
  | JObj kv => Ok (Z.of_nat (length kv))
  | JStr s => Ok (Z.of_nat (String.length s))
  | _ => Raise TypeError
  end.

Definition is_str (j : json) (s : string) : bool :=
  match j with
  | JStr t => String.eqb t s
  | _ => false
  end.

(** [[k for k in kernels if k.get("features") != "Coinbase"]]. *)
Fixpoint tx_kernels_of (kernels : list json) : Exc (list json) :=
  match kernels with
  | [] => Ok []
  | k :: rest =>
      and_then (get k "features" JNull) (fun f =>
      and_then (tx_kernels_of rest) (fun ks =>
      Ok (if is_str f "Coinbase" then ks else k :: ks)))
  end.

(** [sum(int(k.get("fee", 0)) for k in tx_kernels)]. *)
Fixpoint fees_of (tx_kernels : list json) (acc : Z) : Exc Z :=
  match tx_kernels with
  | [] => Ok acc
  | k :: rest =>
      and_then (and_then (get k "fee" (JInt 0)) py_int) (fun fee =>
      fees_of rest (acc + fee))
  end.

Definition BlockStat : Type := Z * Z * Z * Z * Z.

Definition fetch_full_block (height : Z) : M (option BlockStat) :=
  try_except
    (data <- grin_rpc "get_block" (by_height_params height) 3 ;;
     if negb (truthy data) then ret None
     else
       header <- lift (get data "header" (JObj [])) ;;
       kernels <- lift (get data "kernels" (JArr [])) ;;
       outputs <- lift (get data "outputs" (JArr [])) ;;
       tx_kernels <- lift (and_then (iter kernels) tx_kernels_of) ;;
       fee_total <- lift (fees_of tx_kernels 0) ;;
       h <- lift (and_then (get header "height" (JInt height)) py_int) ;;
       ts_str <- lift (get header "timestamp" (JStr "")) ;;
       ts <- parse_ts ts_str ;;
       n_outputs <- lift (len outputs) ;;
       ret (Some (h, ts, Z.of_nat (length tx_kernels), fee_total, n_outputs)))
    is_Exception
    (fun _ => ret None).

(** ** Bucket assignment *)

Definition assign_bucket (ts : Z) : M Bucket :=
  now <- now_ts ;;
  let age := now - ts in
  if age <? RECENT_HOURS * 3600 then ret Recent
  else if age <? HOURLY_DAYS * 86400 then ret Hourly
  else ret Daily.

(** ** Incremental update: hashrate of the new rows *)

(** [SELECT height, timestamp, total_diff FROM blocks WHERE height=?]. *)
Definition select_block (height : Z) (d : DB) : option Header :=
  (fun r => (height, b_timestamp r, b_total_diff r)) <$> blocks d !! height.

Definition _append_hashrate (new_rows : list Header) (last_height : Z) : M (list Rated) :=
  match new_rows with
  | [] => ret []
  | _ =>
      row <- query (select_block last_height) ;;
      let base := match row with Some r => [r] | None => [] end in
      let combined := calc_hashrate (base ++ new_rows) in
      ret (drop (length base) combined)
  end.

(** [INSERT OR REPLACE INTO blocks ...], row after row. *)
Definition insert_blocks (rows : list (Z * BlockRow)) : DB -> DB :=
  with_blocks (fun b => fold_left (fun m hr => <[fst hr := snd hr]> m) rows b).

(** [UPDATE blocks SET bucket=<to> WHERE bucket=<from> AND timestamp < ?]. *)
Definition rebucket_row (from to : Bucket) (cutoff : Z) (r : BlockRow) : BlockRow :=
  if bool_decide (b_bucket r = from) && (b_timestamp r <? cutoff)
  then mkBlock (b_timestamp r) (b_total_diff r) (b_hashrate r) to
  else r.
Definition rebucket (from to : Bucket) (cutoff : Z) : DB -> DB :=
  with_blocks (fmap (rebucket_row from to cutoff)).

(** [[(h, ts, diff, hr, assign_bucket(ts)) for h, ts, diff, hr in rows]]. *)
Fixpoint with_buckets (rows : list Rated) : M (list (Z * BlockRow)) :=
  match rows with
  | [] => ret []
  | (h, ts, diff, hr) :: rest =>
      b <- assign_bucket ts ;;
      rs <- with_buckets rest ;;
      ret ((h, mkBlock ts diff hr b) :: rs)
  end.

(** [INSERT OR REPLACE INTO block_stats ...], row after row. *)
Definition insert_block_stats (batch : list BlockStat) : DB -> DB :=
  with_block_stats (fun t =>
    fold_left (fun m (r : BlockStat) =>
                 let '(h, ts, txs, fees, outs) := r in
                 <[h := mkStat ts txs fees outs]> m) batch t).

Definition _fetch_block_stats_range (start stop : Z) (workers : nat) : M unit :=
  let heights := range (Z.max 0 start) (stop + 1) in
  match heights with
  | [] => ret tt
  | _ =>
      batch <- run_tasks fetch_full_block heights ;;
      match batch with
      | [] => ret tt
      | _ => execute (insert_block_stats batch)
      end
  end.

(** ** JSON export: writing a file *)

(** The document is written to [<filename>.tmp], which then replaces
    [<filename>]. *)
Definition _write_json (filename : string) (data : json) : M unit :=
  let tmp := (filename ++ ".tmp")%string in
  fun w =>
    let written := <[tmp := data]> (files w) in
    let replaced := <[filename := data]> (delete tmp written) in
    (Ok tt, mkWorld (db w) replaced (trace w ++ [EvWrite filename])).

(** ** Peer discovery *)

Record Peer : Type := mkPeer {
  p_ip : string;
  p_port : string;
  p_user_agent : string;
  p_direction : string;
  p_network : string
}.

(** [addr.rsplit(":", 1)[0].strip("[]")]. *)
Definition addr_ip (addr : string) : string :=
  strip "[]" (rsplit_first ":"%char addr).

(** [addr.rsplit(":", 1)[-1] if ":" in addr else "3414"]. *)
Definition addr_port (addr : string) : string :=
  if contains ":" addr then rsplit_last ":"%char addr else "3414".

(** Only a string has [.rsplit]. *)
Definition as_str (j : json) : Exc string :=
  match j with
  | JStr s => Ok s
  | _ => Raise AttributeError
  end.

(** The record appended for a peer that passes the filter.  Grin sends
    [user_agent] and [direction] as strings; a value of another JSON type is
    represented by its [str]. *)
Definition peer_record (network_label ip port : string) (p : json) : Exc Peer :=
  and_then (get p "user_agent" (JStr "unknown")) (fun ua =>
  and_then (get p "direction" (JStr "Outbound")) (fun dir =>
  Ok (mkPeer ip port (py_str ua) (py_str dir) network_label))).

(** The address test of the owner-API loop. *)
Definition owner_ip_ok (ip : string) : bool :=
  negb (String.eqb ip "") && negb (startswith ip "127.") && negb (startswith ip "::1")
  && negb (startswith ip "10.") && negb (startswith ip "192.168.").

(** The address test of the fallback loop. *)
Definition foreign_ip_ok (ip : string) : bool :=
  negb (String.eqb ip "") && negb (startswith ip "127.") && negb (startswith ip "::1").

(** One iteration of the owner-API loop: [None] when the entry is skipped. *)
Definition owner_entry (network_label : string) (p : json) : Exc (option Peer) :=
  and_then (get p "flags" (JStr "")) (fun flags =>
  if contains "Banned" (py_str flags) then Ok None
  else
    and_then (and_then (get p "addr" (JStr "")) as_str) (fun addr =>
    let ip := addr_ip addr in
    let port := addr_port addr in
    if owner_ip_ok ip
    then and_then (peer_record network_label ip port p) (fun x => Ok (Some x))
    else Ok None)).

(** One iteration of the fallback loop. *)
Definition foreign_entry (network_label : string) (p : json) : Exc (option Peer) :=
  and_then (and_then (get p "addr" (JStr "")) as_str) (fun addr =>
  let ip := addr_ip addr in
  let port := addr_port addr in
  if foreign_ip_ok ip
  then and_then (peer_record network_label ip port p) (fun x => Ok (Some x))
  else Ok None).

(** [for p in raw: ...] appending to [peer_list]: the list built when the
    loop ends or raises, and the exception if it raised. *)
Fixpoint collect_peers (entry : json -> Exc (option Peer)) (raw : list json)
    (peer_list : list Peer) : list Peer * option exn :=
  match raw with
  | [] => (peer_list, None)
  | p :: rest =>
      match entry p with
      | Ok (Some x) => collect_peers entry rest (peer_list ++ [x])
      | Ok None => collect_peers entry rest peer_list
      | Raise e => (peer_list, Some e)
      end
  end.

(** The first [try] of [_fetch_all_peers_from_node]: [inl peer_list] when it
    returns [peer_list], [inr peer_list] when control falls through to the
    fallback with the list built so far.  The loop raises only
    [AttributeError] and [TypeError], which [except Exception] catches. *)
Definition try_owner_api (owner_url secret network_label : string)
    : M (list Peer + list Peer) :=
  try_except
    (raw <- _rpc owner_url "get_peers" (JObj [("peer_addr", JNull)]) secret 3 ;;
     if truthy raw then
       match iter raw with
       | Ok items =>
           match collect_peers (owner_entry network_label) items [] with
           | (peer_list, None) => ret (inl peer_list)
           | (peer_list, Some _) => ret (inr peer_list)
           end
       | Raise _ => ret (inr [])
       end
     else ret (inr []))
    is_Exception
    (fun _ => ret (inr [])).

(** The second [try]: [get_connected_peers] on the foreign API. *)
Definition try_foreign_api (owner_url network_label : string) (peer_list : list Peer)
    : M (list Peer) :=
  let foreign_url := replace "/v2/owner" "/v2/foreign" owner_url in
  try_except
    (raw <- _rpc foreign_url "get_connected_peers" JNull "" 2 ;;
     if truthy raw then
       match iter raw with
       | Ok items => ret (fst (collect_peers (foreign_entry network_label) items peer_list))
       | Raise _ => ret peer_list
       end
     else ret peer_list)
    is_Exception
    (fun _ => ret peer_list).

Definition _fetch_all_peers_from_node (owner_url secret network_label : string)
    : M (list Peer) :=
  first <- try_owner_api owner_url secret network_label ;;
  match first with
  | inl peer_list => ret peer_list
  | inr peer_list => try_foreign_api owner_url network_label peer_list
  end.

Definition _is_node_running (port : Z) : M bool :=
  k <- steps ;;
  emit (EvConnect port) ;;
  ret (listening env k port).

(** ** Peer reconciliation *)

(** The first part of [_update_peers]: the peers of both networks. *)
Definition discover_peers : M (list Peer) :=
  mainnet_up <- _is_node_running 3413 ;;
  mainnet_peers <-
    (if mainnet_up
     then _fetch_all_peers_from_node (MAINNET_OWNER_URL env) (API_SECRET env) "mainnet"
     else ret []) ;;
  testnet_up <- _is_node_running 13413 ;;
  testnet_peers <-
    (if testnet_up
     then _fetch_all_peers_from_node (TESTNET_OWNER_URL env) (TESTNET_API_SECRET env) "testnet"
     else ret []) ;;
  ret (mainnet_peers ++ testnet_peers).

Definition peer_key (p : Peer) : string * string := (p_ip p, p_network p).

(** De-duplication on [(ip, network)], keeping the first occurrence. *)
Fixpoint dedup_peers (seen : list (string * string)) (peers : list Peer) : list Peer :=
  match peers with
  | [] => []
  | p :: rest =>
      if bool_decide (peer_key p ∈ seen) then dedup_peers seen rest
      else p :: dedup_peers (peer_key p :: seen) rest
  end.

Record Geo : Type := mkGeo {
  g_lat : json;
  g_lng : json;
  g_country : json;
  g_country_code : json;
  g_city : json
}.

(** One iteration of [for g in geo_results].  A string [query] is the only
    key a later lookup by IP can find; a list or a dict is not hashable. *)
Definition geo_entry (g : json) (geo_map : gmap string Geo) : Exc (gmap string Geo) :=
  and_then (get g "status" JNull) (fun status =>
  if is_str status "success" then
    and_then (get g "lat" (JInt 0)) (fun lat =>
    and_then (get g "lon" (JInt 0)) (fun lon =>
    and_then (get g "country" (JStr "")) (fun country =>
    and_then (get g "countryCode" (JStr "")) (fun code =>
    and_then (get g "city" (JStr "")) (fun city =>
    and_then (getitem g "query") (fun q =>
    match q with
    | JStr ip => Ok (<[ip := mkGeo lat lon country code city]> geo_map)
    | JArr _ | JObj _ => Raise TypeError
    | _ => Ok geo_map
    end))))))
  else Ok geo_map).

Fixpoint collect_geo (results : list json) (geo_map : gmap string Geo)
    : gmap string Geo * option exn :=
  match results with
  | [] => (geo_map, None)
  | g :: rest =>
      match geo_entry g geo_map with
      | Ok m => collect_geo rest m
      | Raise e => (geo_map, Some e)
      end
  end.

(** One batch: whatever is raised inside the [try] is caught, and the
    entries stored before it stay in [geo_map]. *)
Definition geo_batch (batch : list string) (geo_map : gmap string Geo)
    : M (gmap string Geo) :=
  fetched <- try_except
               (geo_results <- urlopen_json (GeoRequest batch) ;; ret (Some geo_results))
               is_Exception
               (fun _ => ret None) ;;
  match fetched with
  | None => ret geo_map
  | Some geo_results =>
      match iter geo_results with
      | Ok items =>
          match collect_geo items geo_map with
          | (m, None) => sleep (3 # 2) ;; ret m
          | (m, Some _) => ret m
          end
      | Raise _ => ret geo_map
      end
  end.

(** [unique_ips[i: i + size]] for [i] in [range(0, len(unique_ips), size)]. *)
Fixpoint batches (fuel size : nat) (l : list string) : list (list string) :=
  match fuel with
  | O => []
  | S fuel' =>
      match l with
      | [] => []
      | _ => take size l :: batches fuel' size (drop size l)
      end
  end.

Fixpoint geolocate_batches (bs : list (list string)) (geo_map : gmap string Geo)
    : M (gmap string Geo) :=
  match bs with
  | [] => ret geo_map
  | b :: rest =>
      m <- geo_batch b geo_map ;;
      geolocate_batches rest m
  end.

(** The order in which Python iterates the set of IPs is not specified; the
    model takes the order of first occurrence. *)
Definition geolocate (all_peers : list Peer) : M (gmap string Geo) :=
  let unique_ips := remove_dups (map p_ip all_peers) in
  geolocate_batches (batches (length unique_ips) GEO_BATCH unique_ips) ∅.

Record Enriched : Type := mkEnriched {
  e_ip : string;
  e_port : string;
  e_lat : json;
  e_lng : json;
  e_country : json;
  e_country_code : json;
  e_city : json;
  e_user_agent : string;
  e_direction : string;
  e_network : string;
  e_last_seen : Z
}.

Definition enrich (geo_map : gmap string Geo) (ts : Z) (p : Peer) : Enriched :=
  let geo := geo_map !! p_ip p in
  mkEnriched (p_ip p) (p_port p)
    (default (JInt 0) (g_lat <$> geo))
    (default (JInt 0) (g_lng <$> geo))
    (default (JStr "") (g_country <$> geo))
    (default (JStr "") (g_country_code <$> geo))
    (default (JStr "") (g_city <$> geo))
    (p_user_agent p) (p_direction p) (p_network p) ts.

(** [INSERT INTO known_peers ... ON CONFLICT(ip, network) DO UPDATE SET ...]
    for one peer: the inserted row has [first_seen = last_seen = ts]; on
    conflict every column but the key and [first_seen] is overwritten. *)
Definition upsert_peer (ts : Z) (kp : gmap (string * string) PeerRow) (p : Enriched)
    : gmap (string * string) PeerRow :=
  let key := (e_ip p, e_network p) in
  let first :=
    match kp !! key with
    | Some old => first_seen old
    | None => ts
    end in
  <[key := mkPeerRow (e_port p) (e_user_agent p) (e_direction p) (e_lat p) (e_lng p)
             (e_country p) (e_country_code p) (e_city p) first ts]> kp.

Definition upsert_peers (ts : Z) (enriched : list Enriched)
    (kp : gmap (string * string) PeerRow) : gmap (string * string) PeerRow :=
  fold_left (upsert_peer ts) enriched kp.

(** [DELETE FROM known_peers WHERE last_seen < ?]. *)
Definition prune_peers (cutoff : Z) (kp : gmap (string * string) PeerRow)
    : gmap (string * string) PeerRow :=
  filter (fun kr => ~ (last_seen (snd kr) < cutoff)) kp.

(** [collections.Counter]: counts in order of first occurrence. *)
Fixpoint counter_add (x : string) (c : list (string * Z)) : list (string * Z) :=
  match c with
  | [] => [(x, 1)]
  | (k, n) :: rest =>
      if String.eqb k x then (k, n + 1) :: rest else (k, n) :: counter_add x rest
  end.
Definition Counter (l : list string) : list (string * Z) :=
  fold_left (fun c x => counter_add x c) l [].

Definition is_mainnet (network : string) : bool := String.eqb network "mainnet".
Definition is_testnet (network : string) : bool := String.eqb network "testnet".

(** [SELECT ... FROM known_peers WHERE last_seen >= ? ORDER BY last_seen DESC].
    SQL leaves the order of rows with equal [last_seen] open; the model
    keeps them in the order the table enumerates them. *)
Definition select_recent_peers (history_cutoff : Z) (d : DB)
    : list (string * string * PeerRow) :=
  sort_by (fun kr => - last_seen (snd kr))
    (List.filter (fun kr => history_cutoff <=? last_seen (snd kr))
       (map_to_list (known_peers d))).

Definition peer_json (kr : string * string * PeerRow) : json :=
  let '(ip, network, r) := kr in
  JObj [("ip", JStr ip); ("network", JStr network); ("port", JStr (k_port r));
        ("user_agent", JStr (k_user_agent r)); ("direction", JStr (k_direction r));
        ("lat", k_lat r); ("lng", k_lng r); ("country", k_country r);
        ("country_code", k_country_code r); ("city", k_city r);
        ("first_seen", JInt (first_seen r)); ("last_seen", JInt (last_seen r))].

Definition _write_peers_json (peers : list json) (mainnet_count testnet_count : Z) : M unit :=
  updated <- now_ts ;;
  _write_json "peers.json"
    (JObj [("updated", JInt updated); ("count", JInt (Z.of_nat (length peers)));
           ("mainnet_count", JInt mainnet_count); ("testnet_count", JInt testnet_count);
           ("peers", JArr peers)]).

Definition count_network (test : string -> bool) (rows : list (string * string * PeerRow)) : Z :=
  Z.of_nat (length (List.filter (fun kr => test (snd (fst kr))) rows)).

Definition _update_peers : M unit :=
  all_peers <- discover_peers ;;
  match all_peers with
  | [] => _write_peers_json [] 0 0
  | _ =>
      let all_peers := dedup_peers [] all_peers in
      geo_map <- geolocate all_peers ;;
      ts <- now_ts ;;
      let enriched := map (enrich geo_map ts) all_peers in
      execute (with_known_peers (upsert_peers ts enriched)) ;;
      let cutoff := ts - PEER_RETENTION_DAYS * 86400 in
      execute (with_known_peers (prune_peers cutoff)) ;;
      let mainnet_only := List.filter (fun p => is_mainnet (p_network p)) all_peers in
      let version_counts := Counter (map p_user_agent mainnet_only) in
      match version_counts with
      | [] => ret tt
      | _ =>
          execute (with_peer_snapshots (fun t =>
            t ++ map (fun uc => mkSnapshot ts (fst uc) (snd uc)) version_counts)) ;;
          execute (with_peer_snapshots
            (List.filter (fun s => negb (sampled_at s <? ts - 365 * 86400))))
      end ;;
      let history_cutoff := ts - PEER_HISTORY_DAYS * 86400 in
      rows <- query (select_recent_peers history_cutoff) ;;
      let output_peers := map peer_json rows in
      let mainnet_count := count_network is_mainnet rows in
      let testnet_count := count_network is_testnet rows in
      _write_peers_json output_peers mainnet_count testnet_count
  end.

(** ** JSON export *)

(** [round(x, 2)]: an integer stays as it is. *)
Definition py_round2 (x : json) : json :=
  match x with
  | JReal q => JReal (round2 q)
  | _ => x
  end.

(** The two columns of [blocks] that are exported. *)
Definition col_hashrate (r : BlockRow) : json := JReal (b_hashrate r).
Definition col_total_diff (r : BlockRow) : json := JInt (b_total_diff r).

(** [SELECT timestamp, <col> FROM blocks WHERE bucket=<b> ORDER BY timestamp]. *)
Definition select_bucket (col : BlockRow -> json) (b : Bucket) (d : DB) : list (Z * json) :=
  map (fun hr => (b_timestamp (snd hr), col (snd hr)))
    (sort_by (fun hr => b_timestamp (snd hr))
       (List.filter (fun hr => bool_decide (b_bucket (snd hr) = b))
          (map_to_list (blocks d)))).

(** [SELECT ... FROM blocks ORDER BY height DESC LIMIT <n>]. *)
Definition select_tip (n : nat) (d : DB) : list (Z * BlockRow) :=
  take n (sort_by (fun hr => - fst hr) (map_to_list (blocks d))).

(** [[[r[0], round(r[1], 2)] for r in rows]]. *)
Definition rounded_points (rows : list (Z * json)) : json :=
  JArr (map (fun r => JArr [JInt (fst r); py_round2 (snd r)]) rows).

(** [[[r[0], r[1]] for r in rows]]. *)
Definition points (rows : list (Z * Z)) : json :=
  JArr (map (fun r => JArr [JInt (fst r); JInt (snd r)]) rows).

Definition metric_doc (col : BlockRow -> json) (ts_now : Z) (d : DB) : json :=
  let daily := select_bucket col Daily d in
  let hourly := select_bucket col Hourly d in
  let recent := select_bucket col Recent d in
  let current_val :=
    match select_tip 1 d with
    | last :: _ => col (snd last)
    | [] => JInt 0
    end in
  JObj [("updated", JInt ts_now); ("current", py_round2 current_val);
        ("daily", rounded_points daily); ("hourly", rounded_points hourly);
        ("recent", rounded_points recent)].

(** The two columns of [block_stats] that are exported. *)
Definition stat_rows (col : StatRow -> Z) (d : DB) : list (Z * Z) :=
  map (fun hr => (s_timestamp (snd hr), col (snd hr))) (map_to_list (block_stats d)).

(** [SELECT (timestamp/w)*w AS bucket_ts, SUM(col) ... GROUP BY bucket_ts
    ORDER BY bucket_ts]; SQLite's integer division truncates. *)
Definition group_sum (width : Z) (rows : list (Z * Z)) : list (Z * Z) :=
  let sums : gmap Z Z :=
    fold_left (fun m (r : Z * Z) =>
                 let bucket_ts := Z.quot (fst r) width * width in
                 <[bucket_ts := default 0 (m !! bucket_ts) + snd r]> m) rows ∅ in
  sort_by fst (map_to_list sums).

Definition txfee_doc (col : StatRow -> Z) (ts_now : Z) (d : DB) : json :=
  let cutoff_24h := ts_now - 86400 in
  let cutoff_30d := ts_now - 30 * 86400 in
  let rows := stat_rows col d in
  let recent := sort_by fst (List.filter (fun r => cutoff_24h <=? fst r) rows) in
  let hourly_raw :=
    group_sum (BLOCKS_PER_HOUR * 60)
      (List.filter (fun r => (cutoff_30d <=? fst r) && (fst r <? cutoff_24h)) rows) in
  let daily_raw := group_sum 86400 (List.filter (fun r => fst r <? cutoff_30d) rows) in
  JObj [("updated", JInt ts_now); ("daily", points daily_raw);
        ("hourly", points hourly_raw); ("recent", points recent)].

(** [SELECT MAX(sampled_at) FROM peer_snapshots]: [None] is SQL's NULL. *)
Definition max_sampled_at (d : DB) : option Z :=
  match peer_snapshots d with
  | [] => None
  | s :: rest => Some (fold_left (fun m x => Z.max m (sampled_at x)) rest (sampled_at s))
  end.

(** [SELECT user_agent, count FROM peer_snapshots WHERE sampled_at=?
    ORDER BY count DESC]. *)
Definition select_snapshot (t : Z) (d : DB) : list (string * Z) :=
  map (fun s => (snap_user_agent s, snap_count s))
    (sort_by (fun s => - snap_count s)
       (List.filter (fun s => sampled_at s =? t) (peer_snapshots d))).

Definition versions_doc (ts_now latest_snap_ts : Z) (d : DB) : json :=
  let rows := select_snapshot latest_snap_ts d in
  let total_peers := sum (map snd rows) in
  let top := take 5 rows in
  let other := sum (map snd (drop 5 rows)) in
  let versions :=
    map (fun r => JObj [("label", JStr (fst r)); ("count", JInt (snd r))]) top
    ++ (if 0 <? other then [JObj [("label", JStr "Other"); ("count", JInt other)]] else []) in
  JObj [("updated", JInt ts_now); ("sampled_from", JInt total_peers);
        ("versions", JArr versions)].

Definition summary_doc (ts_now : Z) (d : DB) : json :=
  let tip_row := select_tip 2 d in
  let tip_height := match tip_row with r :: _ => fst r | [] => 0 end in
  let avg_blocktime :=
    match tip_row with
    | [r0; r1] => b_timestamp (snd r0) - b_timestamp (snd r1)
    | _ => 0
    end in
  let last := select_tip 1 d in
  JObj [("updated", JInt ts_now); ("tip_height", JInt tip_height);
        ("avg_block_time", JInt avg_blocktime);
        ("current_hashrate",
          match last with r :: _ => py_round2 (col_hashrate (snd r)) | [] => JInt 0 end);
        ("current_difficulty",
          match last with r :: _ => col_total_diff (snd r) | [] => JInt 0 end)].

Definition export_all_json : M unit :=
  ts_now <- now_ts ;;
  d <- query (fun d => d) ;;
  _write_json "hashrate.json" (metric_doc col_hashrate ts_now d) ;;
  _write_json "difficulty.json" (metric_doc col_total_diff ts_now d) ;;
  _write_json "transactions.json" (txfee_doc s_tx_count ts_now d) ;;
  _write_json "fees.json" (txfee_doc s_fee_total ts_now d) ;;
  match max_sampled_at d with
  | Some latest_snap_ts =>
      if latest_snap_ts =? 0 then ret tt
      else _write_json "versions.json" (versions_doc ts_now latest_snap_ts d)
  | None => ret tt
  end ;;
  _write_json "summary.json" (summary_doc ts_now d).

(** ** Incremental update *)

Definition cmd_update : M unit :=
  last_height <- get_meta "last_height" 0 ;;
  tip <- grin_rpc "get_tip" JNull 3 ;;
  if negb (truthy tip) then raise (SystemExit 1)
  else
    tip_height <- lift (and_then (getitem tip "height") py_int) ;;
    (if tip_height <=? last_height then ret tt
     else
       let new_heights := range (last_height + 1) (tip_height + 1) in
       rows <- fetch_headers_batch new_heights 4 ;;
       let rows := sort_by header_height rows in
       rows_with_hr <- _append_hashrate rows last_height ;;
       to_insert <- with_buckets rows_with_hr ;;
       execute (insert_blocks to_insert) ;;
       now1 <- now_ts ;;
       execute (rebucket Recent Hourly (now1 - RECENT_HOURS * 3600)) ;;
       now2 <- now_ts ;;
       execute (rebucket Hourly Daily (now2 - HOURLY_DAYS * 86400)) ;;
       set_meta "last_height" tip_height ;;
       now3 <- now_ts ;;
       set_meta "last_updated" now3 ;;
       _fetch_block_stats_range (last_height + 1) tip_height 4) ;;
    _update_peers ;;
    export_all_json.

End Collector.

(** ** Auxiliary definitions of the proofs *)

(** A store whose only table is [blocks]. *)
Definition blocks_only (rows : list (Z * BlockRow)) : DB :=
  insert_blocks rows (mkDB ∅ ∅ [] ∅ ∅).

(** The effect of [_write_json] on the files. *)
Definition write_file (filename : string) (data : json) (fs : gmap string json)
    : gmap string json :=
  <[filename := data]>
    (delete (filename ++ ".tmp")%string (<[(filename ++ ".tmp")%string := data]> fs)).

(** The timestamp of the snapshot [export_all_json] publishes, if any. *)
Definition published_snapshot (d : DB) : option Z :=
  match max_sampled_at d with
  | Some t => if t =? 0 then None else Some t
  | None => None
  end.

(** The files after an export at time [ts_now] from the store [d]. *)
Definition export_files (ts_now : Z) (d : DB) (fs : gmap string json) : gmap string json :=
  let fs1 := write_file "hashrate.json" (metric_doc col_hashrate ts_now d) fs in
  let fs2 := write_file "difficulty.json" (metric_doc col_total_diff ts_now d) fs1 in
  let fs3 := write_file "transactions.json" (txfee_doc s_tx_count ts_now d) fs2 in
  let fs4 := write_file "fees.json" (txfee_doc s_fee_total ts_now d) fs3 in
  let fs5 := match published_snapshot d with
             | Some t => write_file "versions.json" (versions_doc ts_now t d) fs4
             | None => fs4
             end in
  write_file "summary.json" (summary_doc ts_now d) fs5.

(** The interactions of an export. *)
Definition export_events (d : DB) : list Event :=
  [EvClock; EvWrite "hashrate.json"; EvWrite "difficulty.json";
   EvWrite "transactions.json"; EvWrite "fees.json"]
  ++ match published_snapshot d with
     | Some _ => [EvWrite "versions.json"]
     | None => []
     end
  ++ [EvWrite "summary.json"].

(** The names [export_all_json] may write, and their temporary names. *)
Definition export_names : list string :=
  ["hashrate.json"; "difficulty.json"; "transactions.json"; "fees.json";
   "versions.json"; "summary.json"].
Definition export_tmp_names : list string :=
  map (fun f => (f ++ ".tmp")%string) export_names.

(** [w'] is reached from [w] by interactions that all satisfy [okev] and by
    statements that keep the store related by [okdb]. *)
Definition extends (okev : Event -> Prop) (okdb : DB -> DB -> Prop) (w w' : World) : Prop :=
  okdb (db w) (db w') /\ exists evs, trace w' = trace w ++ evs /\ Forall okev evs.

(** Every run of [m] extends the world it starts from. *)
Definition frame (okev : Event -> Prop) (okdb : DB -> DB -> Prop) {A} (m : M A) : Prop :=
  forall w, extends okev okdb w (snd (m w)).

(** [m] raises nothing that [except Exception] would let through. *)
Definition catchable {A} (m : M A) : Prop :=
  forall w e, fst (m w) = Raise e -> is_Exception e = true.
Definition catchable_pure {A} (x : Exc A) : Prop :=
  forall e, x = Raise e -> is_Exception e = true.

(** [m] never raises. *)
Definition total {A} (m : M A) : Prop :=
  forall w, exists a, fst (m w) = Ok a.

(** A request for a block header or a full block. *)
Definition is_block_fetch (ev : Event) : bool :=
  match ev with
  | EvUrlopen (RpcRequest _ method _ _) =>
      String.eqb method "get_header" || String.eqb method "get_block"
  | _ => false
  end.

Definition same_blocks (d d' : DB) : Prop := blocks d' = blocks d.

(** The two re-bucketing statements of [cmd_update] on one row. *)
Definition migrate (cutoff_recent cutoff_hourly : Z) (r : BlockRow) : BlockRow :=
  rebucket_row Hourly Daily cutoff_hourly (rebucket_row Recent Hourly cutoff_recent r).

(** [INSERT OR REPLACE INTO blocks] on the table alone. *)
Definition insert_rows (rows : list (Z * BlockRow)) (b : gmap Z BlockRow) : gmap Z BlockRow :=
  fold_left (fun m hr => <[fst hr := snd hr]> m) rows b.

(** ** Sample environments and worlds *)

(** A node that answers [get_tip] with height [h] and fails every other
    request; no node accepts connections on the peer-discovery ports; the
    clock shows [now] at every reading. *)
Definition tip_only_env (h now : Z) : Env :=
  mkEnv "http://127.0.0.1:3413/v2/foreign" "" "http://127.0.0.1:3413/v2/owner"
    "http://127.0.0.1:13413/v2/owner" ""
    (fun _ => now)
    (fun _ req =>
       match req with
       | RpcRequest _ method _ _ =>
           if String.eqb method "get_tip"
           then Body (JObj [("jsonrpc", JStr "2.0");
                            ("result", JObj [("Ok", JObj [("height", JInt h)])])])
           else NetError
       | GeoRequest _ => NetError
       end)
    (fun _ _ => false)
    (fun _ => None)
    (fun _ => None)
    (fun _ => "").

(** A store with one block row and [last_height] pointing at it. *)
Definition one_block_world (h : Z) (r : BlockRow) : World :=
  mkWorld (mkDB {[h := r]} ∅ [] {["last_height" := h]} ∅) ∅ [].

(** No node, no network; the clock advances by one second per reading. *)
Definition ticking_env : Env :=
  mkEnv "http://127.0.0.1:3413/v2/foreign" "" "http://127.0.0.1:3413/v2/owner"
    "http://127.0.0.1:13413/v2/owner" ""
    (fun k => Z.of_nat k)
    (fun _ _ => NetError)
    (fun _ _ => false)
    (fun _ => None)
    (fun _ => None)
    (fun _ => "").

Definition empty_db : DB := mkDB ∅ ∅ [] ∅ ∅.
Definition empty_world : World := mkWorld empty_db ∅ [].

(** The address ranges the specification names, by textual prefix: loopback
    (127/8, ::1), link-local (169.254/16, fe80::/10) and private (10/8,
    172.16/12, 192.168/16). *)
Definition spec_local_prefixes : list string :=
  ["127."; "::1"; "169.254."; "fe80:"; "10."; "192.168.";
   "172.16."; "172.17."; "172.18."; "172.19."; "172.20."; "172.21."; "172.22.";
   "172.23."; "172.24."; "172.25."; "172.26."; "172.27."; "172.28."; "172.29.";
   "172.30."; "172.31."].
Definition spec_local_ip (ip : string) : bool :=
  existsb (startswith ip) spec_local_prefixes.

(** A running mainnet node whose owner API answers [get_peers] with
    [peers]; every other request fails; the clock shows [now]. *)
Definition owner_peers_env (now : Z) (peers : json) : Env :=
  mkEnv "http://127.0.0.1:3413/v2/foreign" "" "http://127.0.0.1:3413/v2/owner"
    "http://127.0.0.1:13413/v2/owner" ""
    (fun _ => now)
    (fun _ req =>
       match req with
       | RpcRequest _ method _ _ =>
           if String.eqb method "get_peers"
           then Body (JObj [("jsonrpc", JStr "2.0"); ("result", JObj [("Ok", peers)])])
           else NetError
       | GeoRequest _ => NetError
       end)
    (fun _ port => port =? 3413)
    (fun _ => None)
    (fun _ => None)
    (fun _ => "").

(** Every value [m] returns satisfies [Q]. *)
Definition returns {A} (Q : A -> Prop) (m : M A) : Prop :=
  forall w a, fst (m w) = Ok a -> Q a.

(** The invariant of [known_peers]: no row was first seen after it was last
    seen, nor last seen after the present reading of the clock. *)
Definition peers_inv (env : Env) (w : World) : Prop :=
  forall key r, known_peers (db w) !! key = Some r ->
    first_seen r <= last_seen r <= clock env (length (trace w)).

(** The row [upsert_peer] stores for a sighting. *)
Definition sighted_row (e : Enriched) (first ts : Z) : PeerRow :=
  mkPeerRow (e_port e) (e_user_agent e) (e_direction e) (e_lat e) (e_lng e)
    (e_country e) (e_country_code e) (e_city e) first ts.

(** The document [_write_peers_json] writes at clock reading [updated] for
    the rows [rows]. *)
Definition peers_doc (updated : Z) (rows : list (string * string * PeerRow)) : json :=
  JObj [("updated", JInt updated); ("count", JInt (Z.of_nat (length (map peer_json rows))));
        ("mainnet_count", JInt (count_network is_mainnet rows));
        ("testnet_count", JInt (count_network is_testnet rows));
        ("peers", JArr (map peer_json rows))].

(** A store with one known peer. *)
Definition one_peer_world (ip network : string) (r : PeerRow) : World :=
  mkWorld (mkDB ∅ ∅ [] ∅ {[(ip, network) := r]}) ∅ [].

(** A sample [strptime] oracle: it reads exactly the 19 characters
    [YYYY-MM-DDTHH:MM:SS] of a valid date and time and returns the UTC epoch
    second. *)
Definition digit (c : ascii) : option Z :=
  let n := Z.of_nat (nat_of_ascii c) in
  if (48 <=? n) && (n <=? 57) then Some (n - 48) else None.

Definition number (cs : list ascii) : option Z :=
  fold_left (fun acc c =>
               match acc, digit c with
               | Some n, Some d => Some (10 * n + d)
               | _, _ => None
               end) cs (Some 0).

Definition is_leap (y : Z) : bool :=
  ((y mod 4 =? 0) && negb (y mod 100 =? 0)) || (y mod 400 =? 0).

Definition days_in_month (y m : Z) : Z :=
  if m =? 2 then (if is_leap y then 29 else 28)
  else if (m =? 4) || (m =? 6) || (m =? 9) || (m =? 11) then 30
  else 31.

(** Days from 1970-01-01 to the given civil date. *)
Definition days_from_civil (y m d : Z) : Z :=
  let y' := if m <=? 2 then y - 1 else y in
  let era := y' / 400 in
  let yoe := y' - era * 400 in
  let doy := (153 * (m + (if 2 <? m then -3 else 9)) + 2) / 5 + d - 1 in
  let doe := yoe * 365 + yoe / 4 - yoe / 100 + doy in
  era * 146097 + doe - 719468.

Definition strptime_strict (s : string) : option Z :=
  match list_ascii_of_string s with
  | [y1; y2; y3; y4; s1; m1; m2; s2; d1; d2; t; h1; h2; c1; n1; n2; c2; e1; e2] =>
      if Ascii.eqb s1 "-" && Ascii.eqb s2 "-" && Ascii.eqb t "T"
         && Ascii.eqb c1 ":" && Ascii.eqb c2 ":"
      then
        match number [y1; y2; y3; y4], number [m1; m2], number [d1; d2],
              number [h1; h2], number [n1; n2], number [e1; e2] with
        | Some y, Some m, Some d, Some hh, Some mm, Some ss =>
            if (1 <=? y) && (1 <=? m) && (m <=? 12) && (1 <=? d)
               && (d <=? days_in_month y m) && (hh <=? 23) && (mm <=? 59) && (ss <=? 59)
            then Some (days_from_civil y m d * 86400 + hh * 3600 + mm * 60 + ss)
            else None
        | _, _, _, _, _, _ => None
        end
      else None
  | _ => None
  end.

(** No node, no network; a clock that shows [now]; the strict [strptime]. *)
Definition offline_env (now : Z) : Env :=
  mkEnv "http://127.0.0.1:3413/v2/foreign" "" "http://127.0.0.1:3413/v2/owner"
    "http://127.0.0.1:13413/v2/owner" ""
    (fun _ => now)
    (fun _ _ => NetError)
    (fun _ _ => false)
    strptime_strict
    (fun _ => None)
    (fun _ => "").

(** ** Initial history import and entry point *)

Definition SAMPLE_DAILY : Z := BLOCKS_PER_DAY.
Definition SAMPLE_HOURLY : Z := BLOCKS_PER_HOUR.
Definition SAMPLE_RECENT : Z := 1.

(** [range(a, b, step)] for a positive [step]. *)
Definition range_step (a b step : Z) : list Z :=
  map (fun k => a + step * Z.of_nat k) (seq 0 (Z.to_nat ((b - a + step - 1) / step))).

(** [sorted(s)] of a set of integers. *)
Definition sorted (s : gset Z) : list Z := sort_by (fun h => h) (elements s).

(** The heights [cmd_init_history] samples for a tip. *)
Definition sample_heights (tip_height : Z) : list Z :=
  let recent_start := tip_height - RECENT_HOURS * BLOCKS_PER_HOUR in
  let hourly_start := tip_height - HOURLY_DAYS * BLOCKS_PER_DAY in
  let heights : gset Z := ∅ in
  let heights :=
    heights ∪ list_to_set (range_step (Z.max 0 recent_start) (tip_height + 1) SAMPLE_RECENT) in
  let heights :=
    heights ∪ list_to_set (range_step (Z.max 0 hourly_start) recent_start SAMPLE_HOURLY) in
  let heights := heights ∪ list_to_set (range_step 0 hourly_start SAMPLE_DAILY) in
  let heights := heights ∪ {[ tip_height ]} in
  sorted heights.

(** [l[i: j]] for [0 <= i <= j]. *)
Definition slice {A} (l : list A) (i j : Z) : list A :=
  take (Z.to_nat (j - i)) (drop (Z.to_nat i) l).

(** The slices [heights[i: i + batch_size]] for [i] in
    [range(0, len(heights), batch_size)]. *)
Definition height_batches (heights : list Z) (batch_size : Z) : list (list Z) :=
  map (fun i => slice heights i (i + batch_size))
    (range_step 0 (Z.of_nat (length heights)) batch_size).

Section InitialImport.

Context (env : Env).

(** [for i in range(0, total, batch_size)]: each batch is fetched by its own
    worker pool and its rows appended to [rows_all]. *)
Fixpoint fetch_batches (bs : list (list Z)) (rows_all : list Header) : M (list Header) :=
  match bs with
  | [] => ret rows_all
  | batch_heights :: rest =>
      rows <- fetch_headers_batch env batch_heights 8 ;;
      fetch_batches rest (rows_all ++ rows)
  end.

Definition cmd_init_history : M unit :=
  tip <- grin_rpc env "get_tip" JNull 3 ;;
  if negb (truthy tip) then raise (SystemExit 1)
  else
    tip_height <- lift (and_then (getitem tip "height") (py_int env)) ;;
    now <- now_ts env ;;
    let heights := sample_heights tip_height in
    rows_all <- fetch_batches (height_batches heights 20) [] ;;
    let rows_all := sort_by header_height rows_all in
    let rows_with_hr := calc_hashrate rows_all in
    execute (with_blocks (fun _ => ∅)) ;;
    to_insert <- with_buckets env rows_with_hr ;;
    execute (insert_blocks to_insert) ;;
    set_meta "last_height" tip_height ;;
    now' <- now_ts env ;;
    set_meta "last_updated" now' ;;
    _fetch_block_stats_range env (tip_height - 90 * BLOCKS_PER_DAY) tip_height 4 ;;
    _update_peers env ;;
    export_all_json env.

(** [init_schema] creates the tables that are missing; the store of the
    model always has its five tables. *)
Definition cmd_init_db : M unit := ret tt.

(** The flags [argparse] hands to [main]. *)
Record Args : Type := mkArgs {
  init_db : bool;
  init_history : bool;
  update : bool;
  peers_only : bool
}.

Definition main (args : Args) : M unit :=
  if init_db args then cmd_init_db
  else if init_history args then cmd_init_history
  else if peers_only args then _update_peers env ;; export_all_json env
  else cmd_update env.

End InitialImport.

(** ** Further definitions of the proofs *)

(** [a] comes no later than [b] in the order of [key]. *)
Definition by_key {A} (key : A -> Z) (a b : A) : Prop := key a <= key b.

(** The number of occurrences of [x] in [l]. *)
Definition occurrences (x : string) (l : list string) : Z :=
  Z.of_nat (length (List.filter (String.eqb x) l)).

(** The characters of [s] avoid [c]. *)
Definition avoids (c : ascii) (s : string) : Prop :=
  Forall (fun d => d <> c) (list_ascii_of_string s).

(** The count a counter holds for [x] (0 when [x] is no key of it). *)
Fixpoint counted (x : string) (c : list (string * Z)) : Z :=
  match c with
  | [] => 0
  | (k, n) :: rest => if String.eqb k x then n else counted x rest
  end.

(** The height is one the initial import samples for [tip]: the tip, a
    height of the last 1440, one in 60 of the 41760 before them, or a
    multiple of 1440 below. *)
Definition sampled (tip h : Z) : Prop :=
  h = tip \/
  (0 <= h /\ tip - 1440 <= h <= tip) \/
  (tip - 43200 <= h < tip - 1440 /\ 0 <= h /\ (h - Z.max 0 (tip - 43200)) mod 60 = 0) \/
  (0 <= h < tip - 43200 /\ h mod 1440 = 0).

(** The tables other than [known_peers] and [peer_snapshots] are the same. *)
Definition same_chain_data (d d' : DB) : Prop :=
  blocks d' = blocks d /\ block_stats d' = block_stats d /\ meta d' = meta d.

(** The interaction is a JSON-RPC request for [method]. *)
Definition is_rpc_to (method : string) (ev : Event) : bool :=
  match ev with
  | EvUrlopen (RpcRequest _ m _ _) => String.eqb m method
  | _ => false
  end.

(** The kernel carries the feature [Coinbase]. *)
Definition is_coinbase (k : json) : bool :=
  match get k "features" JNull with
  | Ok f => is_str f "Coinbase"
  | Raise _ => false
  end.

(** The fee of a kernel, as [fetch_full_block] reads it; 0 where the
    reading raises. *)
Definition kernel_fee (env : Env) (k : json) : Z :=
  match and_then (get k "fee" (JInt 0)) (py_int env) with
  | Ok fee => fee
  | Raise _ => 0
  end.

(** A mainnet node that gives [answer method params] to a JSON-RPC request;
    nothing listens on the peer-discovery ports, the geolocation service is
    out of reach; the clock shows [now k] at the interaction number [k]. *)
Definition node_env (now : nat -> Z) (answer : string -> json -> Outcome) : Env :=
  mkEnv "http://127.0.0.1:3413/v2/foreign" "" "http://127.0.0.1:3413/v2/owner"
    "http://127.0.0.1:13413/v2/owner" ""
    now
    (fun _ req =>
       match req with
       | RpcRequest _ method params _ => answer method params
       | GeoRequest _ => NetError
       end)
    (fun _ _ => false)
    strptime_strict
    (fun _ => None)
    (fun _ => "").

(** The body of a successful JSON-RPC response. *)
Definition rpc_ok (result : json) : Outcome :=
  Body (JObj [("jsonrpc", JStr "2.0"); ("result", JObj [("Ok", result)])]).

(** Whatever world [m] starts from, the world it ends in satisfies [Q]. *)
Definition ensures {A} (Q : World -> Prop) (m : M A) : Prop :=
  forall w, Q (snd (m w)).

(** The batches of IPs that the interactions [evs] sent for geolocation. *)
Fixpoint geo_requests (evs : list Event) : list (list string) :=
  match evs with
  | [] => []
  | EvUrlopen (GeoRequest ips) :: rest => ips :: geo_requests rest
  | _ :: rest => geo_requests rest
  end.

(** The number of HTTP requests among the interactions [evs]. *)
Definition requests_made (evs : list Event) : nat :=
  length (List.filter (fun ev => match ev with EvUrlopen _ => true | _ => false end) evs).

(** A request for the chain: the tip, a header or a full block. *)
Definition is_chain_request (ev : Event) : bool :=
  is_rpc_to "get_tip" ev || is_block_fetch ev.

(** The count of an entry of the [versions] list of versions.json (0 for
    anything else). *)
Definition listed_count (entry : json) : Z :=
  match entry with
  | JObj kv => match assoc "count" kv with Some (JInt n) => n | _ => 0 end
  | _ => 0
  end.

(** The location [geo] is what an entry of a geolocation response says
    about [ip]: the entry is marked [success], its [query] is [ip], and its
    fields (or their defaults) are those of [geo]. *)
Definition located_by (g : json) (ip : string) (geo : Geo) : Prop :=
  (exists status, get g "status" JNull = Ok status /\ is_str status "success" = true) /\
  getitem g "query" = Ok (JStr ip) /\
  get g "lat" (JInt 0) = Ok (g_lat geo) /\
  get g "lon" (JInt 0) = Ok (g_lng geo) /\
  get g "country" (JStr "") = Ok (g_country geo) /\
  get g "countryCode" (JStr "") = Ok (g_country_code geo) /\
  get g "city" (JStr "") = Ok (g_city geo).

(** The interaction asks for no header but of a height in [Ph] and for no
    block but of a height in [Pb]. *)
Definition asks_within (Ph Pb : Z -> Prop) (ev : Event) : Prop :=
  match ev with
  | EvUrlopen (RpcRequest _ method params _) =>
      (method = "get_header" -> exists h, Ph h /\ params = by_height_params h) /\
      (method = "get_block" -> exists h, Pb h /\ params = by_height_params h)
  | _ => True
  end.

(** The entry [g] is an item of a response the geolocation service gave to
    a request made at an interaction numbered from [lo] up to, but not
    including, [hi]. *)
Definition in_geo_response (env : Env) (lo hi : nat) (g : json) : Prop :=
  exists (k : nat) (batch : list string) (data : json) (items : list json),
    (lo <= k < hi)%nat /\
    urlopen env k (GeoRequest batch) = Body data /\
    iter data = Ok items /\
    g ∈ items.

(** No node runs; the geolocation service gives [answer ips] to a request
    for [ips]; the clock shows [now]. *)
Definition geo_env (now : Z) (answer : list string -> Outcome) : Env :=
  mkEnv "http://127.0.0.1:3413/v2/foreign" "" "http://127.0.0.1:3413/v2/owner"
    "http://127.0.0.1:13413/v2/owner" ""
    (fun _ => now)
    (fun _ req =>
       match req with
       | RpcRequest _ _ _ _ => NetError
       | GeoRequest ips => answer ips
       end)
    (fun _ _ => false)
    strptime_strict
    (fun _ => None)
    (fun _ => "").

(** The tier of a stored row after the two re-labellings of an update, in
    the words of the specification: a recent row with timestamp before
    [cutoff_recent] becomes hourly, and then an hourly row with timestamp
    before [cutoff_hourly] becomes daily. *)
Definition spec_tier_after (cutoff_recent cutoff_hourly : Z) (r : BlockRow) : Bucket :=
  let after_first :=
    match b_bucket r with
    | Recent => if b_timestamp r <? cutoff_recent then Hourly else Recent
    | Hourly => Hourly
    | Daily => Daily
    end in
  match after_first with
  | Recent => Recent
  | Hourly => if b_timestamp r <? cutoff_hourly then Daily else Hourly
  | Daily => Daily
  end.
(* ====================================================================== *)
(** * Part II: properties                                                  *)
(* ====================================================================== *)

(** ** The hashrate estimator *)



Lemma fold_step_rate_after (rows pre suf : list Header) (out : list Rated)
    (p : Header) (phr : Q) :
  rows = pre ++ p :: suf ->
  last out = Some (p, phr) ->
  fold_left (calc_hashrate_step rows) (enumerate_from (S (length pre)) suf) out
  = out ++ rate_after p phr suf.
Proof.
  revert pre out p phr.
  induction suf as [|r suf IH]; intros pre out p phr Hrows Hlast.
  - simpl. by rewrite app_nil_r.
  - cbn [enumerate_from fold_left].
    assert (Hstep : calc_hashrate_step rows out (S (length pre), r)
                    = out ++ [(r, next_hashrate p phr r)]).
    { unfold calc_hashrate_step, next_hashrate.
      destruct r as [[h ts] diff]. simpl Nat.eqb. cbv iota.
      replace (S (length pre) - 1)%nat with (length pre) by lia.
      rewrite Hrows, list_lookup_middle by done. simpl default.
      destruct p as [[ph pts] pdiff]. rewrite Hlast. reflexivity. }
    rewrite Hstep.
    specialize (IH (pre ++ [p]) (out ++ [(r, next_hashrate p phr r)]) r
                   (next_hashrate p phr r)).
    rewrite length_app in IH. simpl in IH.
    replace (length pre + 1)%nat with (S (length pre)) in IH by lia.
    rewrite IH.
    + by rewrite <- app_assoc.
    + rewrite Hrows, <- app_assoc. reflexivity.
    + by rewrite last_snoc.
Qed.

Lemma calc_hashrate_cons (r : Header) (rows : list Header) :
  calc_hashrate (r :: rows) = (r, 0%Q) :: rate_after r 0%Q rows.
Proof.
  unfold calc_hashrate, enumerate. cbn [enumerate_from fold_left].
  assert (Hfirst : calc_hashrate_step (r :: rows) [] (0%nat, r) = [(r, 0%Q)]).
  { destruct r as [[h ts] diff]. reflexivity. }
  rewrite Hfirst.
  by apply (fold_step_rate_after (r :: rows) [] rows [(r, 0%Q)] r 0%Q).
Qed.

Lemma calc_hashrate_nil : calc_hashrate [] = [].
Proof. reflexivity. Qed.

Lemma true_div_nonneg (a b : Z) : 0 < a -> 0 < b -> (0 <= true_div a b)%Q.
Proof.
  intros Ha Hb. unfold true_div. rewrite Qred_correct.
  apply Qle_shift_div_l.
  - replace 0%Q with (inject_Z 0) by reflexivity. rewrite <- Zlt_Qlt. lia.
  - rewrite Qmult_0_l. replace 0%Q with (inject_Z 0) by reflexivity.
    rewrite <- Zle_Qle. lia.
Qed.

Lemma next_hashrate_nonneg p phr r : (0 <= phr)%Q -> (0 <= next_hashrate p phr r)%Q.
Proof.
  intros Hp. destruct p as [[ph pts] pdiff], r as [[h ts] diff].
  unfold next_hashrate.
  destruct (0 <? ts - pts) eqn:E1; destruct (0 <? diff - pdiff) eqn:E2; simpl; try done.
  apply true_div_nonneg; lia.
Qed.

Lemma rate_after_length p phr rows : length (rate_after p phr rows) = length rows.
Proof. revert p phr; induction rows as [|r rows IH]; intros; simpl; [done|by rewrite IH]. Qed.

Lemma rate_after_lookup_header p phr rows i x :
  rate_after p phr rows !! i = Some x -> rows !! i = Some (rated_header x).
Proof.
  revert p phr i; induction rows as [|r rows IH]; intros p phr i; simpl; [done|].
  destruct i as [|i]; simpl.
  - intros [= <-]. done.
  - apply IH.
Qed.

Lemma rate_after_nonneg p phr rows x :
  (0 <= phr)%Q -> x ∈ rate_after p phr rows -> (0 <= rated_hashrate x)%Q.
Proof.
  revert p phr; induction rows as [|r rows IH]; intros p phr Hp; simpl.
  - by intros ?%elem_of_nil.
  - intros [->|Hin]%elem_of_cons.
    + by apply next_hashrate_nonneg.
    + eapply IH; [|done]. by apply next_hashrate_nonneg.
Qed.

(** Consecutive outputs are linked by [next_hashrate]. *)
Lemma rate_after_step p phr rows i a b :
  ((p, phr) :: rate_after p phr rows) !! i = Some a ->
  rate_after p phr rows !! i = Some b ->
  rated_hashrate b = next_hashrate (rated_header a) (rated_hashrate a) (rated_header b).
Proof.
  revert p phr i a b; induction rows as [|r rows IH]; intros p phr i a b; simpl; [done|].
  destruct i as [|i]; simpl.
  - intros [= <-] [= <-]. done.
  - apply IH.
Qed.

(** C1. For every input sequence (height-ascending or not) the estimator
    returns one rated row per input row, in order and with the row's height,
    timestamp and cumulative difficulty; the first row is rated exactly 0; a
    later row is rated (difficulty delta) / (timestamp delta) when both deltas
    to its predecessor are strictly positive, and gets its predecessor's
    computed rate otherwise; every rate is non-negative. *)
Theorem C1_calc_hashrate_spec (rows : list Header) :
  let out := calc_hashrate rows in
  length out = length rows /\
  (forall r, rows !! 0%nat = Some r -> out !! 0%nat = Some (r, 0%Q)) /\
  (forall i r, rows !! i = Some r ->
     exists hr, out !! i = Some (r, hr) /\ (0 <= hr)%Q) /\
  (forall i ph pts pdiff phr h ts diff hr,
     out !! i = Some (ph, pts, pdiff, phr) ->
     out !! S i = Some (h, ts, diff, hr) ->
     (0 < ts - pts /\ 0 < diff - pdiff ->
        hr = true_div (diff - pdiff) (ts - pts)) /\
     (~ (0 < ts - pts /\ 0 < diff - pdiff) -> hr = phr)).
Proof.
  destruct rows as [|r0 rows]; cbn zeta.
  { rewrite calc_hashrate_nil. repeat split; done. }
  rewrite calc_hashrate_cons. split; [|split; [|split]].
  - simpl. by rewrite rate_after_length.
  - intros r [= <-]. done.
  - intros [|i] r; simpl.
    + intros [= <-]. exists 0%Q. split; [done|]. apply Qle_refl.
    + intros Hr.
      destruct (rate_after r0 0 rows !! i) as [[r' hr]|] eqn:E.
      * pose proof (rate_after_lookup_header _ _ _ _ _ E) as Hh.
        simpl in Hh. rewrite Hr in Hh. injection Hh as ->.
        exists hr. split; [done|].
        apply (rate_after_nonneg r0 0%Q rows (r', hr)); [apply Qle_refl|].
        by eapply list_elem_of_lookup_2.
      * apply lookup_ge_None in E. rewrite rate_after_length in E.
        apply lookup_lt_Some in Hr. lia.
  - intros i ph pts pdiff phr h ts diff hr Hp Hc.
    pose proof (rate_after_step _ _ _ _ _ _ Hp Hc) as Hs. simpl in Hs.
    rewrite Hs.
    destruct (Z.ltb_spec 0 (ts - pts)); destruct (Z.ltb_spec 0 (diff - pdiff));
      simpl; split; intros; try done; lia.
Qed.

Example calc_hashrate_two_blocks :
  calc_hashrate [(1, 1000, 500); (2, 1060, 560)]
  = [(1, 1000, 500, 0%Q); (2, 1060, 560, 1%Q)].
Proof. reflexivity. Qed.

(** ** The monad *)

Lemma push_nil w : push [] w = w.
Proof. destruct w. unfold push. simpl. by rewrite app_nil_r. Qed.

Lemma push_push evs1 evs2 w : push evs2 (push evs1 w) = push (evs1 ++ evs2) w.
Proof. unfold push. simpl. by rewrite app_assoc. Qed.

Lemma int_time_run env w :
  int_time env w = (Ok (clock env (length (trace w))), push [EvClock] w).
Proof. reflexivity. Qed.

Lemma urlopen_json_run env req w :
  urlopen_json env req w =
  (match urlopen env (length (trace w)) req with
   | NetError => Raise OSError
   | NotJson => Raise ValueError
   | Body data => Ok data
   end, push [EvUrlopen req] w).
Proof.
  unfold urlopen_json, bind, steps, emit, ret, raise, push. simpl.
  by destruct (urlopen env (length (trace w)) req).
Qed.

(** ** The bucket classifier *)

Lemma assign_bucket_run env ts w :
  assign_bucket env ts w
  = (Ok (bucket_of_age (clock env (length (trace w)) - ts)), push [EvClock] w).
Proof.
  unfold assign_bucket, now_ts, bind. rewrite int_time_run.
  unfold bucket_of_age, RECENT_HOURS, HOURLY_DAYS.
  destruct (_ <? 24 * 3600); [done|]. by destruct (_ <? 30 * 86400).
Qed.

(** C4. The classifier reads the clock once and changes neither the store
    nor the files; its result is a function of age = now - timestamp alone:
    recent exactly when age < 24h, hourly exactly when 24h <= age < 30d,
    daily exactly when age >= 30d. *)
Theorem C4_assign_bucket_by_age (env : Env) (ts : Z) (w : World) :
  let now := clock env (length (trace w)) in
  let age := now - ts in
  let b := bucket_of_age age in
  assign_bucket env ts w = (Ok b, push [EvClock] w) /\
  (b = Recent <-> age < 24 * 3600) /\
  (b = Hourly <-> 24 * 3600 <= age < 30 * 86400) /\
  (b = Daily <-> 30 * 86400 <= age).
Proof.
  cbn zeta. split; [apply assign_bucket_run|].
  unfold bucket_of_age.
  destruct (Z.ltb_spec (clock env (length (trace w)) - ts) (24 * 3600));
    [|destruct (Z.ltb_spec (clock env (length (trace w)) - ts) (30 * 86400))];
    repeat split; intros; try done; try lia.
Qed.

(** ** The timestamp parser *)

Lemma parse_ts_run env ts_str w :
  parse_ts env ts_str w =
  match ts_str with
  | JStr s =>
      match strptime env (split_head "." s) with
      | Some t => (Ok t, w)
      | None => (Ok (clock env (length (trace w))), push [EvClock] w)
      end
  | _ => (Ok (clock env (length (trace w))), push [EvClock] w)
  end.
Proof.
  unfold parse_ts, try_except.
  destruct ts_str; try reflexivity.
  by destruct (strptime env _).
Qed.

(** C9. The parser returns a timestamp for every input and never raises.
    When the text before the first dot is not accepted by [strptime], the
    result is the reading of the clock; a point recorded with that timestamp
    is classified recent whenever it is classified less than 24h of clock
    time later. *)
Theorem C9_parse_ts_total (env : Env) (s : string) (w : World) :
  (exists t, fst (parse_ts env (JStr s) w) = Ok t) /\
  (strptime env (split_head "." s) = None ->
   fst (parse_ts env (JStr s) w) = Ok (clock env (length (trace w))) /\
   forall w2 : World,
     clock env (length (trace w2)) - clock env (length (trace w)) < 24 * 3600 ->
     fst (assign_bucket env (clock env (length (trace w))) w2) = Ok Recent).
Proof.
  rewrite parse_ts_run. split.
  - destruct (strptime env _); eauto.
  - intros ->. split; [done|]. intros w2 Hage.
    rewrite assign_bucket_run. simpl. unfold bucket_of_age.
    by destruct (Z.ltb_spec (clock env (length (trace w2)) - clock env (length (trace w)))
                   (24 * 3600)); [|lia].
Qed.

(** ** The JSON-RPC helper *)

Lemma rpc_attempt_run env req w :
  rpc_attempt env req w =
  (match urlopen env (length (trace w)) req with
   | NetError => Raise OSError
   | NotJson => Raise ValueError
   | Body data => rpc_result env data
   end, push [EvUrlopen req] w).
Proof.
  unfold rpc_attempt, bind. rewrite urlopen_json_run.
  by destruct (urlopen env (length (trace w)) req).
Qed.

Lemma rpc_result_not_OSError env data e :
  rpc_result env data = Raise e -> is_OSError e = false.
Proof.
  unfold rpc_result, and_then, get.
  destruct data; try (intros [= <-]; done).
  destruct (default _ _); try done.
  destruct (assoc "Err" _); [|done]. by intros [= <-].
Qed.

(** Restates the index of an oracle call made two interactions later. *)
Ltac shift_index w j :=
  match goal with
  | |- urlopen _ ?n _ = _ =>
      replace n with (length (trace w) + 2 * j)%nat
        by (simpl; rewrite ?length_app; simpl; lia)
  end.

(** After [k] transport failures, a response ends the loop. *)
Lemma rpc_loop_response env req retries k : forall attempt remaining w data,
  (k < remaining)%nat ->
  (attempt + remaining = retries)%nat ->
  (forall i, (i < k)%nat -> urlopen env (length (trace w) + 2 * i) req = NetError) ->
  urlopen env (length (trace w) + 2 * k) req = Body data ->
  rpc_loop env req retries attempt remaining w
  = (rpc_result env data, push (backoff req attempt k ++ [EvUrlopen req]) w).
Proof.
  induction k as [|k IH]; intros attempt remaining w data Hk Hsum Hfail Hbody.
  - destruct remaining as [|rest]; [lia|]. simpl.
    unfold try_except. rewrite rpc_attempt_run.
    replace (length (trace w) + 2 * 0)%nat with (length (trace w)) in Hbody by lia.
    rewrite Hbody.
    destruct (rpc_result env data) as [v|e] eqn:E; [done|].
    by rewrite (rpc_result_not_OSError _ _ _ E).
  - destruct remaining as [|rest]; [lia|]. simpl.
    unfold try_except. rewrite rpc_attempt_run.
    pose proof (Hfail 0%nat ltac:(lia)) as H0.
    replace (length (trace w) + 2 * 0)%nat with (length (trace w)) in H0 by lia.
    rewrite H0. simpl is_OSError. cbv iota.
    destruct (Nat.eqb_spec attempt (retries - 1)); [lia|].
    unfold bind at 1. unfold sleep, emit. simpl.
    rewrite (IH (S attempt) rest _ data); simpl; try lia.
    + unfold push. simpl. f_equal. f_equal.
      rewrite <- !app_assoc. reflexivity.
    + intros i Hi. shift_index w (S i). apply Hfail. lia.
    + shift_index w (S k). done.
Qed.

(** When every remaining attempt fails, the last failure is raised, with
    no sleep after it. *)
Lemma rpc_loop_exhausted env req retries : forall remaining attempt w,
  (0 < remaining)%nat ->
  (attempt + remaining = retries)%nat ->
  (forall i, (i < remaining)%nat -> urlopen env (length (trace w) + 2 * i) req = NetError) ->
  rpc_loop env req retries attempt remaining w
  = (Raise OSError, push (backoff req attempt (remaining - 1) ++ [EvUrlopen req]) w).
Proof.
  induction remaining as [|rest IH]; intros attempt w Hpos Hsum Hfail; [lia|].
  simpl. unfold try_except. rewrite rpc_attempt_run.
  pose proof (Hfail 0%nat ltac:(lia)) as H0.
  replace (length (trace w) + 2 * 0)%nat with (length (trace w)) in H0 by lia.
  rewrite H0. simpl is_OSError. cbv iota.
  destruct (Nat.eqb_spec attempt (retries - 1)) as [Heq|Hne].
  - assert (rest = 0%nat) as -> by lia. reflexivity.
  - destruct rest as [|rest']; [lia|].
    unfold bind at 1. unfold sleep, emit. simpl trace.
    rewrite IH; try lia.
    + unfold push. simpl. f_equal. f_equal.
      rewrite Nat.sub_0_r, <- !app_assoc. reflexivity.
    + intros i Hi. shift_index w (S i). apply Hfail. lia.
Qed.

(** C8. With the default bound of 3 attempts: (a) when all three attempts
    fail in transport, the helper sleeps 1s after the first and 2s after the
    second, and raises the third failure; (b) a response after k < 3
    failures ends the loop at once, with no further request or sleep, and
    its outcome is that of the response; (c) the outcome of a response whose
    result carries [Err] is a [RuntimeError]. *)
Theorem C8_rpc_retry_policy (env : Env) (url method : string) (params : json)
    (secret : string) (w : World) :
  let req := rpc_request url method params secret in
  let n0 := length (trace w) in
  ((forall i, (i < 3)%nat -> urlopen env (n0 + 2 * i) req = NetError) ->
   _rpc env url method params secret 3 w
   = (Raise OSError,
      push [EvUrlopen req; EvSleep 1; EvUrlopen req; EvSleep 2; EvUrlopen req] w)) /\
  (forall (k : nat) (data : json),
     (k < 3)%nat ->
     (forall i, (i < k)%nat -> urlopen env (n0 + 2 * i) req = NetError) ->
     urlopen env (n0 + 2 * k) req = Body data ->
     _rpc env url method params secret 3 w
     = (rpc_result env data, push (backoff req 0 k ++ [EvUrlopen req]) w)) /\
  (forall (data : json) (kv : list (string * json)) (err : json),
     get data "result" (JObj []) = Ok (JObj kv) ->
     assoc "Err" kv = Some err ->
     rpc_result env data = Raise (RuntimeError ("Grin API Err: " ++ py_str env err))).
Proof.
  cbn zeta. split; [|split].
  - intros Hfail. unfold _rpc.
    rewrite rpc_loop_exhausted; [reflexivity|lia|lia|done].
  - intros k data Hk Hfail Hbody. unfold _rpc.
    by apply rpc_loop_response.
  - intros data kv err Hres Herr. unfold rpc_result.
    rewrite Hres. simpl. by rewrite Herr.
Qed.

(** ** Incremental hashrate *)

Lemma rate_after_app p phr a b :
  rate_after p phr (a ++ b)
  = rate_after p phr a ++
    match last (rate_after p phr a) with
    | Some q => rate_after (rated_header q) (rated_hashrate q) b
    | None => rate_after p phr b
    end.
Proof.
  revert p phr; induction a as [|r a IH]; intros p phr; simpl; [done|].
  rewrite IH. f_equal. f_equal.
  rewrite last_cons. by destruct (last (rate_after r (next_hashrate p phr r) a)).
Qed.

(** What the incremental path computes: the new rows are rated from the
    stored row at [last_height], whose own rate restarts at 0. *)
Lemma append_hashrate_seeded new_rows last_height w seed :
  new_rows <> [] ->
  select_block last_height (db w) = Some seed ->
  _append_hashrate new_rows last_height w = (Ok (rate_after seed 0%Q new_rows), w).
Proof.
  intros Hne Hsel. unfold _append_hashrate.
  destruct new_rows as [|r rest]; [done|].
  unfold bind, query, ret. rewrite Hsel.
  change ([seed] ++ r :: rest) with (seed :: r :: rest).
  by rewrite calc_hashrate_cons.
Qed.

(** What one run over the whole history computes for the new rows: they are
    rated from the last row of the history and its computed rate. *)
Lemma full_run_suffix (history new_rows : list Header) seed phr :
  last (calc_hashrate history) = Some (seed, phr) ->
  drop (length history) (calc_hashrate (history ++ new_rows))
  = rate_after seed phr new_rows.
Proof.
  destruct history as [|r0 history]; [done|].
  rewrite <- app_comm_cons, !calc_hashrate_cons, rate_after_app.
  intros Hlast. simpl length. simpl drop.
  rewrite drop_app_length' by (symmetry; apply rate_after_length).
  rewrite last_cons in Hlast.
  destruct (last (rate_after r0 0 history)) as [q|]; by simplify_eq/=.
Qed.

(** The two agree as soon as the first new row has strictly positive
    deltas to the stored row. *)
Lemma rate_after_first_positive seed phr1 phr2 r rest :
  0 < snd (fst r) - snd (fst seed) ->
  0 < snd r - snd seed ->
  rate_after seed phr1 (r :: rest) = rate_after seed phr2 (r :: rest).
Proof.
  destruct seed as [[ph pts] pdiff], r as [[h ts] diff]. simpl. intros Hdt Hdd.
  unfold next_hashrate.
  destruct (Z.ltb_spec 0 (ts - pts)); [|lia].
  destruct (Z.ltb_spec 0 (diff - pdiff)); [|lia]. done.
Qed.

(** Hence the incremental path agrees with one run over the whole history
    whenever the first new row has strictly positive deltas to the stored
    row at [last_height]. *)
Lemma append_hashrate_agrees history r rest last_height w seed phr :
  last (calc_hashrate history) = Some (seed, phr) ->
  select_block last_height (db w) = Some seed ->
  0 < snd (fst r) - snd (fst seed) ->
  0 < snd r - snd seed ->
  fst (_append_hashrate (r :: rest) last_height w)
  = Ok (drop (length history) (calc_hashrate (history ++ r :: rest))).
Proof.
  intros Hlast Hsel Hdt Hdd.
  rewrite (append_hashrate_seeded (r :: rest) last_height w seed) by done.
  rewrite (full_run_suffix history (r :: rest) seed phr Hlast). simpl fst.
  f_equal. by apply rate_after_first_positive.
Qed.

(** C2 fails on the code.  History: heights 0 and 1 at timestamps 1000 and
    1060 with difficulties 500 and 560, so the rate persisted at
    last_height = 1 is 1.  New row: height 2 with the same timestamp 1060
    (timestamp delta 0).  One run over the three rows carries the rate 1
    forward to height 2; the incremental path rates height 2 at 0. *)
Theorem C2_append_hashrate_restarts_at_zero :
  let history := [(0, 1000, 500); (1, 1060, 560)] in
  let new_rows := [(2, 1060, 600)] in
  let stored :=
    blocks_only (map (fun r : Rated =>
                        let '(h, ts, diff, hr) := r in (h, mkBlock ts diff hr Recent))
                     (calc_hashrate history)) in
  let w := mkWorld stored ∅ [] in
  b_hashrate <$> blocks stored !! 1 = Some 1%Q /\
  fst (_append_hashrate new_rows 1 w) = Ok [(2, 1060, 600, 0%Q)] /\
  drop (length history) (calc_hashrate (history ++ new_rows)) = [(2, 1060, 600, 1%Q)].
Proof. cbn zeta. split; [|split]; vm_compute; reflexivity. Qed.

(** ** The exporter *)

Lemma write_json_run filename data w :
  _write_json filename data w
  = (Ok tt, mkWorld (db w) (write_file filename data (files w))
                    (trace w ++ [EvWrite filename])).
Proof. reflexivity. Qed.

Lemma write_file_lookup f d fs x :
  write_file f d fs !! x
  = if decide (x = f) then Some d
    else if decide (x = (f ++ ".tmp")%string) then None
    else fs !! x.
Proof.
  unfold write_file. repeat case_decide; subst.
  - by rewrite lookup_insert_eq.
  - rewrite lookup_insert_ne by done. by rewrite lookup_delete_eq.
  - rewrite lookup_insert_ne, lookup_delete_ne, lookup_insert_ne by done. done.
Qed.

Lemma max_sampled_at_nil d : peer_snapshots d = [] -> published_snapshot d = None.
Proof. unfold published_snapshot, max_sampled_at. by intros ->. Qed.

Lemma published_snapshot_nonempty d t :
  published_snapshot d = Some t -> peer_snapshots d <> [].
Proof. unfold published_snapshot, max_sampled_at. by destruct (peer_snapshots d). Qed.

(** The export in closed form. *)
Lemma export_all_json_run env w :
  export_all_json env w
  = (Ok tt,
     mkWorld (db w)
       (export_files (clock env (length (trace w))) (db w) (files w))
       (trace w ++ export_events (db w))).
Proof.
  destruct w as [d fs tr].
  unfold export_all_json, now_ts, int_time, bind, steps, emit, query, ret, _write_json.
  unfold export_files, export_events, published_snapshot, write_file. simpl.
  destruct (max_sampled_at d) as [t|]; [destruct (t =? 0)|];
    simpl; rewrite <- ?app_assoc; reflexivity.
Qed.

Ltac lookup_files :=
  unfold export_files;
  repeat (rewrite write_file_lookup; repeat case_decide; simplify_eq/=; try done).

(** C10. An export writes versions.json only when the snapshot table has a
    row.  When the table is empty, versions.json is not written and whatever
    was at that name stays, while hashrate.json, difficulty.json,
    transactions.json, fees.json and summary.json are written in that run
    with the documents computed from the store at the run's clock reading. *)
Theorem C10_versions_only_with_snapshots (env : Env) (w : World) :
  let w' := snd (export_all_json env w) in
  let now := clock env (length (trace w)) in
  let written := drop (length (trace w)) (trace w') in
  ((EvWrite "versions.json" ∈ written) -> peer_snapshots (db w) <> []) /\
  (peer_snapshots (db w) = [] ->
   (EvWrite "versions.json" ∉ written) /\
   files w' !! "versions.json" = files w !! "versions.json" /\
   written = [EvClock; EvWrite "hashrate.json"; EvWrite "difficulty.json";
              EvWrite "transactions.json"; EvWrite "fees.json";
              EvWrite "summary.json"] /\
   files w' !! "hashrate.json" = Some (metric_doc col_hashrate now (db w)) /\
   files w' !! "difficulty.json" = Some (metric_doc col_total_diff now (db w)) /\
   files w' !! "transactions.json" = Some (txfee_doc s_tx_count now (db w)) /\
   files w' !! "fees.json" = Some (txfee_doc s_fee_total now (db w)) /\
   files w' !! "summary.json" = Some (summary_doc now (db w))).
Proof.
  cbn zeta. rewrite export_all_json_run. simpl snd. simpl trace. simpl files.
  rewrite drop_app_length. split.
  - unfold export_events.
    destruct (published_snapshot (db w)) as [t|] eqn:E.
    + intros _. by eapply published_snapshot_nonempty.
    + intros Hin. exfalso. simpl in Hin.
      repeat (apply elem_of_cons in Hin as [Hin|Hin]; [discriminate Hin|]).
      by apply elem_of_nil in Hin.
  - intros Hnil. apply max_sampled_at_nil in Hnil.
    unfold export_events, export_files. rewrite Hnil. simpl.
    split; [|split; [|split; [done|]]].
    + intros Hin.
      repeat (apply elem_of_cons in Hin as [Hin|Hin]; [discriminate Hin|]).
      by apply elem_of_nil in Hin.
    + lookup_files.
    + repeat split; lookup_files.
Qed.

(** ** Which exceptions a computation can raise *)

Lemma catchable_ret {A} (a : A) : catchable (ret a).
Proof. intros w e. discriminate. Qed.

Lemma catchable_raise {A} e : is_Exception e = true -> catchable (@raise A e).
Proof. intros He w e'. simpl. by intros [= <-]. Qed.

Lemma catchable_lift {A} (x : Exc A) : catchable_pure x -> catchable (lift x).
Proof. intros Hx w e. simpl. apply Hx. Qed.

Lemma catchable_bind {A B} (m : M A) (k : A -> M B) :
  catchable m -> (forall a, catchable (k a)) -> catchable (bind m k).
Proof.
  intros Hm Hk w e. unfold bind.
  destruct (m w) as [[a|e'] w'] eqn:E.
  - apply Hk.
  - simpl. intros [= <-]. apply (Hm w). by rewrite E.
Qed.

Lemma catchable_try {A} (body : M A) catches handler :
  catchable body -> (forall e, catchable (handler e)) ->
  catchable (try_except body catches handler).
Proof.
  intros Hb Hh w e. unfold try_except.
  destruct (body w) as [[a|e'] w'] eqn:E; [done|].
  destruct (catches e').
  - apply Hh.
  - simpl. intros [= <-]. apply (Hb w). by rewrite E.
Qed.

Lemma total_catchable {A} (m : M A) : total m -> catchable m.
Proof. intros Hm w e He. destruct (Hm w) as [a Ha]. congruence. Qed.

Lemma total_ret {A} (a : A) : total (ret a).
Proof. intros w. by exists a. Qed.

Lemma total_bind {A B} (m : M A) (k : A -> M B) :
  total m -> (forall a, total (k a)) -> total (bind m k).
Proof.
  intros Hm Hk w. unfold bind.
  destruct (Hm w) as [a Ha]. destruct (m w) as [r w']. simpl in Ha. subst r.
  apply Hk.
Qed.

(** [try: ... except Exception: ...] with a handler that cannot fail. *)
Lemma total_try {A} (body : M A) handler :
  catchable body -> (forall e, total (handler e)) ->
  total (try_except body is_Exception handler).
Proof.
  intros Hb Hh w. unfold try_except.
  destruct (body w) as [[a|e] w'] eqn:E; [by exists a|].
  pose proof (Hb w e) as He. rewrite E in He. rewrite (He eq_refl).
  apply Hh.
Qed.

Lemma total_steps : total steps.
Proof. intros w. by eexists. Qed.
Lemma total_emit ev : total (emit ev).
Proof. intros w. by eexists. Qed.
Lemma total_query {A} (q : DB -> A) : total (query q).
Proof. intros w. by eexists. Qed.
Lemma total_execute stmt : total (execute stmt).
Proof. intros w. by eexists. Qed.
Lemma total_write_json f d : total (_write_json f d).
Proof. intros w. by eexists. Qed.

Lemma catchable_and_then {A B} (x : Exc A) (k : A -> Exc B) :
  catchable_pure x -> (forall a, catchable_pure (k a)) -> catchable_pure (and_then x k).
Proof.
  intros Hx Hk e. destruct x as [a|e0]; simpl; [apply (Hk a e)|].
  intros [= <-]. by apply (Hx e0).
Qed.

Lemma catchable_get d k dflt : catchable_pure (get d k dflt).
Proof. intros e. destruct d; simpl; by intros [= <-]. Qed.

Lemma catchable_getitem d k : catchable_pure (getitem d k).
Proof.
  intros e. destruct d; simpl; try by intros [= <-].
  destruct (assoc k members); by intros [= <-].
Qed.

Lemma catchable_py_int env x : catchable_pure (py_int env x).
Proof.
  intros e. destruct x; simpl; try by intros [= <-].
  destruct (int_of_str env s); by intros [= <-].
Qed.

Lemma catchable_iter j : catchable_pure (iter j).
Proof. intros e. destruct j; simpl; by intros [= <-]. Qed.

Lemma catchable_len j : catchable_pure (len j).
Proof. intros e. destruct j; simpl; by intros [= <-]. Qed.

Lemma catchable_rpc_result env data : catchable_pure (rpc_result env data).
Proof.
  unfold rpc_result. apply catchable_and_then; [apply catchable_get|].
  intros result e. destruct result; try done.
  destruct (assoc "Err" members); [|done]. by intros [= <-].
Qed.

Lemma catchable_tx_kernels_of ks : catchable_pure (tx_kernels_of ks).
Proof.
  induction ks as [|k ks IH]; [done|]. simpl.
  apply catchable_and_then; [apply catchable_get|]. intros f.
  apply catchable_and_then; [done|]. by intros ks'.
Qed.

Lemma catchable_fees_of env ks : forall acc, catchable_pure (fees_of env ks acc).
Proof.
  induction ks as [|k ks IH]; intros acc; [done|]. simpl.
  apply catchable_and_then; [|by intros].
  apply catchable_and_then; [apply catchable_get|]. intros. apply catchable_py_int.
Qed.

Lemma total_int_time env : total (int_time env).
Proof. intros w. by eexists. Qed.

Lemma catchable_urlopen_json env req : catchable (urlopen_json env req).
Proof.
  intros w e. rewrite urlopen_json_run. simpl.
  destruct (urlopen env _ req); by intros [= <-].
Qed.

Lemma catchable_rpc_attempt env req : catchable (rpc_attempt env req).
Proof.
  apply catchable_bind; [apply catchable_urlopen_json|].
  intros data. apply catchable_lift, catchable_rpc_result.
Qed.

Lemma catchable_rpc_loop env req retries : forall remaining attempt,
  catchable (rpc_loop env req retries attempt remaining).
Proof.
  induction remaining as [|rest IH]; intros attempt; simpl; [apply catchable_ret|].
  intros w e. unfold try_except.
  pose proof (catchable_rpc_attempt env req w) as Ha.
  destruct (rpc_attempt env req w) as [[a|e'] w'] eqn:E; [done|].
  destruct (is_OSError e') eqn:Eos.
  - destruct (Nat.eqb attempt (retries - 1)).
    + simpl. intros [= <-]. by destruct e'.
    + apply catchable_bind; [apply total_catchable, total_emit|]. intros _. apply IH.
  - simpl. intros [= <-]. by apply Ha.
Qed.

Lemma catchable_rpc env url method params secret retries :
  catchable (_rpc env url method params secret retries).
Proof. apply catchable_rpc_loop. Qed.

Lemma total_parse_ts env ts_str : total (parse_ts env ts_str).
Proof. intros w. rewrite parse_ts_run. destruct ts_str; eauto. destruct (strptime _ _); eauto. Qed.

Create HintDb effects.

#[local] Hint Resolve catchable_ret catchable_lift catchable_and_then catchable_get
  catchable_getitem catchable_py_int catchable_iter catchable_len catchable_rpc
  catchable_tx_kernels_of catchable_fees_of total_ret total_steps total_emit total_query
  total_execute total_write_json total_int_time total_parse_ts : effects.

Ltac effects_step :=
  lazymatch goal with
  | |- catchable (bind _ _) => apply catchable_bind; [|intros ?]
  | |- catchable (if ?b then _ else _) => destruct b
  | |- total (bind _ _) => apply total_bind; [|intros ?]
  | |- total (if ?b then _ else _) => destruct b
  | |- total (try_except _ is_Exception _) => apply total_try; [|intros ?]
  | |- catchable _ => first [ solve [eauto with effects]
                            | apply total_catchable; solve [eauto with effects] ]
  | |- total _ => solve [eauto with effects]
  end.
Ltac effects := repeat effects_step.

Lemma total_fetch_header env height : total (fetch_header env height).
Proof.
  unfold fetch_header, grin_rpc. effects.
Qed.

Lemma total_fetch_full_block env height : total (fetch_full_block env height).
Proof.
  unfold fetch_full_block, grin_rpc. effects.
Qed.

Lemma total_run_tasks {A} (task : Z -> M (option A)) heights :
  (forall h, total (task h)) -> total (run_tasks task heights).
Proof.
  intros Ht. induction heights as [|h rest IH]; simpl; effects; auto.
Qed.

Lemma total_fetch_headers_batch env heights workers :
  total (fetch_headers_batch env heights workers).
Proof.
  unfold fetch_headers_batch. effects.
  apply total_run_tasks, total_fetch_header.
Qed.

(** ** What a computation leaves unchanged *)

Section Frames.

Context (okev : Event -> Prop) (okdb : DB -> DB -> Prop).
Context (okdb_refl : forall d, okdb d d).
Context (okdb_trans : forall a b c, okdb a b -> okdb b c -> okdb a c).

Lemma extends_refl w : extends okev okdb w w.
Proof. split; [done|]. exists []. by rewrite app_nil_r. Qed.

Lemma extends_trans w1 w2 w3 :
  extends okev okdb w1 w2 -> extends okev okdb w2 w3 -> extends okev okdb w1 w3.
Proof.
  intros [Hd1 (evs1 & Ht1 & Hok1)] [Hd2 (evs2 & Ht2 & Hok2)]. split; [eauto|].
  exists (evs1 ++ evs2). split.
  - by rewrite Ht2, Ht1, app_assoc.
  - by apply Forall_app.
Qed.

Lemma frame_ret {A} (a : A) : frame okev okdb (ret a).
Proof. intros w. apply extends_refl. Qed.

Lemma frame_raise {A} e : frame okev okdb (@raise A e).
Proof. intros w. apply extends_refl. Qed.

Lemma frame_lift {A} (x : Exc A) : frame okev okdb (lift x).
Proof. intros w. apply extends_refl. Qed.

Lemma frame_steps : frame okev okdb steps.
Proof. intros w. apply extends_refl. Qed.

Lemma frame_query {A} (q : DB -> A) : frame okev okdb (query q).
Proof. intros w. apply extends_refl. Qed.

Lemma frame_bind {A B} (m : M A) (k : A -> M B) :
  frame okev okdb m -> (forall a, frame okev okdb (k a)) -> frame okev okdb (bind m k).
Proof.
  intros Hm Hk w. unfold bind. specialize (Hm w).
  destruct (m w) as [[a|e] w']; simpl in *; [|done].
  eapply extends_trans; [done|]. apply Hk.
Qed.

Lemma frame_try {A} (body : M A) catches handler :
  frame okev okdb body -> (forall e, frame okev okdb (handler e)) ->
  frame okev okdb (try_except body catches handler).
Proof.
  intros Hb Hh w. unfold try_except. specialize (Hb w).
  destruct (body w) as [[a|e] w']; simpl in *; [done|].
  destruct (catches e); [|done].
  eapply extends_trans; [done|]. apply Hh.
Qed.

Lemma frame_emit ev : okev ev -> frame okev okdb (emit ev).
Proof.
  intros Hev w. split; [done|]. exists [ev]. split; [done|]. by apply Forall_singleton.
Qed.

Lemma frame_execute stmt : (forall d, okdb d (stmt d)) -> frame okev okdb (execute stmt).
Proof. intros Hs w. split; [apply Hs|]. exists []. by rewrite app_nil_r. Qed.

Lemma frame_write_json f d : okev (EvWrite f) -> frame okev okdb (_write_json f d).
Proof.
  intros Hev w. split; [done|]. exists [EvWrite f]. split; [done|].
  by apply Forall_singleton.
Qed.

Hypothesis ok_clock : okev EvClock.
Hypothesis ok_sleep : forall q, okev (EvSleep q).
Hypothesis ok_connect : forall p, okev (EvConnect p).
Hypothesis ok_write : forall f, okev (EvWrite f).
Hypothesis ok_geo : forall ips, okev (EvUrlopen (GeoRequest ips)).

Lemma frame_int_time env : frame okev okdb (int_time env).
Proof.
  unfold int_time. apply frame_bind; [apply frame_steps|]. intros k.
  apply frame_bind; [by apply frame_emit|]. intros _. apply frame_ret.
Qed.

Lemma frame_sleep q : frame okev okdb (sleep q).
Proof. by apply frame_emit. Qed.

Lemma frame_urlopen_json env req :
  okev (EvUrlopen req) -> frame okev okdb (urlopen_json env req).
Proof.
  intros Hreq. unfold urlopen_json.
  apply frame_bind; [apply frame_steps|]. intros k.
  apply frame_bind; [by apply frame_emit|]. intros _.
  destruct (urlopen env k req); [apply frame_raise|apply frame_raise|apply frame_ret].
Qed.

Lemma frame_rpc_loop env req retries :
  okev (EvUrlopen req) ->
  forall remaining attempt, frame okev okdb (rpc_loop env req retries attempt remaining).
Proof.
  intros Hreq. induction remaining as [|rest IH]; intros attempt; simpl.
  - apply frame_ret.
  - apply frame_try.
    + apply frame_bind; [by apply frame_urlopen_json|]. intros. apply frame_lift.
    + intros e. destruct (Nat.eqb attempt (retries - 1)); [apply frame_raise|].
      apply frame_bind; [apply frame_sleep|]. intros _. apply IH.
Qed.

Lemma frame_rpc env url method params secret retries :
  (forall auth, okev (EvUrlopen (RpcRequest url method params auth))) ->
  frame okev okdb (_rpc env url method params secret retries).
Proof. intros H. apply frame_rpc_loop. apply H. Qed.

Lemma frame_parse_ts env ts_str : frame okev okdb (parse_ts env ts_str).
Proof.
  unfold parse_ts. apply frame_try.
  - destruct ts_str; try apply frame_raise.
    destruct (strptime env _); [apply frame_ret|apply frame_raise].
  - intros _. apply frame_int_time.
Qed.

Lemma frame_assign_bucket env ts : frame okev okdb (assign_bucket env ts).
Proof. intros w. rewrite assign_bucket_run. apply (frame_emit EvClock ok_clock w). Qed.

Lemma frame_run_tasks {A} (task : Z -> M (option A)) heights :
  (forall h, frame okev okdb (task h)) -> frame okev okdb (run_tasks task heights).
Proof.
  intros Ht. induction heights as [|h rest IH]; simpl; [apply frame_ret|].
  apply frame_bind; [apply Ht|]. intros row.
  apply frame_bind; [apply IH|]. intros rows. apply frame_ret.
Qed.

Ltac frame_step :=
  lazymatch goal with
  | |- frame _ _ (bind _ _) => apply frame_bind; [|intros ?]
  | |- frame _ _ (ret _) => apply frame_ret
  | |- frame _ _ (raise _) => apply frame_raise
  | |- frame _ _ (lift _) => apply frame_lift
  | |- frame _ _ (query _) => apply frame_query
  | |- frame _ _ steps => apply frame_steps
  | |- frame _ _ (sleep _) => apply frame_sleep
  | |- frame _ _ (int_time _) => apply frame_int_time
  | |- frame _ _ (now_ts _) => apply frame_int_time
  | |- frame _ _ (parse_ts _ _) => apply frame_parse_ts
  | |- frame _ _ (assign_bucket _ _) => apply frame_assign_bucket
  | |- frame _ _ (_write_json _ _) => apply frame_write_json; apply ok_write
  | |- frame _ _ (try_except _ _ _) => apply frame_try; [|intros ?]
  | |- frame _ _ (if ?b then _ else _) => destruct b
  | |- frame _ _ (match ?x with _ => _ end) => destruct x
  end.
Ltac frames := repeat frame_step.

Context (ok_method : string -> Prop).
Hypothesis ok_rpc : forall url method params auth,
  ok_method method -> okev (EvUrlopen (RpcRequest url method params auth)).

Lemma frame_named_rpc env url method params secret retries :
  ok_method method -> frame okev okdb (_rpc env url method params secret retries).
Proof. intros Hm. apply frame_rpc. intros auth. by apply ok_rpc. Qed.

Lemma frame_grin_rpc env method params retries :
  ok_method method -> frame okev okdb (grin_rpc env method params retries).
Proof. apply frame_named_rpc. Qed.

(** *** Fetching *)

Lemma frame_fetch_header env height :
  ok_method "get_header" -> frame okev okdb (fetch_header env height).
Proof.
  intros Hm. unfold fetch_header.
  apply frame_try; [|intros; apply frame_ret].
  apply frame_bind; [by apply frame_grin_rpc|]. intros data. frames.
Qed.

Lemma frame_fetch_headers_batch env heights workers :
  ok_method "get_header" -> frame okev okdb (fetch_headers_batch env heights workers).
Proof.
  intros Hm. unfold fetch_headers_batch.
  apply frame_bind; [|intros; apply frame_ret].
  apply frame_run_tasks. intros h. by apply frame_fetch_header.
Qed.

Lemma frame_fetch_full_block env height :
  ok_method "get_block" -> frame okev okdb (fetch_full_block env height).
Proof.
  intros Hm. unfold fetch_full_block.
  apply frame_try; [|intros; apply frame_ret].
  apply frame_bind; [by apply frame_grin_rpc|]. intros data. frames.
Qed.

Lemma frame_fetch_block_stats_range env start stop workers :
  ok_method "get_block" ->
  (forall f d, okdb d (with_block_stats f d)) ->
  frame okev okdb (_fetch_block_stats_range env start stop workers).
Proof.
  intros Hm Hst. unfold _fetch_block_stats_range.
  destruct (range _ _) as [|h hs]; [apply frame_ret|].
  apply frame_bind.
  - apply frame_run_tasks. intros h'. by apply frame_fetch_full_block.
  - intros batch. destruct batch; [apply frame_ret|]. apply frame_execute.
    intros d. apply Hst.
Qed.

Lemma frame_with_buckets env rows : frame okev okdb (with_buckets env rows).
Proof.
  induction rows as [|[[[h ts] diff] hr] rest IH]; simpl; [apply frame_ret|].
  apply frame_bind; [apply frame_assign_bucket|]. intros b.
  apply frame_bind; [apply IH|]. intros rs. apply frame_ret.
Qed.

(** *** Peers *)

Lemma frame_try_owner_api env owner_url secret network_label :
  ok_method "get_peers" ->
  frame okev okdb (try_owner_api env owner_url secret network_label).
Proof.
  intros Hm. unfold try_owner_api.
  apply frame_try; [|intros; apply frame_ret].
  apply frame_bind; [by apply frame_named_rpc|]. intros raw.
  destruct (truthy raw); [|apply frame_ret].
  destruct (iter raw); [|apply frame_ret].
  destruct (collect_peers _ _ _) as [pl [e|]]; apply frame_ret.
Qed.

Lemma frame_try_foreign_api env owner_url network_label peer_list :
  ok_method "get_connected_peers" ->
  frame okev okdb (try_foreign_api env owner_url network_label peer_list).
Proof.
  intros Hm. unfold try_foreign_api.
  apply frame_try; [|intros; apply frame_ret].
  apply frame_bind; [by apply frame_named_rpc|]. intros raw. frames.
Qed.

Lemma frame_fetch_all_peers env owner_url secret network_label :
  ok_method "get_peers" -> ok_method "get_connected_peers" ->
  frame okev okdb (_fetch_all_peers_from_node env owner_url secret network_label).
Proof.
  intros Hm1 Hm2. unfold _fetch_all_peers_from_node.
  apply frame_bind; [by apply frame_try_owner_api|].
  intros [pl|pl]; [apply frame_ret|by apply frame_try_foreign_api].
Qed.

Lemma frame_is_node_running env port : frame okev okdb (_is_node_running env port).
Proof.
  unfold _is_node_running.
  apply frame_bind; [apply frame_steps|]. intros k.
  apply frame_bind; [apply frame_emit, ok_connect|]. intros _. apply frame_ret.
Qed.

Lemma frame_discover_peers env :
  ok_method "get_peers" -> ok_method "get_connected_peers" ->
  frame okev okdb (discover_peers env).
Proof.
  intros Hm1 Hm2. unfold discover_peers.
  apply frame_bind; [apply frame_is_node_running|]. intros up1.
  apply frame_bind; [destruct up1; [by apply frame_fetch_all_peers|apply frame_ret]|].
  intros mainnet_peers.
  apply frame_bind; [apply frame_is_node_running|]. intros up2.
  apply frame_bind; [destruct up2; [by apply frame_fetch_all_peers|apply frame_ret]|].
  intros testnet_peers. apply frame_ret.
Qed.

Lemma frame_geo_batch env batch geo_map : frame okev okdb (geo_batch env batch geo_map).
Proof.
  unfold geo_batch. apply frame_bind.
  - apply frame_try; [|intros; apply frame_ret].
    apply frame_bind; [apply frame_urlopen_json, ok_geo|]. intros. apply frame_ret.
  - intros [geo_results|]; [|apply frame_ret].
    destruct (iter geo_results); [|apply frame_ret].
    destruct (collect_geo _ _) as [m [e|]]; frames.
Qed.

Lemma frame_geolocate_batches env bs : forall geo_map,
  frame okev okdb (geolocate_batches env bs geo_map).
Proof.
  induction bs as [|b rest IH]; intros geo_map; simpl; [apply frame_ret|].
  apply frame_bind; [apply frame_geo_batch|]. intros m. apply IH.
Qed.

Lemma frame_geolocate env all_peers : frame okev okdb (geolocate env all_peers).
Proof. apply frame_geolocate_batches. Qed.

Lemma frame_write_peers_json env peers mc tc :
  frame okev okdb (_write_peers_json env peers mc tc).
Proof. unfold _write_peers_json. frames. Qed.

Lemma frame_update_peers env :
  ok_method "get_peers" -> ok_method "get_connected_peers" ->
  (forall f d, okdb d (with_known_peers f d)) ->
  (forall f d, okdb d (with_peer_snapshots f d)) ->
  frame okev okdb (_update_peers env).
Proof.
  intros Hm1 Hm2 Hkp Hsn. unfold _update_peers.
  apply frame_bind; [by apply frame_discover_peers|]. intros all_peers.
  destruct all_peers as [|p rest]; [apply frame_write_peers_json|].
  apply frame_bind; [apply frame_geolocate|]. intros geo_map.
  apply frame_bind; [apply frame_int_time|]. intros ts.
  apply frame_bind; [apply frame_execute; intros; apply Hkp|]. intros _.
  apply frame_bind; [apply frame_execute; intros; apply Hkp|]. intros _.
  apply frame_bind.
  - destruct (Counter _); [apply frame_ret|].
    apply frame_bind; [apply frame_execute; intros; apply Hsn|]. intros _.
    apply frame_execute; intros; apply Hsn.
  - intros _. apply frame_bind; [apply frame_query|]. intros rows.
    apply frame_write_peers_json.
Qed.

Lemma frame_export_all_json env : frame okev okdb (export_all_json env).
Proof.
  intros w. rewrite export_all_json_run. split; [done|].
  eexists. split; [done|]. unfold export_events.
  destruct (published_snapshot (db w)); repeat constructor; auto.
Qed.

End Frames.

(** ** Computations that always return *)

Lemma append_hashrate_run new_rows last_height w :
  exists rated, _append_hashrate new_rows last_height w = (Ok rated, w).
Proof. unfold _append_hashrate. destruct new_rows; eexists; reflexivity. Qed.

Lemma total_assign_bucket env ts : total (assign_bucket env ts).
Proof. intros w. rewrite assign_bucket_run. by eexists. Qed.

Lemma total_with_buckets env rows : total (with_buckets env rows).
Proof.
  induction rows as [|[[[h ts] diff] hr] rest IH]; simpl; [apply total_ret|].
  apply total_bind; [apply total_assign_bucket|]. intros b.
  apply total_bind; [apply IH|]. intros rs. apply total_ret.
Qed.

Lemma total_fetch_block_stats_range env start stop workers :
  total (_fetch_block_stats_range env start stop workers).
Proof.
  unfold _fetch_block_stats_range.
  destruct (range _ _); [apply total_ret|].
  apply total_bind; [apply total_run_tasks, total_fetch_full_block|].
  intros batch. destruct batch; effects.
Qed.

Lemma total_try_owner_api env owner_url secret network_label :
  total (try_owner_api env owner_url secret network_label).
Proof.
  unfold try_owner_api. apply total_try; [|intros; apply total_ret].
  apply catchable_bind; [apply catchable_rpc|]. intros raw.
  destruct (truthy raw); [|apply catchable_ret].
  destruct (iter raw); [|apply catchable_ret].
  destruct (collect_peers _ _ _) as [pl [e|]]; apply catchable_ret.
Qed.

Lemma total_try_foreign_api env owner_url network_label peer_list :
  total (try_foreign_api env owner_url network_label peer_list).
Proof.
  unfold try_foreign_api. apply total_try; [|intros; apply total_ret].
  apply catchable_bind; [apply catchable_rpc|]. intros raw.
  destruct (truthy raw); [|apply catchable_ret].
  destruct (iter raw); apply catchable_ret.
Qed.

Lemma total_fetch_all_peers env owner_url secret network_label :
  total (_fetch_all_peers_from_node env owner_url secret network_label).
Proof.
  unfold _fetch_all_peers_from_node.
  apply total_bind; [apply total_try_owner_api|].
  intros [pl|pl]; [apply total_ret|apply total_try_foreign_api].
Qed.

Lemma total_is_node_running env port : total (_is_node_running env port).
Proof. intros w. by eexists. Qed.

Lemma total_discover_peers env : total (discover_peers env).
Proof.
  unfold discover_peers.
  apply total_bind; [apply total_is_node_running|]. intros up1.
  apply total_bind; [destruct up1; [apply total_fetch_all_peers|apply total_ret]|].
  intros mainnet_peers.
  apply total_bind; [apply total_is_node_running|]. intros up2.
  apply total_bind; [destruct up2; [apply total_fetch_all_peers|apply total_ret]|].
  intros testnet_peers. apply total_ret.
Qed.

Lemma total_geo_batch env batch geo_map : total (geo_batch env batch geo_map).
Proof.
  unfold geo_batch. apply total_bind.
  - apply total_try; [|intros; apply total_ret].
    apply catchable_bind; [apply catchable_urlopen_json|]. intros. apply catchable_ret.
  - intros [geo_results|]; [|apply total_ret].
    destruct (iter geo_results); [|apply total_ret].
    destruct (collect_geo _ _) as [m [e|]]; [apply total_ret|].
    apply total_bind; [apply total_emit|]. intros. apply total_ret.
Qed.

Lemma total_geolocate_batches env bs : forall geo_map,
  total (geolocate_batches env bs geo_map).
Proof.
  induction bs as [|b rest IH]; intros geo_map; simpl; [apply total_ret|].
  apply total_bind; [apply total_geo_batch|]. intros m. apply IH.
Qed.

Lemma total_write_peers_json env peers mc tc : total (_write_peers_json env peers mc tc).
Proof.
  unfold _write_peers_json, now_ts.
  apply total_bind; [apply total_int_time|]. intros. apply total_write_json.
Qed.

Lemma total_update_peers env : total (_update_peers env).
Proof.
  unfold _update_peers.
  apply total_bind; [apply total_discover_peers|]. intros all_peers.
  destruct all_peers as [|p rest]; [apply total_write_peers_json|].
  apply total_bind; [apply total_geolocate_batches|]. intros geo_map.
  apply total_bind; [apply total_int_time|]. intros ts.
  apply total_bind; [apply total_execute|]. intros _.
  apply total_bind; [apply total_execute|]. intros _.
  apply total_bind.
  - destruct (Counter _); [apply total_ret|].
    apply total_bind; [apply total_execute|]. intros _. apply total_execute.
  - intros _. apply total_bind; [apply total_query|]. intros rows.
    apply total_write_peers_json.
Qed.

Lemma total_export_all_json env : total (export_all_json env).
Proof. intros w. rewrite export_all_json_run. by eexists. Qed.

(** Running a computation that always returns. *)
Lemma total_run {A} (m : M A) w : total m -> exists a, m w = (Ok a, snd (m w)).
Proof. intros Hm. destruct (Hm w) as [a Ha]. exists a. destruct (m w). simpl in *. by subst. Qed.

(** ** The incremental update *)

Lemma bind_run {A B} (m : M A) (k : A -> M B) w a w1 :
  m w = (Ok a, w1) -> bind m k w = k a w1.
Proof. intros H. unfold bind. by rewrite H. Qed.

Lemma extends_eq_db w w' : extends (fun _ => True) eq w w' -> db w' = db w.
Proof. by intros [-> _]. Qed.

Lemma extends_length okev okdb w w' :
  extends okev okdb w w' -> (length (trace w) <= length (trace w'))%nat.
Proof. intros [_ (evs & -> & _)]. rewrite length_app. lia. Qed.

Lemma rebucket_row_data from to cutoff r :
  b_timestamp (rebucket_row from to cutoff r) = b_timestamp r /\
  b_total_diff (rebucket_row from to cutoff r) = b_total_diff r /\
  b_hashrate (rebucket_row from to cutoff r) = b_hashrate r.
Proof. unfold rebucket_row. by destruct (_ && _). Qed.

Lemma same_blocks_refl d : same_blocks d d.
Proof. done. Qed.

Lemma same_blocks_trans a b c : same_blocks a b -> same_blocks b c -> same_blocks a c.
Proof. unfold same_blocks. congruence. Qed.

(** The part of [cmd_update] after the block phase never fails, touches no
    block row and fetches no block. *)
Lemma peers_and_export env w :
  let m := bind (_update_peers env) (fun _ => export_all_json env) in
  m w = (Ok tt, snd (m w)) /\
  extends (fun ev => is_block_fetch ev = false) same_blocks w (snd (m w)).
Proof.
  cbn zeta. split.
  - destruct (total_run (bind (_update_peers env) (fun _ => export_all_json env)) w)
      as [[] H]; [|done].
    apply total_bind; [apply total_update_peers|]. intros. apply total_export_all_json.
  - apply (frame_bind (fun ev => is_block_fetch ev = false) same_blocks).
    + apply same_blocks_trans.
    + apply frame_update_peers
        with (ok_method := fun m => m <> "get_header" /\ m <> "get_block");
        try done; try apply same_blocks_trans.
      intros url method params auth [H1 H2]. simpl.
      apply orb_false_intro; by apply String.eqb_neq.
    + intros _. by apply frame_export_all_json.
Qed.

Lemma lookup_insert_rows_notin rows (b : gmap Z BlockRow) h :
  h ∉ map fst rows -> insert_rows rows b !! h = b !! h.
Proof.
  unfold insert_rows. revert b. induction rows as [|[h' r] rows IH]; intros b Hn; [done|].
  simpl in *. apply not_elem_of_cons in Hn as [Hne Hn].
  rewrite IH by done. by rewrite lookup_insert_ne.
Qed.

Ltac side_conditions :=
  first [ done | congruence | apply same_blocks_refl | apply same_blocks_trans | idtac ].

Lemma fetch_headers_batch_reads env heights workers w :
  extends (fun _ => True) eq w (snd (fetch_headers_batch env heights workers w)).
Proof.
  apply frame_fetch_headers_batch with (ok_method := fun _ => True); side_conditions.
Qed.

Lemma with_buckets_reads env rated w :
  extends (fun _ => True) eq w (snd (with_buckets env rated w)).
Proof. apply frame_with_buckets; side_conditions. Qed.

Lemma fetch_block_stats_range_blocks env start stop workers w :
  extends (fun _ => True) same_blocks w (snd (_fetch_block_stats_range env start stop workers w)).
Proof.
  apply frame_fetch_block_stats_range with (ok_method := fun _ => True); side_conditions.
Qed.

(** The block phase of a run that finds the tip ahead. *)
Lemma ingest_run env last_height tip_height w1 :
  let block_phase :=
    (rows <- fetch_headers_batch env (range (last_height + 1) (tip_height + 1)) 4 ;;
     let rows := sort_by header_height rows in
     rows_with_hr <- _append_hashrate rows last_height ;;
     to_insert <- with_buckets env rows_with_hr ;;
     execute (insert_blocks to_insert) ;;
     now1 <- now_ts env ;;
     execute (rebucket Recent Hourly (now1 - RECENT_HOURS * 3600)) ;;
     now2 <- now_ts env ;;
     execute (rebucket Hourly Daily (now2 - HOURLY_DAYS * 86400)) ;;
     set_meta "last_height" tip_height ;;
     now3 <- now_ts env ;;
     set_meta "last_updated" now3 ;;
     _fetch_block_stats_range env (last_height + 1) tip_height 4)%M in
  exists (to_insert : list (Z * BlockRow)) (k1 : nat),
    (length (trace w1) <= k1)%nat /\
    block_phase w1 = (Ok tt, snd (block_phase w1)) /\
    blocks (db (snd (block_phase w1)))
    = migrate (clock env k1 - 24 * 3600) (clock env (S k1) - 30 * 86400)
        <$> insert_rows to_insert (blocks (db w1)).
Proof.
  cbn zeta.
  (* fetch the headers *)
  destruct (total_run _ w1 (total_fetch_headers_batch env
              (range (last_height + 1) (tip_height + 1)) 4)) as [rows Hrows].
  pose proof (fetch_headers_batch_reads env
                (range (last_height + 1) (tip_height + 1)) 4 w1) as Hw2.
  set (w2 := snd (fetch_headers_batch env _ 4 w1)) in *.
  rewrite (bind_run _ _ _ _ _ Hrows).
  (* rate them *)
  destruct (append_hashrate_run (sort_by header_height rows) last_height w2)
    as [rated Hrated].
  rewrite (bind_run _ _ _ _ _ Hrated).
  (* bucket them *)
  destruct (total_run _ w2 (total_with_buckets env rated)) as [to_insert Hins].
  pose proof (with_buckets_reads env rated w2) as Hw3.
  set (w3 := snd (with_buckets env rated w2)) in *.
  rewrite (bind_run _ _ _ _ _ Hins).
  exists to_insert, (length (trace w3)).
  split.
  { apply extends_length in Hw2, Hw3. lia. }
  (* the statements *)
  set (w5 := mkWorld
               (with_meta (insert "last_updated" (clock env (S (S (length (trace w3))))))
                  (with_meta (insert "last_height" tip_height)
                     (rebucket Hourly Daily
                        (clock env (S (length (trace w3))) - HOURLY_DAYS * 86400)
                        (rebucket Recent Hourly
                           (clock env (length (trace w3)) - RECENT_HOURS * 3600)
                           (insert_blocks to_insert (db w3))))))
               (files w3) (trace w3 ++ [EvClock; EvClock; EvClock])).
  assert (Hstmts : forall (k : M unit),
    (execute (insert_blocks to_insert) ;;
     now1 <- now_ts env ;;
     execute (rebucket Recent Hourly (now1 - RECENT_HOURS * 3600)) ;;
     now2 <- now_ts env ;;
     execute (rebucket Hourly Daily (now2 - HOURLY_DAYS * 86400)) ;;
     set_meta "last_height" tip_height ;;
     now3 <- now_ts env ;;
     set_meta "last_updated" now3 ;; k)%M w3 = k w5).
  { intros k. unfold bind, execute, now_ts, int_time, bind, steps, emit, ret, set_meta,
      execute. simpl. rewrite !length_app. simpl.
    replace (length (trace w3) + 1)%nat with (S (length (trace w3))) by lia.
    replace (S (length (trace w3)) + 1)%nat with (S (S (length (trace w3)))) by lia.
    rewrite <- !app_assoc. reflexivity. }
  rewrite Hstmts.
  destruct (total_run _ w5 (total_fetch_block_stats_range env (last_height + 1) tip_height 4))
    as [[] Hst].
  split; [done|].
  pose proof (fetch_block_stats_range_blocks env (last_height + 1) tip_height 4 w5)
    as [Hb _].
  rewrite Hb. unfold w5. simpl.
  rewrite (extends_eq_db _ _ Hw3), (extends_eq_db _ _ Hw2).
  unfold migrate, insert_rows, RECENT_HOURS, HOURLY_DAYS.
  by rewrite <- map_fmap_compose.
Qed.

(** C3 as stated fails: the tip equals last_height = 5, the stored row at
    height 5 has timestamp 0 and tier recent, and the clock shows 200000 (so
    the row is older than 24h); after the update the row is still recent. *)
Lemma C3_no_migration_without_new_blocks :
  let env := tip_only_env 5 200000 in
  let w := one_block_world 5 (mkBlock 0 100 0 Recent) in
  let w' := snd (cmd_update env w) in
  fst (cmd_update env w) = Ok tt /\
  24 * 3600 <= clock env (length (trace w')) - 0 /\
  b_bucket <$> blocks (db w') !! 5 = Some Recent /\
  b_bucket <$> blocks (db w') !! 5 <> Some Hourly.
Proof. vm_compute. repeat split; discriminate. Qed.

(** ** Export twice *)

Lemma export_files_other ts d fs f :
  f ∉ export_names ++ export_tmp_names -> export_files ts d fs !! f = fs !! f.
Proof.
  intros Hf. unfold export_names, export_tmp_names in Hf. simpl in Hf.
  repeat (apply not_elem_of_cons in Hf as [? Hf]).
  unfold export_files. destruct (published_snapshot d);
    rewrite !write_file_lookup; repeat case_decide; done.
Qed.

Lemma export_files_idem ts d fs :
  export_files ts d (export_files ts d fs) = export_files ts d fs.
Proof.
  apply map_eq. intros x. unfold export_files.
  destruct (published_snapshot d);
    rewrite !write_file_lookup; repeat case_decide; done.
Qed.

(** C5, as the code has it.  An export changes nothing in the store, and no
    file other than its six outputs and their temporary names.  A second
    export over the unchanged store leaves every file as the first one wrote
    it whenever both runs read the same clock second. *)
Theorem C5_export_same_clock_same_files (env : Env) (w : World) :
  let w1 := snd (export_all_json env w) in
  let w2 := snd (export_all_json env w1) in
  db w1 = db w /\ db w2 = db w /\
  (forall f, f ∉ export_names ++ export_tmp_names -> files w1 !! f = files w !! f) /\
  (clock env (length (trace w1)) = clock env (length (trace w)) -> files w2 = files w1).
Proof.
  cbn zeta. rewrite !export_all_json_run. simpl.
  split; [done|]. split; [done|]. split.
  - intros f. apply export_files_other.
  - intros ->. apply export_files_idem.
Qed.

(** C5 as stated fails: over an unchanged (empty) store, with a clock that
    advances between the two runs, the second export writes a summary.json
    that differs from the first one's (in its "updated" member). *)
Lemma C5_export_differs_when_clock_advances :
  let w1 := snd (export_all_json ticking_env empty_world) in
  let w2 := snd (export_all_json ticking_env w1) in
  db w1 = db empty_world /\ db w2 = db empty_world /\
  files w1 !! "summary.json"
  = Some (JObj [("updated", JInt 0); ("tip_height", JInt 0); ("avg_block_time", JInt 0);
                ("current_hashrate", JInt 0); ("current_difficulty", JInt 0)]) /\
  files w2 !! "summary.json"
  = Some (JObj [("updated", JInt 6); ("tip_height", JInt 0); ("avg_block_time", JInt 0);
                ("current_hashrate", JInt 0); ("current_difficulty", JInt 0)]) /\
  files w2 !! "summary.json" <> files w1 !! "summary.json".
Proof. vm_compute. repeat split; discriminate. Qed.

(** ** Peer discovery *)

Lemma and_then_Ok {A B} (x : Exc A) (k : A -> Exc B) b :
  and_then x k = Ok b -> exists a, x = Ok a /\ k a = Ok b.
Proof. destruct x; simpl; [eauto|discriminate]. Qed.

Lemma peer_record_ok env label ip port p x :
  peer_record env label ip port p = Ok x -> p_ip x = ip /\ p_network x = label.
Proof.
  unfold peer_record.
  intros (ua & _ & (dir & _ & [= <-])%and_then_Ok)%and_then_Ok. done.
Qed.

Lemma owner_entry_ok env label e p :
  owner_entry env label e = Ok (Some p) ->
  p_network p = label /\ owner_ip_ok (p_ip p) = true /\
  exists flags, get e "flags" (JStr "") = Ok flags /\
                contains "Banned" (py_str env flags) = false.
Proof.
  unfold owner_entry. intros (flags & Hflags & H)%and_then_Ok.
  destruct (contains "Banned" (py_str env flags)) eqn:Hb; [discriminate|].
  apply and_then_Ok in H as (addr & _ & H).
  destruct (owner_ip_ok (addr_ip addr)) eqn:Hip; [|discriminate].
  apply and_then_Ok in H as (x & Hx & [= ->]).
  apply peer_record_ok in Hx as [-> ->]. eauto.
Qed.

Lemma foreign_entry_ok env label e p :
  foreign_entry env label e = Ok (Some p) ->
  p_network p = label /\ foreign_ip_ok (p_ip p) = true.
Proof.
  unfold foreign_entry. intros (addr & _ & H)%and_then_Ok.
  destruct (foreign_ip_ok (addr_ip addr)) eqn:Hip; [|discriminate].
  apply and_then_Ok in H as (x & Hx & [= ->]).
  by apply peer_record_ok in Hx as [-> ->].
Qed.

Lemma owner_ip_ok_spec ip :
  owner_ip_ok ip = true <->
  ip <> "" /\ startswith ip "127." = false /\ startswith ip "::1" = false /\
  startswith ip "10." = false /\ startswith ip "192.168." = false.
Proof.
  unfold owner_ip_ok. rewrite !andb_true_iff, !negb_true_iff, String.eqb_neq. tauto.
Qed.

Lemma foreign_ip_ok_spec ip :
  foreign_ip_ok ip = true <->
  ip <> "" /\ startswith ip "127." = false /\ startswith ip "::1" = false.
Proof.
  unfold foreign_ip_ok. rewrite !andb_true_iff, !negb_true_iff, String.eqb_neq. tauto.
Qed.

Lemma owner_ip_ok_foreign ip : owner_ip_ok ip = true -> foreign_ip_ok ip = true.
Proof. rewrite owner_ip_ok_spec, foreign_ip_ok_spec. tauto. Qed.

(** Whatever the loop appends comes from an entry it accepted. *)
Lemma collect_peers_elem entry raw : forall acc p,
  p ∈ fst (collect_peers entry raw acc) ->
  p ∈ acc \/ exists e, e ∈ raw /\ entry e = Ok (Some p).
Proof.
  induction raw as [|e raw IH]; intros acc p; simpl; [by left|].
  destruct (entry e) as [[x|]|err] eqn:E; simpl.
  - intros [[Hin|Hin%list_elem_of_singleton]%elem_of_app|(e' & He' & Hp)]%IH.
    + by left.
    + subst x. right. exists e. split; [left|done].
    + right. exists e'. split; [by right|done].
  - intros [Hin|(e' & He' & Hp)]%IH; [by left|].
    right. exists e'. split; [by right|done].
  - by left.
Qed.

Lemma try_owner_api_returns env owner_url secret label :
  returns (fun r => forall p, p ∈ (match r with inl pl | inr pl => pl end) ->
                    exists e, owner_entry env label e = Ok (Some p))
    (try_owner_api env owner_url secret label).
Proof.
  intros w r. unfold try_owner_api, try_except, bind.
  destruct (_rpc env owner_url "get_peers" _ secret 3 w) as [[raw|e] w1].
  - destruct (truthy raw); [|simpl; intros [= <-] p Hp; by apply elem_of_nil in Hp].
    destruct (iter raw) as [items|]; [|simpl; intros [= <-] p Hp; by apply elem_of_nil in Hp].
    destruct (collect_peers (owner_entry env label) items []) as [pl oe] eqn:E.
    assert (Hpl : forall p, p ∈ pl -> exists e, owner_entry env label e = Ok (Some p)).
    { intros p Hp. replace pl with (fst (collect_peers (owner_entry env label) items []))
        in Hp by (by rewrite E).
      apply collect_peers_elem in Hp as [Hp|(e & _ & He)]; [by apply elem_of_nil in Hp|eauto]. }
    destruct oe; simpl; intros [= <-]; done.
  - destruct (is_Exception e); simpl; [|discriminate].
    intros [= <-] p Hp. by apply elem_of_nil in Hp.
Qed.

Lemma try_foreign_api_returns env owner_url label peer_list (Q : Peer -> Prop) :
  (forall p, p ∈ peer_list -> Q p) ->
  (forall e p, foreign_entry env label e = Ok (Some p) -> Q p) ->
  returns (fun pl => forall p, p ∈ pl -> Q p)
    (try_foreign_api env owner_url label peer_list).
Proof.
  intros Hacc Hentry w pl. unfold try_foreign_api, try_except, bind.
  destruct (_rpc env _ "get_connected_peers" _ _ 2 w) as [[raw|e] w1].
  - destruct (truthy raw); [|simpl; by intros [= <-]].
    destruct (iter raw) as [items|]; [|simpl; by intros [= <-]].
    simpl. intros [= <-] p [Hp|(e & _ & He)]%collect_peers_elem; eauto.
  - destruct (is_Exception e); simpl; [|discriminate]. by intros [= <-].
Qed.

(** The owner API path, when its loop runs to the end. *)
Lemma owner_path_run env owner_url secret label w raw w1 items :
  _rpc env owner_url "get_peers" (JObj [("peer_addr", JNull)]) secret 3 w = (Ok raw, w1) ->
  truthy raw = true ->
  iter raw = Ok items ->
  snd (collect_peers (owner_entry env label) items []) = None ->
  _fetch_all_peers_from_node env owner_url secret label w
  = (Ok (fst (collect_peers (owner_entry env label) items [])), w1).
Proof.
  intros Hrpc Htruthy Hiter Hloop.
  unfold _fetch_all_peers_from_node, try_owner_api, try_except.
  unfold bind at 1. unfold bind at 1. rewrite Hrpc, Htruthy, Hiter.
  destruct (collect_peers (owner_entry env label) items []) as [pl oe].
  simpl in Hloop. by subst oe.
Qed.

(** C7, as the code has it.  Discovery always returns a list.  On either
    path every peer in it carries the network label and an IP that is not
    empty and starts neither with "127." nor with "::1".  When the owner API
    answers with a list and its loop runs to the end, the fallback is not
    tried, and every peer returned comes from an entry whose flags do not
    contain "Banned" and has an IP that starts neither with "10." nor with
    "192.168.". *)
Theorem C7_discovery_filters (env : Env) (owner_url secret label : string) (w : World) :
  exists peers,
    fst (_fetch_all_peers_from_node env owner_url secret label w) = Ok peers /\
    (forall p, p ∈ peers ->
       p_network p = label /\ p_ip p <> "" /\
       startswith (p_ip p) "127." = false /\ startswith (p_ip p) "::1" = false) /\
    (forall raw w1 items,
       _rpc env owner_url "get_peers" (JObj [("peer_addr", JNull)]) secret 3 w = (Ok raw, w1) ->
       truthy raw = true ->
       iter raw = Ok items ->
       snd (collect_peers (owner_entry env label) items []) = None ->
       snd (_fetch_all_peers_from_node env owner_url secret label w) = w1 /\
       forall p, p ∈ peers ->
         startswith (p_ip p) "10." = false /\ startswith (p_ip p) "192.168." = false /\
         exists entry flags,
           entry ∈ items /\ owner_entry env label entry = Ok (Some p) /\
           get entry "flags" (JStr "") = Ok flags /\
           contains "Banned" (py_str env flags) = false).
Proof.
  destruct (total_fetch_all_peers env owner_url secret label w) as [peers Hpeers].
  exists peers. split; [done|]. split.
  - assert (Hall : forall p, p ∈ peers -> p_network p = label /\ foreign_ip_ok (p_ip p) = true).
    { revert Hpeers. unfold _fetch_all_peers_from_node, bind.
      pose proof (try_owner_api_returns env owner_url secret label w) as Howner.
      destruct (try_owner_api env owner_url secret label w) as [[first|e] w1];
        [|discriminate].
      specialize (Howner first eq_refl).
      assert (Hfirst : forall p, p ∈ (match first with inl pl | inr pl => pl end) ->
                p_network p = label /\ foreign_ip_ok (p_ip p) = true).
      { intros p (e & (Hn & Hip & _)%owner_entry_ok)%Howner.
        split; [done|by apply owner_ip_ok_foreign]. }
      destruct first as [pl|pl].
      - simpl. by intros [= <-].
      - intros Hret. eapply (try_foreign_api_returns env owner_url label pl); [done| |done].
        intros e p. apply foreign_entry_ok. }
    intros p [Hn Hip%foreign_ip_ok_spec]%Hall. tauto.
  - intros raw w1 items Hrpc Htruthy Hiter Hloop.
    rewrite (owner_path_run _ _ _ _ _ _ _ _ Hrpc Htruthy Hiter Hloop) in Hpeers |- *.
    simpl in Hpeers. injection Hpeers as <-. split; [done|].
    intros p [Hp|(entry & Hentry & He)]%collect_peers_elem; [by apply elem_of_nil in Hp|].
    pose proof (owner_entry_ok _ _ _ _ He) as (_ & Hip%owner_ip_ok_spec & flags & Hf & Hb).
    split; [tauto|]. split; [tauto|]. eauto 10.
Qed.

(** C7 as stated fails: the owner API lists one healthy peer at
    172.16.0.5, an address in the private range 172.16.0.0/12; discovery
    returns it. *)
Lemma C7_private_address_passes :
  let env :=
    owner_peers_env 1700000000
      (JArr [JObj [("addr", JStr "172.16.0.5:3414"); ("flags", JStr "Healthy");
                   ("user_agent", JStr "MW/Grin 5.3.0"); ("direction", JStr "Outbound")]]) in
  fst (_fetch_all_peers_from_node env (MAINNET_OWNER_URL env) (API_SECRET env) "mainnet"
         empty_world)
  = Ok [mkPeer "172.16.0.5" "3414" "MW/Grin 5.3.0" "Outbound" "mainnet"] /\
  spec_local_ip "172.16.0.5" = true.
Proof. vm_compute. split; reflexivity. Qed.

(** ** Peer reconciliation *)

Lemma elem_of_insert_by {A} (key : A -> Z) x l y :
  y ∈ insert_by key x l <-> y = x \/ y ∈ l.
Proof.
  induction l as [|z l IH]; simpl.
  - rewrite list_elem_of_singleton. split; [by left|]. intros [?|H]; [done|].
    by apply elem_of_nil in H.
  - destruct (key z <=? key x).
    + rewrite !elem_of_cons, IH. tauto.
    + rewrite !elem_of_cons. tauto.
Qed.

Lemma elem_of_sort_by {A} (key : A -> Z) (l : list A) y : y ∈ sort_by key l <-> y ∈ l.
Proof.
  unfold sort_by.
  assert (H : forall acc, y ∈ fold_left (fun acc x => insert_by key x acc) l acc
                          <-> y ∈ acc \/ y ∈ l).
  { induction l as [|x l IH]; intros acc; simpl.
    - split; [by left|]. intros [?|H]; [done|]. by apply elem_of_nil in H.
    - rewrite IH, elem_of_insert_by, elem_of_cons. tauto. }
  rewrite H. split; [|by right]. intros [H'|?]; [|done]. by apply elem_of_nil in H'.
Qed.

Lemma elem_of_select_recent_peers cutoff d ip network r :
  (ip, network, r) ∈ select_recent_peers cutoff d <->
  known_peers d !! (ip, network) = Some r /\ cutoff <= last_seen r.
Proof.
  unfold select_recent_peers.
  rewrite elem_of_sort_by, list_elem_of_In, filter_In, <- list_elem_of_In.
  rewrite elem_of_map_to_list. simpl. by rewrite Z.leb_le.
Qed.

(** A re-sighting overwrites every column but the key and [first_seen]. *)
Lemma upsert_peer_resighted ts kp e old :
  kp !! (e_ip e, e_network e) = Some old ->
  upsert_peer ts kp e !! (e_ip e, e_network e) = Some (sighted_row e (first_seen old) ts).
Proof. intros H. unfold upsert_peer. by rewrite H, lookup_insert_eq. Qed.

Lemma upsert_peer_new ts kp e :
  kp !! (e_ip e, e_network e) = None ->
  upsert_peer ts kp e !! (e_ip e, e_network e) = Some (sighted_row e ts ts).
Proof. intros H. unfold upsert_peer. by rewrite H, lookup_insert_eq. Qed.

Lemma upsert_peer_other ts kp e key :
  key <> (e_ip e, e_network e) -> upsert_peer ts kp e !! key = kp !! key.
Proof. intros H. unfold upsert_peer. by rewrite lookup_insert_ne. Qed.

(** A row after [upsert_peer] is an old row, or a sighting that keeps the
    old [first_seen], or a new sighting. *)
Lemma upsert_peer_lookup ts kp e key r' :
  upsert_peer ts kp e !! key = Some r' ->
  kp !! key = Some r' \/
  (key = (e_ip e, e_network e) /\ last_seen r' = ts /\
   match kp !! key with
   | Some old => first_seen r' = first_seen old
   | None => first_seen r' = ts
   end).
Proof.
  destruct (decide (key = (e_ip e, e_network e))) as [->|Hne].
  - destruct (kp !! (e_ip e, e_network e)) as [old|] eqn:E.
    + rewrite (upsert_peer_resighted _ _ _ _ E). intros [= <-]. by right.
    + rewrite (upsert_peer_new _ _ _ E). intros [= <-]. by right.
  - rewrite upsert_peer_other by done. by left.
Qed.

Lemma upsert_peers_first_seen ts es : forall kp key r r',
  kp !! key = Some r ->
  upsert_peers ts es kp !! key = Some r' ->
  first_seen r' = first_seen r.
Proof.
  unfold upsert_peers.
  induction es as [|e es IH]; intros kp key r r' Hr; simpl.
  - rewrite Hr. by intros [= <-].
  - destruct (decide (key = (e_ip e, e_network e))) as [->|Hne].
    + intros H. by rewrite (IH _ _ _ _ (upsert_peer_resighted ts _ _ _ Hr) H).
    + apply IH. by rewrite upsert_peer_other.
Qed.

Lemma upsert_peers_bounds ts es : forall kp t0,
  t0 <= ts ->
  (forall key r, kp !! key = Some r -> first_seen r <= last_seen r <= t0) ->
  forall key r, upsert_peers ts es kp !! key = Some r ->
    first_seen r <= last_seen r <= ts.
Proof.
  unfold upsert_peers.
  assert (Hgen : forall kp,
    (forall key r, kp !! key = Some r -> first_seen r <= last_seen r <= ts) ->
    forall key r, fold_left (upsert_peer ts) es kp !! key = Some r ->
      first_seen r <= last_seen r <= ts).
  { induction es as [|e es IH]; intros kp Hkp key r; simpl; [apply Hkp|].
    apply IH. intros key' r' [Hold|(-> & Hl & Hf)]%upsert_peer_lookup.
    - by eapply Hkp.
    - destruct (kp !! (e_ip e, e_network e)) as [old|] eqn:E.
      + specialize (Hkp _ _ E). lia.
      + lia. }
  intros kp t0 Ht Hkp. apply Hgen. intros key r Hr. specialize (Hkp _ _ Hr). lia.
Qed.

Lemma upsert_peers_other ts es : forall kp key,
  key ∉ map (fun e => (e_ip e, e_network e)) es ->
  upsert_peers ts es kp !! key = kp !! key.
Proof.
  unfold upsert_peers.
  induction es as [|e es IH]; intros kp key Hn; simpl; [done|].
  simpl in Hn. apply not_elem_of_cons in Hn as [Hne Hn].
  rewrite IH by done. by apply upsert_peer_other.
Qed.

Lemma prune_peers_lookup cutoff kp key r :
  prune_peers cutoff kp !! key = Some r <-> kp !! key = Some r /\ cutoff <= last_seen r.
Proof.
  unfold prune_peers. rewrite map_lookup_filter_Some. simpl.
  split; intros [? ?]; (split; [done|lia]).
Qed.

Lemma dedup_peers_subset peers : forall seen p,
  p ∈ dedup_peers seen peers -> p ∈ peers.
Proof.
  induction peers as [|q peers IH]; intros seen p; simpl; [done|].
  case_bool_decide.
  - intros Hp%IH. by right.
  - intros [->|Hp%IH]%elem_of_cons; [left|by right].
Qed.

Lemma discover_peers_reads env w :
  extends (fun _ => True) eq w (snd (discover_peers env w)).
Proof. apply frame_discover_peers with (ok_method := fun _ => True); side_conditions. Qed.

Lemma geolocate_reads env all_peers w :
  extends (fun _ => True) eq w (snd (geolocate env all_peers w)).
Proof. apply frame_geolocate; side_conditions. Qed.

(** The reconciliation run in closed form, after discovery and
    geolocation. *)
Lemma update_peers_run env w :
  exists all_peers w1,
    discover_peers env w = (Ok all_peers, w1) /\
    extends (fun _ => True) eq w w1 /\
    match all_peers with
    | [] =>
        _update_peers env w
        = (Ok tt,
           mkWorld (db w)
             (write_file "peers.json" (peers_doc (clock env (length (trace w1))) [])
                (files w1))
             (trace w1 ++ [EvClock; EvWrite "peers.json"]))
    | _ :: _ =>
        exists geo_map w2 snaps,
          extends (fun _ => True) eq w1 w2 /\
          let ts := clock env (length (trace w2)) in
          let kp' :=
            prune_peers (ts - PEER_RETENTION_DAYS * 86400)
              (upsert_peers ts (map (enrich geo_map ts) (dedup_peers [] all_peers))
                 (known_peers (db w))) in
          let d' := mkDB (blocks (db w)) (block_stats (db w)) snaps (meta (db w)) kp' in
          _update_peers env w
          = (Ok tt,
             mkWorld d'
               (write_file "peers.json"
                  (peers_doc (clock env (S (length (trace w2))))
                     (select_recent_peers (ts - PEER_HISTORY_DAYS * 86400) d'))
                  (files w2))
               (trace w2 ++ [EvClock; EvClock; EvWrite "peers.json"]))
    end.
Proof.
  destruct (total_run _ w (total_discover_peers env)) as [all_peers Hdisc].
  pose proof (discover_peers_reads env w) as Hw1.
  set (w1 := snd (discover_peers env w)) in *.
  exists all_peers, w1. split; [done|]. split; [done|].
  unfold _update_peers. rewrite (bind_run _ _ _ _ _ Hdisc).
  pose proof (extends_eq_db _ _ Hw1) as Hdb1.
  destruct all_peers as [|p rest].
  - unfold _write_peers_json, now_ts, int_time, bind, steps, emit, ret, _write_json.
    simpl. rewrite Hdb1, <- app_assoc. reflexivity.
  - remember (dedup_peers [] (p :: rest)) as peers eqn:Epeers.
    destruct (total_run _ w1 (total_geolocate_batches env _ _ :
                total (geolocate env peers))) as [geo_map Hgeo].
    pose proof (geolocate_reads env peers w1) as Hw2.
    set (w2 := snd (geolocate env peers w1)) in *.
    rewrite (bind_run _ _ _ _ _ Hgeo).
    pose proof (extends_eq_db _ _ Hw2) as Hdb2. rewrite Hdb1 in Hdb2.
    exists geo_map, w2.
    remember (Counter (map p_user_agent
                (List.filter (fun p0 => is_mainnet (p_network p0)) peers)))
      as version_counts eqn:EC.
    destruct version_counts as [|c cs].
    + exists (peer_snapshots (db w)). split; [done|].
      unfold _write_peers_json, now_ts, int_time, bind, steps, emit, ret, _write_json,
        execute, query.
      simpl. rewrite !length_app. simpl.
      replace (length (trace w2) + 1)%nat with (S (length (trace w2))) by lia.
      rewrite Hdb2, <- !app_assoc. reflexivity.
    + eexists. split; [done|].
      unfold _write_peers_json, now_ts, int_time, bind, steps, emit, ret, _write_json,
        execute, query.
      simpl. rewrite !length_app. simpl.
      replace (length (trace w2) + 1)%nat with (S (length (trace w2))) by lia.
      rewrite Hdb2, <- !app_assoc. reflexivity.
Qed.

Lemma dedup_peers_keys peers : forall seen,
  NoDup (map peer_key (dedup_peers seen peers)) /\
  forall key, key ∈ map peer_key (dedup_peers seen peers) -> key ∉ seen.
Proof.
  induction peers as [|q peers IH]; intros seen; simpl.
  - split; [constructor|]. intros key Hk. by apply elem_of_nil in Hk.
  - case_bool_decide as Hq; [apply IH|].
    destruct (IH (peer_key q :: seen)) as [Hnd Hfresh]. simpl. split.
    + constructor; [|done]. intros Hin%Hfresh. apply Hin. by left.
    + intros key [->|Hin%Hfresh]%elem_of_cons; [done|].
      intros Hs. apply Hin. by right.
Qed.

Lemma enrich_key geo_map ts p :
  (e_ip (enrich geo_map ts p), e_network (enrich geo_map ts p)) = peer_key p.
Proof. done. Qed.

Lemma enriched_keys geo_map ts peers :
  map (fun e => (e_ip e, e_network e)) (map (enrich geo_map ts) peers) = map peer_key peers.
Proof. by rewrite map_map. Qed.

(** With one sighting per key, each sighted key holds its sighting. *)
Lemma upsert_peers_sighted ts es : forall kp e,
  NoDup (map (fun e => (e_ip e, e_network e)) es) ->
  e ∈ es ->
  upsert_peers ts es kp !! (e_ip e, e_network e)
  = Some (sighted_row e
            (match kp !! (e_ip e, e_network e) with
             | Some old => first_seen old
             | None => ts
             end) ts).
Proof.
  induction es as [|e0 es IH]; intros kp e Hnd He; [by apply elem_of_nil in He|].
  simpl in Hnd. apply NoDup_cons in Hnd as [Hfresh Hnd].
  apply elem_of_cons in He as [->|He].
  - change (upsert_peers ts (e0 :: es) kp) with (upsert_peers ts es (upsert_peer ts kp e0)).
    rewrite upsert_peers_other by done.
    destruct (kp !! (e_ip e0, e_network e0)) as [old|] eqn:E.
    + by apply upsert_peer_resighted.
    + by apply upsert_peer_new.
  - change (upsert_peers ts (e0 :: es) kp) with (upsert_peers ts es (upsert_peer ts kp e0)).
    rewrite IH by done.
    rewrite upsert_peer_other; [done|].
    intros Heq. apply Hfresh. rewrite <- Heq.
    apply (list_elem_of_fmap_2 (fun e => (e_ip e, e_network e))). done.
Qed.

(** A row after the upserts is an untouched old row or was sighted now. *)
Lemma upsert_peers_lookup ts es : forall kp key r,
  upsert_peers ts es kp !! key = Some r -> kp !! key = Some r \/ last_seen r = ts.
Proof.
  unfold upsert_peers.
  induction es as [|e es IH]; intros kp key r; simpl; [by left|].
  intros [Hold|Hts]%IH; [|by right].
  apply upsert_peer_lookup in Hold as [?|(_ & ? & _)]; [by left|by right].
Qed.

(** C6, as the code has it.  A reconciliation run returns normally.  The
    upsert statement overwrites, for a key already stored, every column but
    the key and first_seen, and sets last_seen to the run's timestamp.  No
    run changes the first_seen of a stored key.  If the clock never runs
    backwards, a table in which every row has first_seen <= last_seen <=
    (current clock reading) is again such a table after the run, so after any
    number of runs.  A run that discovers at least one peer stores, for
    every de-duplicated peer, the sighting with last_seen = ts and first_seen
    kept (or ts for a new key), keeps no row with last_seen < ts - 30 days,
    and writes to peers.json exactly the stored rows with last_seen >= ts - 7
    days.  A run that discovers no peer leaves the store as it was and
    writes an empty peer list. *)
Theorem C6_known_peers_upsert_and_retention (env : Env) (w : World) :
  let run := fun w => snd (_update_peers env w) in
  let kp := known_peers (db w) in
  let kp' := known_peers (db (run w)) in
  fst (_update_peers env w) = Ok tt /\
  (forall ts kp0 e old,
     kp0 !! (e_ip e, e_network e) = Some old ->
     upsert_peer ts kp0 e !! (e_ip e, e_network e)
     = Some (sighted_row e (first_seen old) ts)) /\
  (forall key r r', kp !! key = Some r -> kp' !! key = Some r' ->
     first_seen r' = first_seen r) /\
  ((forall i j, (i <= j)%nat -> clock env i <= clock env j) ->
   peers_inv env w -> forall n, peers_inv env (Nat.iter n run w)) /\
  (forall all_peers w1,
     discover_peers env w = (Ok all_peers, w1) -> all_peers <> [] ->
     exists (k : nat) (geo_map : gmap string Geo),
       (length (trace w) <= k < length (trace (run w)))%nat /\
       let ts := clock env k in
       (forall p, p ∈ dedup_peers [] all_peers ->
          kp' !! peer_key p
          = Some (sighted_row (enrich geo_map ts p)
                    (match kp !! peer_key p with
                     | Some old => first_seen old
                     | None => ts
                     end) ts)) /\
       (forall key r, kp' !! key = Some r -> kp !! key = Some r \/ last_seen r = ts) /\
       (forall key r, kp' !! key = Some r -> ts - 30 * 86400 <= last_seen r) /\
       exists updated rows,
         files (run w) !! "peers.json" = Some (peers_doc updated rows) /\
         forall ip network r,
           (ip, network, r) ∈ rows <->
           kp' !! (ip, network) = Some r /\ ts - 7 * 86400 <= last_seen r) /\
  (forall w1,
     discover_peers env w = (Ok [], w1) ->
     db (run w) = db w /\
     exists updated, files (run w) !! "peers.json" = Some (peers_doc updated [])).
Proof.
  cbn zeta.
  assert (Hone : forall w0,
    fst (_update_peers env w0) = Ok tt /\
    (forall key r r', known_peers (db w0) !! key = Some r ->
       known_peers (db (snd (_update_peers env w0))) !! key = Some r' ->
       first_seen r' = first_seen r) /\
    ((forall i j, (i <= j)%nat -> clock env i <= clock env j) ->
     peers_inv env w0 -> peers_inv env (snd (_update_peers env w0)))).
  { intros w0.
    destruct (update_peers_run env w0) as (all_peers & w1 & Hdisc & Hw1 & Hrun).
    destruct all_peers as [|p rest].
    - rewrite Hrun. cbn [fst snd db known_peers files trace]. split; [done|]. split.
      + intros key r r' Hr Hr'. congruence.
      + intros Hmono Hinv key r Hr. specialize (Hinv key r Hr).
        apply extends_length in Hw1.
        pose proof (Hmono (length (trace w0)) (length (trace w1 ++ [EvClock; EvWrite "peers.json"]))) as Hm.
        rewrite length_app in Hm. simpl in Hm. cbn [trace]. rewrite length_app. simpl length. lia.
    - destruct Hrun as (geo_map & w2 & snaps & Hw2 & Hrun). cbn zeta in Hrun.
      rewrite Hrun. cbn [fst snd db known_peers files trace]. split; [done|]. split.
      + intros key r r' Hr [Hr' _]%prune_peers_lookup.
        exact (upsert_peers_first_seen _ _ _ _ _ _ Hr Hr').
      + intros Hmono Hinv key r [Hr _]%prune_peers_lookup.
        apply extends_length in Hw1, Hw2.
        pose proof (upsert_peers_bounds _ _ _ (clock env (length (trace w0)))
                      (Hmono (length (trace w0)) (length (trace w2)) ltac:(lia)) Hinv _ _ Hr) as Hb.
        pose proof (Hmono (length (trace w2))
                      (length (trace w2 ++ [EvClock; EvClock; EvWrite "peers.json"]))) as Hm.
        rewrite length_app in Hm. simpl in Hm. cbn [trace]. rewrite length_app. simpl length. lia. }
  split; [apply Hone|]. split; [intros; by apply upsert_peer_resighted|].
  split; [apply Hone|]. split.
  { intros Hmono Hinv n. induction n as [|n IH]; [done|]. simpl. by apply Hone. }
  destruct (update_peers_run env w) as (all_peers & w1 & Hdisc & Hw1 & Hrun).
  split.
  - intros all_peers' w1' Hdisc' Hne. rewrite Hdisc in Hdisc'.
    injection Hdisc' as <- <-.
    destruct all_peers as [|p rest]; [done|].
    destruct Hrun as (geo_map & w2 & snaps & Hw2 & Hrun). cbn zeta in Hrun.
    rewrite Hrun. cbn [fst snd db known_peers files trace].
    exists (length (trace w2)), geo_map. split.
    { apply extends_length in Hw1, Hw2. rewrite length_app. simpl. lia. }
    cbn zeta. split; [|split; [|split]].
    + intros q Hq. apply prune_peers_lookup. split.
      * rewrite <- !(enrich_key geo_map (clock env (length (trace w2))) q).
        apply upsert_peers_sighted.
        -- rewrite enriched_keys. apply dedup_peers_keys.
        -- by apply list_elem_of_fmap_2.
      * cbn [last_seen sighted_row]. unfold PEER_RETENTION_DAYS. lia.
    + intros key r [Hr _]%prune_peers_lookup. by eapply upsert_peers_lookup.
    + intros key r [_ Hr]%prune_peers_lookup. unfold PEER_RETENTION_DAYS in Hr. lia.
    + eexists _, _. split.
      * unfold write_file. by rewrite lookup_insert_eq.
      * intros ip network r. rewrite elem_of_select_recent_peers.
        cbn [known_peers]. unfold PEER_HISTORY_DAYS. done.
  - intros w1' Hdisc'. rewrite Hdisc in Hdisc'. injection Hdisc' as -> <-.
    rewrite Hrun. cbn [fst snd db known_peers files trace]. split; [done|].
    eexists. unfold write_file. by rewrite lookup_insert_eq.
Qed.

(** C6 as stated fails on two counts.  (1) No node is running, so the
    run discovers no peer; the only stored row was last seen at time 0 and
    the clock shows 100 days: the row is 70 days past the retention horizon
    and is still stored after the run.  (2) A row first and last seen at
    1000 is sighted again while the clock shows 500: the run stores
    last_seen = 500 under first_seen = 1000. *)
Lemma C6_stale_row_survives_idle_run :
  let stale := mkPeerRow "3414" "MW/Grin 5.3.0" "Outbound" (JInt 0) (JInt 0)
                 (JStr "") (JStr "") (JStr "") 0 0 in
  let env1 := tip_only_env 5 (100 * 86400) in
  let w1 := snd (_update_peers env1 (one_peer_world "8.8.8.8" "mainnet" stale)) in
  let seen := mkPeerRow "3414" "MW/Grin 5.3.0" "Outbound" (JInt 0) (JInt 0)
                (JStr "") (JStr "") (JStr "") 1000 1000 in
  let env2 :=
    owner_peers_env 500
      (JArr [JObj [("addr", JStr "8.8.8.8:3414"); ("flags", JStr "Healthy");
                   ("user_agent", JStr "MW/Grin 5.3.0"); ("direction", JStr "Outbound")]]) in
  let w2 := snd (_update_peers env2 (one_peer_world "8.8.8.8" "mainnet" seen)) in
  (known_peers (db w1) !! ("8.8.8.8", "mainnet") = Some stale /\
   last_seen stale < clock env1 (length (trace w1)) - 30 * 86400) /\
  (first_seen <$> known_peers (db w2) !! ("8.8.8.8", "mainnet") = Some 1000 /\
   last_seen <$> known_peers (db w2) !! ("8.8.8.8", "mainnet") = Some 500).
Proof. vm_compute. repeat split; reflexivity. Qed.

(** ** Concrete runs *)

Example calc_hashrate_carries_forward :
  calc_hashrate [(1, 1000, 500); (2, 1060, 560); (3, 1060, 600); (4, 1120, 600)]
  = [(1, 1000, 500, 0%Q); (2, 1060, 560, 1%Q); (3, 1060, 600, 1%Q); (4, 1120, 600, 1%Q)].
Proof. reflexivity. Qed.

Example parse_ts_with_subseconds :
  fst (parse_ts (offline_env 1700000000) (JStr "2019-01-15T16:44:15.763877+00:00")
         empty_world)
  = Ok 1547570655.
Proof. vm_compute. reflexivity. Qed.

Example parse_ts_without_subseconds :
  fst (parse_ts (offline_env 1700000000) (JStr "2019-01-15T16:44:15+00:00") empty_world)
  = Ok 1700000000.
Proof. vm_compute. reflexivity. Qed.

Example bucket_boundaries :
  bucket_of_age 86399 = Recent /\ bucket_of_age 86400 = Hourly /\
  bucket_of_age 2591999 = Hourly /\ bucket_of_age 2592000 = Daily.
Proof. repeat split. Qed.

Example addr_of_ipv6 :
  addr_ip "[2001:db8::1]:3414" = "2001:db8::1" /\ addr_port "[2001:db8::1]:3414" = "3414".
Proof. split; reflexivity. Qed.

Example foreign_url_of_owner :
  replace "/v2/owner" "/v2/foreign" "http://127.0.0.1:3413/v2/owner"
  = "http://127.0.0.1:3413/v2/foreign".
Proof. reflexivity. Qed.

(** ** Instances of the theorems *)

(** C1 at two blocks 60 seconds and 60 difficulty apart: the second is
    rated 60/60. *)
Lemma C1_calc_hashrate_witness :
  let rows := [(1, 1000, 500); (2, 1060, 560)] in
  calc_hashrate rows !! 0%nat = Some (1, 1000, 500, 0%Q) /\
  calc_hashrate rows !! 1%nat = Some (2, 1060, 560, 1%Q) /\
  (0 < 1060 - 1000 /\ 0 < 560 - 500) /\
  1%Q = true_div (560 - 500) (1060 - 1000).
Proof.
  cbn zeta.
  assert (H0 : calc_hashrate [(1, 1000, 500); (2, 1060, 560)] !! 0%nat
               = Some (1, 1000, 500, 0%Q)) by reflexivity.
  assert (H1 : calc_hashrate [(1, 1000, 500); (2, 1060, 560)] !! 1%nat
               = Some (2, 1060, 560, 1%Q)) by reflexivity.
  assert (Hpos : 0 < 1060 - 1000 /\ 0 < 560 - 500) by lia.
  split; [exact H0|]. split; [exact H1|]. split; [exact Hpos|].
  exact (proj1 (proj2 (proj2 (proj2 (C1_calc_hashrate_spec [(1, 1000, 500); (2, 1060, 560)])))
                 0%nat 1 1000 500 0%Q 2 1060 560 1%Q H0 H1) Hpos).
Defined.

(** C5 with a clock that shows the same second at both runs. *)
Lemma C5_export_witness :
  let env := offline_env 1700000000 in
  let w1 := snd (export_all_json env empty_world) in
  let w2 := snd (export_all_json env w1) in
  clock env (length (trace w1)) = clock env (length (trace empty_world)) /\
  files w2 = files w1.
Proof.
  cbn zeta. split; [reflexivity|].
  exact (proj2 (proj2 (proj2 (C5_export_same_clock_same_files (offline_env 1700000000)
                                empty_world))) eq_refl).
Defined.

(** C6 at a node that lists the stored peer again, under a steady clock. *)
Lemma C6_known_peers_witness :
  let env :=
    owner_peers_env 1000
      (JArr [JObj [("addr", JStr "8.8.8.8:3414"); ("flags", JStr "Healthy");
                   ("user_agent", JStr "MW/Grin 5.3.0"); ("direction", JStr "Outbound")]]) in
  let seen := mkPeerRow "3414" "MW/Grin 5.2.0" "Inbound" (JInt 0) (JInt 0)
                (JStr "") (JStr "") (JStr "") 100 100 in
  let w := one_peer_world "8.8.8.8" "mainnet" seen in
  (forall i j, (i <= j)%nat -> clock env i <= clock env j) /\
  peers_inv env w /\
  peers_inv env (Nat.iter 2 (fun w => snd (_update_peers env w)) w).
Proof.
  cbn zeta.
  match goal with |- ?A /\ ?B /\ _ => assert (Hmono : A); [|assert (Hinv : B)] end.
  - intros i j _. simpl. lia.
  - intros key r Hr. unfold one_peer_world in Hr. simpl in Hr.
    apply lookup_singleton_Some in Hr as [_ <-]. simpl. lia.
  - split; [exact Hmono|]. split; [exact Hinv|].
    exact (proj1 (proj2 (proj2 (proj2 (C6_known_peers_upsert_and_retention _ _))))
             Hmono Hinv 2%nat).
Defined.

(** C7 at an owner API that lists a banned peer, a peer at 10.0.0.7 and a
    peer at 8.8.8.8: the loop runs to the end and the fallback is not tried. *)
Lemma C7_discovery_witness :
  let raw :=
    JArr [JObj [("addr", JStr "1.2.3.4:3414"); ("flags", JStr "Banned")];
          JObj [("addr", JStr "10.0.0.7:3414"); ("flags", JStr "Healthy")];
          JObj [("addr", JStr "8.8.8.8:3414"); ("flags", JStr "Healthy");
                ("user_agent", JStr "MW/Grin 5.3.0"); ("direction", JStr "Outbound")]] in
  let env := owner_peers_env 1700000000 raw in
  let url := MAINNET_OWNER_URL env in
  let w1 := push [EvUrlopen (rpc_request url "get_peers" (JObj [("peer_addr", JNull)]) "")]
              empty_world in
  _rpc env url "get_peers" (JObj [("peer_addr", JNull)]) "" 3 empty_world = (Ok raw, w1) /\
  truthy raw = true /\
  (exists items, iter raw = Ok items /\
                 snd (collect_peers (owner_entry env "mainnet") items []) = None) /\
  snd (_fetch_all_peers_from_node env url "" "mainnet" empty_world) = w1.
Proof.
  cbn zeta.
  match goal with |- ?A /\ ?B /\ _ => assert (Hrpc : A) by (vm_compute; reflexivity) end.
  split; [exact Hrpc|]. split; [reflexivity|]. split.
  - eexists. split; reflexivity.
  - destruct (C7_discovery_filters
                (owner_peers_env 1700000000
                   (JArr [JObj [("addr", JStr "1.2.3.4:3414"); ("flags", JStr "Banned")];
                          JObj [("addr", JStr "10.0.0.7:3414"); ("flags", JStr "Healthy")];
                          JObj [("addr", JStr "8.8.8.8:3414"); ("flags", JStr "Healthy");
                                ("user_agent", JStr "MW/Grin 5.3.0");
                                ("direction", JStr "Outbound")]]))
                "http://127.0.0.1:3413/v2/owner" "" "mainnet" empty_world)
      as (peers & _ & _ & Hprimary).
    exact (proj1 (Hprimary _ _ _ Hrpc eq_refl eq_refl eq_refl)).
Defined.

(** C8 when every attempt fails in transport. *)
Lemma C8_rpc_retry_witness :
  let env := offline_env 1700000000 in
  let req := rpc_request "http://127.0.0.1:3413/v2/foreign" "get_tip" JNull "" in
  (forall i, (i < 3)%nat -> urlopen env (length (trace empty_world) + 2 * i) req = NetError) /\
  _rpc env "http://127.0.0.1:3413/v2/foreign" "get_tip" JNull "" 3 empty_world
  = (Raise OSError,
     push [EvUrlopen req; EvSleep 1; EvUrlopen req; EvSleep 2; EvUrlopen req] empty_world).
Proof.
  cbn zeta.
  match goal with |- ?A /\ _ => assert (Hfail : A) by (intros i _; reflexivity) end.
  split; [exact Hfail|].
  exact (proj1 (C8_rpc_retry_policy (offline_env 1700000000)
                  "http://127.0.0.1:3413/v2/foreign" "get_tip" JNull "" empty_world) Hfail).
Defined.

(** C9 at a timestamp without sub-seconds, whose UTC offset the strict
    parser does not accept: it is recorded as the clock reading 1700000000
    and classified recent one hour later. *)
Lemma C9_parse_ts_witness :
  let env := offline_env 1700000000 in
  let s := "2019-01-15T16:44:15+00:00" in
  strptime env (split_head "." s) = None /\
  fst (parse_ts env (JStr s) empty_world) = Ok 1700000000 /\
  fst (assign_bucket env 1700000000 empty_world) = Ok Recent.
Proof.
  cbn zeta.
  assert (Hfail : strptime (offline_env 1700000000)
                    (split_head "." "2019-01-15T16:44:15+00:00") = None)
    by (vm_compute; reflexivity).
  destruct (proj2 (C9_parse_ts_total (offline_env 1700000000)
                     "2019-01-15T16:44:15+00:00" empty_world) Hfail) as [Hnow Hrecent].
  split; [exact Hfail|]. split; [exact Hnow|].
  apply (Hrecent empty_world). simpl. lia.
Defined.

(** C10 at an empty snapshot table and a versions.json left by an earlier
    run. *)
Lemma C10_versions_witness :
  let env := offline_env 1700000000 in
  let w := mkWorld empty_db {["versions.json" := JStr "stale"]} [] in
  let w' := snd (export_all_json env w) in
  peer_snapshots (db w) = [] /\
  files w' !! "versions.json" = Some (JStr "stale") /\
  files w' !! "summary.json" = Some (summary_doc 1700000000 (db w)).
Proof.
  cbn zeta.
  destruct (proj2 (C10_versions_only_with_snapshots (offline_env 1700000000)
                     (mkWorld empty_db {["versions.json" := JStr "stale"]} [])) eq_refl)
    as (_ & Hstale & _ & _ & _ & _ & _ & Hsummary).
  split; [reflexivity|]. split; [|exact Hsummary].
  rewrite Hstale. reflexivity.
Defined.

(* ====================================================================== *)
(** * Part III: further properties of the code                             *)
(* ====================================================================== *)

(** ** Sorting *)

Lemma insert_by_perm {A} (key : A -> Z) x (l : list A) : insert_by key x l ≡ₚ x :: l.
Proof.
  induction l as [|y l IH]; simpl; [done|].
  destruct (key y <=? key x); [|done].
  rewrite IH. apply Permutation_swap.
Qed.

Lemma sort_by_perm {A} (key : A -> Z) (l : list A) : sort_by key l ≡ₚ l.
Proof.
  unfold sort_by.
  assert (H : forall acc, fold_left (fun acc x => insert_by key x acc) l acc ≡ₚ acc ++ l).
  { induction l as [|x l IH]; intros acc; simpl; [by rewrite app_nil_r|].
    rewrite IH, insert_by_perm. simpl. apply Permutation_middle. }
  by rewrite H.
Qed.

Lemma insert_by_sorted {A} (key : A -> Z) x (l : list A) :
  StronglySorted (by_key key) l -> StronglySorted (by_key key) (insert_by key x l).
Proof.
  induction 1 as [|y l Hs IH Hall]; simpl.
  - repeat constructor.
  - destruct (Z.leb_spec (key y) (key x)) as [Hle|Hlt].
    + constructor; [done|]. rewrite insert_by_perm. by constructor.
    + constructor; [by constructor|]. constructor; [unfold by_key; lia|].
      eapply Forall_impl; [done|]. unfold by_key. intros z Hz. lia.
Qed.

Lemma sort_by_sorted {A} (key : A -> Z) (l : list A) :
  StronglySorted (by_key key) (sort_by key l).
Proof.
  unfold sort_by.
  assert (H : forall acc, StronglySorted (by_key key) acc ->
                StronglySorted (by_key key)
                  (fold_left (fun acc x => insert_by key x acc) l acc)).
  { induction l as [|x l IH]; intros acc Hacc; simpl; [done|].
    by apply IH, insert_by_sorted. }
  apply H. constructor.
Qed.

Lemma sort_by_length {A} (key : A -> Z) (l : list A) : length (sort_by key l) = length l.
Proof. by rewrite sort_by_perm. Qed.

(** ** Fetching in batches *)

Lemma run_tasks_results {A} (task : Z -> M (option A)) heights : forall w rows w',
  run_tasks task heights w = (Ok rows, w') ->
  (length rows <= length heights)%nat /\
  forall r, r ∈ rows -> exists h w0, h ∈ heights /\ fst (task h w0) = Ok (Some r).
Proof.
  induction heights as [|h rest IH]; intros w rows w'; simpl.
  - intros [= <- <-]. split; [done|]. intros r Hr. by apply elem_of_nil in Hr.
  - unfold bind at 1. destruct (task h w) as [[row|e] w1] eqn:Eh; [|discriminate].
    unfold bind at 1. destruct (run_tasks task rest w1) as [[rows'|e] w2] eqn:Er;
      [|discriminate].
    intros [= <- <-]. destruct (IH _ _ _ Er) as [Hlen Hin].
    assert (Hrest : forall r, r ∈ rows' ->
              exists h0 w0, h0 ∈ h :: rest /\ fst (task h0 w0) = Ok (Some r)).
    { intros r (h0 & w0 & Hh0 & Ht)%Hin. exists h0, w0. split; [by right|done]. }
    destruct row as [r0|]; simpl.
    + split; [lia|]. intros r [->|Hr]%elem_of_cons; [|by apply Hrest].
      exists h, w. split; [left|]. by rewrite Eh.
    + split; [lia|]. done.
Qed.

Lemma fetch_headers_batch_run env heights workers w :
  exists rows,
    fetch_headers_batch env heights workers w
    = (Ok rows, snd (fetch_headers_batch env heights workers w)) /\
    StronglySorted (by_key header_height) rows /\
    (length rows <= length heights)%nat /\
    (forall r, r ∈ rows ->
       exists h w0, h ∈ heights /\ fst (fetch_header env h w0) = Ok (Some r)).
Proof.
  unfold fetch_headers_batch, bind.
  destruct (total_run _ w (total_run_tasks (fetch_header env) heights
                             (total_fetch_header env))) as [results Hrun].
  rewrite Hrun. simpl.
  destruct (run_tasks_results _ _ _ _ _ Hrun) as [Hlen Hin].
  exists (sort_by header_height results).
  split; [done|]. split; [apply sort_by_sorted|]. split; [by rewrite sort_by_length|].
  intros r Hr. apply Hin. by rewrite <- (sort_by_perm header_height).
Qed.

(** X1. Whatever the node answers, a batch of header fetches returns
    without raising; the rows it returns are sorted by ascending height, are
    at most as many as the heights asked for, and each was returned by the
    fetch of one of these heights; the store is not touched. *)
Theorem X_fetch_headers_batch_survivors (env : Env) (heights : list Z) (workers : nat)
    (w : World) :
  exists rows,
    fst (fetch_headers_batch env heights workers w) = Ok rows /\
    StronglySorted (by_key header_height) rows /\
    (length rows <= length heights)%nat /\
    (forall r, r ∈ rows ->
       exists h w0, h ∈ heights /\ fst (fetch_header env h w0) = Ok (Some r)) /\
    db (snd (fetch_headers_batch env heights workers w)) = db w.
Proof.
  destruct (fetch_headers_batch_run env heights workers w) as (rows & Hrun & Hs & Hl & Hin).
  exists rows. rewrite Hrun. split; [done|]. split; [done|]. split; [done|].
  split; [done|]. simpl.
  pose proof (fetch_headers_batch_reads env heights workers w) as Hdb.
  apply extends_eq_db in Hdb. by rewrite Hrun in Hdb.
Qed.

(** ** The hashrate estimator on a growing series *)

(** X2. Rows appended to a series never change the rates of the rows before
    them: the estimate over a longer series starts with the estimate over the
    shorter one. *)
Theorem X_calc_hashrate_prefix (a b : list Header) :
  take (length a) (calc_hashrate (a ++ b)) = calc_hashrate a.
Proof.
  destruct a as [|r a]; [done|].
  rewrite <- app_comm_cons, !calc_hashrate_cons, rate_after_app. simpl. f_equal.
  rewrite take_app_length'; [done|]. by rewrite rate_after_length.
Qed.

(** ** De-duplication of peers *)

Lemma dedup_peers_complete peers : forall seen p,
  p ∈ peers -> peer_key p ∉ seen ->
  peer_key p ∈ map peer_key (dedup_peers seen peers).
Proof.
  induction peers as [|q peers IH]; intros seen p Hp Hseen; [by apply elem_of_nil in Hp|].
  simpl. apply elem_of_cons in Hp as [->|Hp].
  - rewrite bool_decide_eq_false_2 by done. simpl. left.
  - case_bool_decide as Hq.
    + by apply IH.
    + simpl. destruct (decide (peer_key p = peer_key q)) as [->|Hne]; [left|].
      right. apply IH; [done|]. by intros [?|?]%elem_of_cons.
Qed.

Lemma dedup_peers_sublist peers : forall seen, sublist (dedup_peers seen peers) peers.
Proof.
  induction peers as [|q peers IH]; intros seen; simpl; [done|].
  case_bool_decide; [by apply sublist_cons|by apply sublist_skip].
Qed.

(** The first peer of a key is the one that stays. *)
Lemma dedup_peers_first peers : forall seen pre p post,
  peers = pre ++ p :: post ->
  peer_key p ∉ seen ->
  peer_key p ∉ map peer_key pre ->
  p ∈ dedup_peers seen peers.
Proof.
  induction peers as [|q peers IH]; intros seen pre p post Heq Hseen Hpre.
  - by destruct pre.
  - destruct pre as [|q' pre]; simpl in Heq; injection Heq as -> ->.
    + simpl. rewrite bool_decide_eq_false_2 by done. left.
    + simpl in Hpre. apply not_elem_of_cons in Hpre as [Hne Hpre].
      simpl. case_bool_decide.
      * by eapply IH.
      * right. eapply IH; [done| |done]. by intros [?|?]%elem_of_cons.
Qed.

(** X3. De-duplication keeps exactly one peer per (ip, network) key, namely
    the first one listed, in the order of the input: the result is a sublist
    of the input with pairwise different keys, every key of the input occurs
    in it, and a peer with no earlier peer of the same key is kept. *)
Theorem X_dedup_peers_one_per_key (peers : list Peer) :
  let out := dedup_peers [] peers in
  sublist out peers /\
  NoDup (map peer_key out) /\
  (forall key, key ∈ map peer_key peers <-> key ∈ map peer_key out) /\
  (forall pre p post,
     peers = pre ++ p :: post -> peer_key p ∉ map peer_key pre -> p ∈ out).
Proof.
  cbn zeta. split; [apply dedup_peers_sublist|]. split; [apply dedup_peers_keys|].
  split.
  - intros key. split.
    + intros (p & -> & Hp)%list_elem_of_fmap.
      apply dedup_peers_complete; [done|]. apply not_elem_of_nil.
    + intros (p & -> & Hp)%list_elem_of_fmap.
      apply list_elem_of_fmap_2. by eapply dedup_peers_subset.
  - intros pre p post Heq Hpre. eapply dedup_peers_first; [done| |done].
    apply not_elem_of_nil.
Qed.

(** ** Counting user agents *)

Lemma counter_add_keys x c : map fst (counter_add x c)
  = if bool_decide (x ∈ map fst c) then map fst c else map fst c ++ [x].
Proof.
  induction c as [|[k n] c IH]; simpl; [done|].
  destruct (String.eqb_spec k x) as [->|Hne]; simpl.
  - rewrite bool_decide_eq_true_2; [done|left].
  - rewrite IH. case_bool_decide as Hx.
    + rewrite bool_decide_eq_true_2; [done|by right].
    + rewrite bool_decide_eq_false_2; [done|].
      intros [?|?]%elem_of_cons; [congruence|done].
Qed.

Lemma counter_add_counted x c y :
  counted y (counter_add x c) = counted y c + (if String.eqb x y then 1 else 0).
Proof.
  induction c as [|[k n] c IH]; simpl.
  - destruct (String.eqb x y); lia.
  - destruct (String.eqb_spec k x) as [->|Hne]; simpl.
    + destruct (String.eqb x y); lia.
    + destruct (String.eqb_spec k y) as [->|Hky].
      * destruct (String.eqb_spec x y); [congruence|lia].
      * apply IH.
Qed.

Lemma sum_from (l : list Z) : forall a, fold_left Z.add l a = a + sum l.
Proof.
  unfold sum. induction l as [|x l IH]; intros a; [simpl; lia|].
  cbn [fold_left]. rewrite (IH (a + x)), (IH (0 + x)). lia.
Qed.

Lemma sum_cons x (l : list Z) : sum (x :: l) = x + sum l.
Proof. unfold sum at 1. simpl. rewrite sum_from. lia. Qed.

Lemma sum_app (l1 l2 : list Z) : sum (l1 ++ l2) = sum l1 + sum l2.
Proof. induction l1 as [|x l1 IH]; simpl; [done|]. rewrite !sum_cons, IH. lia. Qed.

Lemma sum_perm (l1 l2 : list Z) : l1 ≡ₚ l2 -> sum l1 = sum l2.
Proof.
  induction 1 as [|x l1 l2 _ IH|x y l|l1 l2 l3 _ IH1 _ IH2];
    rewrite ?sum_cons; try lia.
Qed.

Lemma counter_add_sum x c : sum (map snd (counter_add x c)) = sum (map snd c) + 1.
Proof.
  induction c as [|[k n] c IH]; simpl; [done|].
  destruct (String.eqb k x); simpl; rewrite !sum_cons; simpl; lia.
Qed.

Lemma counter_add_positive x c :
  Forall (fun kn => 1 <= snd kn) c -> Forall (fun kn => 1 <= snd kn) (counter_add x c).
Proof.
  induction 1 as [|[k n] c Hn Hc IH]; simpl.
  - by repeat constructor.
  - destruct (String.eqb k x); constructor; simpl in *; try done. lia.
Qed.

Lemma occurrences_cons x y l :
  occurrences x (y :: l) = (if String.eqb y x then 1 else 0) + occurrences x l.
Proof.
  unfold occurrences. simpl. rewrite (String.eqb_sym x y).
  destruct (String.eqb y x); simpl; lia.
Qed.

(** The counter of a list has each element of the list as a key exactly
    once, holds for every element the number of its occurrences (at least 1
    for a key), and its counts add up to the length of the list. *)
Lemma Counter_spec (l : list string) :
  NoDup (map fst (Counter l)) /\
  (forall x, x ∈ map fst (Counter l) <-> x ∈ l) /\
  (forall x, counted x (Counter l) = occurrences x l) /\
  Forall (fun kn => 1 <= snd kn) (Counter l) /\
  sum (map snd (Counter l)) = Z.of_nat (length l).
Proof.
  unfold Counter.
  assert (H : forall c,
    NoDup (map fst c) -> Forall (fun kn => 1 <= snd kn) c ->
    let c' := fold_left (fun c x => counter_add x c) l c in
    NoDup (map fst c') /\
    (forall x, x ∈ map fst c' <-> x ∈ map fst c \/ x ∈ l) /\
    (forall x, counted x c' = counted x c + occurrences x l) /\
    Forall (fun kn => 1 <= snd kn) c' /\
    sum (map snd c') = sum (map snd c) + Z.of_nat (length l)).
  { induction l as [|y l IH]; intros c Hnd Hpos; cbn zeta; simpl fold_left.
    - split; [done|]. split.
      { intros x. split; [by left|]. intros [?|H]; [done|]. by apply elem_of_nil in H. }
      split; [intros; unfold occurrences; simpl; lia|]. split; [done|simpl; lia].
    - assert (Hnd' : NoDup (map fst (counter_add y c))).
      { rewrite counter_add_keys. case_bool_decide as Hy; [done|].
        apply NoDup_app. split; [done|]. split; [|apply NoDup_singleton].
        intros x Hx ->%list_elem_of_singleton. done. }
      destruct (IH _ Hnd' (counter_add_positive y c Hpos)) as (H1 & H2 & H3 & H4 & H5).
      split; [done|]. split.
      { intros x. rewrite H2, counter_add_keys, elem_of_cons.
        case_bool_decide as Hy.
        - split; [tauto|]. intros [?|[->|?]]; tauto.
        - rewrite elem_of_app, list_elem_of_singleton. tauto. }
      split.
      { intros x. rewrite H3, counter_add_counted, occurrences_cons. lia. }
      split; [done|].
      rewrite H5, counter_add_sum. simpl length. lia. }
  destruct (H [] ltac:(constructor) ltac:(constructor)) as (H1 & H2 & H3 & H4 & H5).
  split; [done|]. split.
  { intros x. rewrite H2. split; [|by right]. intros [Hx|?]; [|done].
    by apply elem_of_nil in Hx. }
  split; [intros x; rewrite H3; simpl; lia|]. split; [done|].
  rewrite H5. done.
Qed.

(** ** The sampling plan of the initial import *)

Lemma elem_of_range_step (a b step h : Z) :
  0 < step ->
  h ∈ range_step a b step <-> a <= h < b /\ (h - a) mod step = 0.
Proof.
  intros Hstep. unfold range_step. rewrite list_elem_of_fmap. split.
  - intros (k & -> & Hk%elem_of_seq).
    assert (Hlt : Z.of_nat k < (b - a + step - 1) / step) by lia.
    pose proof (Z.mul_div_le (b - a + step - 1) step Hstep).
    split; [nia|].
    replace (a + step * Z.of_nat k - a) with (Z.of_nat k * step) by lia.
    apply Z_mod_mult.
  - intros [[Hlo Hhi] Hmod].
    apply Z.mod_divide in Hmod as [q Hq]; [|lia].
    assert (0 <= q) by nia.
    exists (Z.to_nat q). split; [nia|].
    apply elem_of_seq. split; [lia|].
    assert (q + 1 <= (b - a + step - 1) / step); [|lia].
    apply Z.div_le_lower_bound; [done|]. nia.
Qed.

Lemma strictly_sorted_by {A} (key : A -> Z) (l : list A) :
  StronglySorted (by_key key) l -> NoDup (map key l) ->
  StronglySorted (fun a b => key a < key b) l.
Proof.
  induction 1 as [|x l Hs IH Hall]; intros Hnd; [constructor|].
  simpl in Hnd. apply NoDup_cons in Hnd as [Hx Hnd].
  constructor; [by apply IH|].
  apply Forall_forall. intros y Hy.
  rewrite Forall_forall in Hall. specialize (Hall y Hy). unfold by_key in Hall.
  assert (key y <> key x); [|lia]. intros Heq. apply Hx. rewrite <- Heq.
  by apply (list_elem_of_fmap_2 key l y).
Qed.

Lemma strictly_sorted (l : list Z) :
  StronglySorted (by_key (fun h => h)) l -> NoDup l -> StronglySorted Z.lt l.
Proof.
  intros Hs Hnd. apply (strictly_sorted_by (fun h => h)); [done|].
  by rewrite map_id.
Qed.

Lemma sorted_spec (s : gset Z) :
  StronglySorted Z.lt (sorted s) /\ forall h, h ∈ sorted s <-> h ∈ s.
Proof.
  unfold sorted. split.
  - apply strictly_sorted; [apply sort_by_sorted|].
    rewrite sort_by_perm. apply NoDup_elements.
  - intros h. by rewrite elem_of_sort_by, elem_of_elements.
Qed.

Lemma chunks_concat {A} (s : nat) : forall (m : nat) (l : list A),
  (length l <= m * s)%nat ->
  concat (map (fun k => take s (drop (s * k) l)) (seq 0 m)) = l.
Proof.
  induction m as [|m IH]; intros l Hlen.
  - destruct l; [done|simpl in Hlen; lia].
  - cbn [seq map concat]. rewrite Nat.mul_0_r. cbn [drop].
    rewrite <- seq_shift, map_map.
    rewrite (map_ext _ (fun k => take s (drop (s * k) (drop s l)))).
    + rewrite IH; [apply take_drop|]. rewrite length_drop. lia.
    + intros k. rewrite drop_drop. f_equal. f_equal. lia.
Qed.

Lemma height_batches_chunks heights size :
  0 < size ->
  height_batches heights size
  = map (fun k => take (Z.to_nat size) (drop (Z.to_nat size * k) heights))
      (seq 0 (Z.to_nat ((Z.of_nat (length heights) + size - 1) / size))).
Proof.
  intros Hsize. unfold height_batches, range_step, slice.
  rewrite map_map, Z.sub_0_r. apply map_ext. intros k.
  f_equal; [f_equal; lia|f_equal; lia].
Qed.

Lemma last_of_sorted (l : list Z) x :
  StronglySorted Z.lt l -> x ∈ l -> Forall (fun h => h <= x) l -> last l = Some x.
Proof.
  induction l as [|y l IH]; [by intros _ ?%elem_of_nil|].
  intros [Hs Hall]%StronglySorted_inv Hx [Hy Hle]%Forall_cons.
  destruct l as [|z l]; [by apply list_elem_of_singleton in Hx as ->|].
  change (last (y :: z :: l)) with (last (z :: l)).
  apply elem_of_cons in Hx as [->|Hx]; [|by apply IH].
  apply Forall_cons in Hall as [Hyz _]. apply Forall_cons in Hle as [Hzy _]. lia.
Qed.

Lemma sample_heights_spec (tip : Z) :
  StronglySorted Z.lt (sample_heights tip) /\
  forall h, h ∈ sample_heights tip <-> sampled tip h.
Proof.
  unfold sample_heights. cbn zeta.
  destruct (sorted_spec
    (∅ ∪ list_to_set (range_step (0 `max` (tip - RECENT_HOURS * BLOCKS_PER_HOUR))
                        (tip + 1) SAMPLE_RECENT)
       ∪ list_to_set (range_step (0 `max` (tip - HOURLY_DAYS * BLOCKS_PER_DAY))
                        (tip - RECENT_HOURS * BLOCKS_PER_HOUR) SAMPLE_HOURLY)
       ∪ list_to_set (range_step 0 (tip - HOURLY_DAYS * BLOCKS_PER_DAY) SAMPLE_DAILY)
       ∪ {[tip]})) as [Hs Hin].
  split; [done|]. intros h. rewrite Hin.
  rewrite !elem_of_union, !elem_of_list_to_set, elem_of_singleton.
  rewrite !elem_of_range_step by done.
  unfold sampled, RECENT_HOURS, BLOCKS_PER_HOUR, HOURLY_DAYS, BLOCKS_PER_DAY.
  change (24 * 60) with 1440. change (30 * 1440) with 43200.
  rewrite Z.sub_0_r. rewrite Z.mod_1_r.
  split.
  - intros [[[[H|H]|H]|H]|H].
    + by apply elem_of_empty in H.
    + right. left. lia.
    + right. right. left. destruct H as [[? ?] Hm]. split; [lia|]. split; [lia|done].
    + right. right. right. destruct H as [[? ?] Hm]. split; [lia|done].
    + by left.
  - intros [H|[H|[H|H]]].
    + by right.
    + left. left. left. right. lia.
    + left. left. right. destruct H as [? [? Hm]]. split; [lia|done].
    + left. right. destruct H as [? Hm]. split; [lia|done].
Qed.

(** X4. The heights the initial import samples for a tip are listed in
    strictly ascending order, the tip last, and they are exactly: the tip;
    every height from tip - 1440 to the tip that is not negative; below
    these every 60th height, counted from max(0, tip - 43200); and below
    tip - 43200 the multiples of 1440.  They are asked for in batches of
    20: no batch is empty or holds more than 20 heights, and the batches
    put one after the other are the list of sampled heights. *)
Theorem X_sample_heights_plan (tip : Z) :
  let bs := height_batches (sample_heights tip) 20 in
  StronglySorted Z.lt (sample_heights tip) /\
  (forall h, h ∈ sample_heights tip <-> sampled tip h) /\
  last (sample_heights tip) = Some tip /\
  concat bs = sample_heights tip /\
  Forall (fun b => (0 < length b <= 20)%nat) bs.
Proof.
  cbn zeta.
  destruct (sample_heights_spec tip) as [Hsorted Hin].
  split; [done|]. split; [done|].
  set (heights := sample_heights tip) in *.
  assert (Htip : tip ∈ heights) by (apply Hin; by left).
  assert (Hle : Forall (fun h => h <= tip) heights).
  { apply Forall_forall. intros h Hh.
    assert (Hs : sampled tip h).
    { by apply Hin. }
    unfold sampled in Hs. lia. }
  split; [by apply last_of_sorted|].
  rewrite height_batches_chunks by done.
  set (n := Z.of_nat (length heights)).
  assert (Hbound : n <= 20 * ((n + 20 - 1) / 20) < n + 20).
  { pose proof (Z.mul_div_le (n + 20 - 1) 20 ltac:(lia)).
    pose proof (Z.mul_succ_div_gt (n + 20 - 1) 20 ltac:(lia)). lia. }
  split.
  - apply chunks_concat. unfold n in *. lia.
  - apply Forall_forall. intros b Hb.
    assert (Hb' : b ∈ map (fun k => take (Z.to_nat 20) (drop (Z.to_nat 20 * k) heights))
                       (seq 0 (Z.to_nat ((n + 20 - 1) / 20)))).
    { exact Hb. }
    apply list_elem_of_fmap in Hb' as (k & -> & Hk%elem_of_seq).
    rewrite length_take, length_drop. unfold n in *. lia.
Qed.

(** ** What a fetch returns *)

(** X5. The fetch of a header never raises.  It returns a row exactly when
    the node answers the request with a non-empty object whose [height] and
    [total_difficulty] convert to integers and which has a [timestamp]; the
    row then carries the height the node reports, whatever height was asked
    for.  When the three attempts of the request all fail in transport, the
    fetch returns no row, after sleeping 1s and 2s. *)
Theorem X_fetch_header_outcome (env : Env) (height : Z) (w : World) :
  let req := rpc_request (NODE_URL env) "get_header" (by_height_params height)
               (API_SECRET env) in
  (exists o, fst (fetch_header env height w) = Ok o) /\
  (forall r,
     fst (fetch_header env height w) = Ok (Some r) <->
     exists data w1 h ts_str t diff,
       grin_rpc env "get_header" (by_height_params height) 3 w = (Ok data, w1) /\
       truthy data = true /\
       and_then (getitem data "height") (py_int env) = Ok h /\
       getitem data "timestamp" = Ok ts_str /\
       fst (parse_ts env ts_str w1) = Ok t /\
       and_then (getitem data "total_difficulty") (py_int env) = Ok diff /\
       r = (h, t, diff)) /\
  ((forall i, (i < 3)%nat -> urlopen env (length (trace w) + 2 * i) req = NetError) ->
   fetch_header env height w
   = (Ok None,
      push [EvUrlopen req; EvSleep 1; EvUrlopen req; EvSleep 2; EvUrlopen req] w)).
Proof.
  cbn zeta. split; [apply total_fetch_header|]. split.
  - intros r. unfold fetch_header, try_except, bind, lift, ret.
    destruct (grin_rpc env "get_header" (by_height_params height) 3 w)
      as [[data|e] w1] eqn:E.
    + destruct (truthy data) eqn:Et; simpl.
      2: { split; [discriminate|]. intros (? & ? & ? & ? & ? & ? & [= <- <-] & ? & _).
           congruence. }
      destruct (and_then (getitem data "height") (py_int env)) as [h|e1] eqn:Eh.
      2: { split; [by destruct (is_Exception e1)|].
           intros (? & ? & ? & ? & ? & ? & [= <- <-] & ? & ? & _). congruence. }
      destruct (getitem data "timestamp") as [ts_str|e2] eqn:Ets.
      2: { split; [by destruct (is_Exception e2)|].
           intros (? & ? & ? & ? & ? & ? & [= <- <-] & ? & ? & ? & _). congruence. }
      destruct (parse_ts env ts_str w1) as [[t|e3] w2] eqn:Ep.
      2: { split; [by destruct (is_Exception e3)|].
           intros (? & ? & ? & ? & ? & ? & [= <- <-] & ? & ? & Hts & Hp & _).
           rewrite Ets in Hts. injection Hts as <-. by rewrite Ep in Hp. }
      destruct (and_then (getitem data "total_difficulty") (py_int env))
        as [diff|e4] eqn:Ed.
      2: { split; [by destruct (is_Exception e4)|].
           intros (? & ? & ? & ? & ? & ? & [= <- <-] & ? & ? & ? & ? & ? & _). congruence. }
      simpl. split.
      * intros [= <-]. exists data, w1, h, ts_str, t, diff.
        rewrite Ep. done.
      * intros (? & ? & ? & ? & ? & ? & [= <- <-] & _ & H1 & H2 & Hp & H3 & ->).
        rewrite Eh in H1. rewrite Ets in H2. rewrite Ed in H3.
        injection H1 as <-. injection H2 as <-. injection H3 as <-.
        rewrite Ep in Hp. simpl in Hp. by injection Hp as <-.
    + split; [by destruct (is_Exception e)|].
      by intros (? & ? & ? & ? & ? & ? & ? & _).
  - intros Hfail. unfold fetch_header, try_except, bind, grin_rpc, _rpc.
    rewrite rpc_loop_exhausted; [reflexivity|lia|lia|done].
Qed.

Lemma tx_kernels_of_filter (kernels ks : list json) :
  tx_kernels_of kernels = Ok ks ->
  ks = List.filter (fun k => negb (is_coinbase k)) kernels.
Proof.
  revert ks. induction kernels as [|k rest IH]; intros ks; simpl.
  - by intros [= <-].
  - unfold is_coinbase.
    destruct (get k "features" JNull) as [f|e]; [|discriminate]. simpl.
    destruct (tx_kernels_of rest) as [ks'|e]; [|discriminate]. simpl.
    intros [= <-]. rewrite (IH ks' eq_refl).
    by destruct (is_str f "Coinbase").
Qed.

Lemma fees_of_sum env (ks : list json) : forall acc total,
  fees_of env ks acc = Ok total -> total = acc + sum (map (kernel_fee env) ks).
Proof.
  induction ks as [|k rest IH]; intros acc total; simpl.
  - intros [= <-]. unfold sum. simpl. lia.
  - unfold kernel_fee at 1.
    destruct (and_then (get k "fee" (JInt 0)) (py_int env)) as [fee|e]; [|discriminate].
    simpl. intros Hrest%IH. rewrite sum_cons. lia.
Qed.

(** X6. When the fetch of a full block returns a row, the node answered
    with a block whose kernels form a list; the transaction count of the
    row is the number of kernels that are not coinbase kernels, the fee
    total is the sum of the fees of these kernels alone, and the output
    count is not negative. *)
Theorem X_fetch_full_block_counts (env : Env) (height : Z) (w : World)
    (h ts txs fees outs : Z) :
  fst (fetch_full_block env height w) = Ok (Some (h, ts, txs, fees, outs)) ->
  exists data w1 kernels,
    grin_rpc env "get_block" (by_height_params height) 3 w = (Ok data, w1) /\
    and_then (get data "kernels" (JArr [])) iter = Ok kernels /\
    let paid := List.filter (fun k => negb (is_coinbase k)) kernels in
    txs = Z.of_nat (length paid) /\
    fees = sum (map (kernel_fee env) paid) /\
    0 <= outs.
Proof.
  unfold fetch_full_block, try_except, bind, lift, ret.
  destruct (grin_rpc env "get_block" (by_height_params height) 3 w)
    as [[data|e] w1] eqn:E; [|by destruct (is_Exception e)].
  destruct (truthy data); simpl; [|discriminate].
  destruct (get data "header" (JObj [])) as [header|e]; [|by destruct (is_Exception e)].
  destruct (get data "kernels" (JArr [])) as [kernels|e] eqn:Eg;
    [|by destruct (is_Exception e)].
  destruct (get data "outputs" (JArr [])) as [outputs|e]; [|by destruct (is_Exception e)].
  simpl.
  destruct (iter kernels) as [items|e] eqn:Ei; simpl; [|by destruct (is_Exception e)].
  destruct (tx_kernels_of items) as [ks|e] eqn:Ek; [|by destruct (is_Exception e)].
  destruct (fees_of env ks 0) as [total|e] eqn:Ef; [|by destruct (is_Exception e)].
  destruct (and_then (get header "height" (JInt height)) (py_int env)) as [h'|e];
    simpl; [|by destruct (is_Exception e)].
  destruct (get header "timestamp" (JStr "")) as [ts_str|e]; [|by destruct (is_Exception e)].
  destruct (parse_ts env ts_str w1) as [[t|e] w2]; [|by destruct (is_Exception e)].
  destruct (len outputs) as [n|e] eqn:El; [|by destruct (is_Exception e)].
  simpl. intros [= <- <- <- <- <-].
  exists data, w1, items. split; [done|]. split; [by rewrite Eg|]. cbn zeta.
  apply tx_kernels_of_filter in Ek. subst ks.
  apply fees_of_sum in Ef. split; [done|]. split; [lia|].
  destruct outputs; simpl in El; try discriminate; injection El as <-; lia.
Qed.

(** X6 on a block with a coinbase kernel and one kernel of fee 7. *)
Lemma X_fetch_full_block_witness :
  let block :=
    JObj [("header", JObj [("height", JInt 9); ("timestamp", JStr "2024-01-01T00:00:00")]);
          ("kernels", JArr [JObj [("features", JStr "Coinbase"); ("fee", JInt 0)];
                            JObj [("features", JStr "Plain"); ("fee", JInt 7)]]);
          ("outputs", JArr [JNull; JNull; JNull])] in
  let env := node_env (fun _ => 1704067300) (fun _ _ => rpc_ok block) in
  fst (fetch_full_block env 9 empty_world) = Ok (Some (9, 1704067200, 1, 7, 3)) /\
  exists data w1 kernels,
    grin_rpc env "get_block" (by_height_params 9) 3 empty_world = (Ok data, w1) /\
    and_then (get data "kernels" (JArr [])) iter = Ok kernels /\
    let paid := List.filter (fun k => negb (is_coinbase k)) kernels in
    1 = Z.of_nat (length paid) /\
    7 = sum (map (kernel_fee env) paid) /\
    0 <= 3.
Proof.
  cbn zeta. split; [vm_compute; reflexivity|].
  apply (X_fetch_full_block_counts _ 9 empty_world 9 1704067200 1 7 3).
  vm_compute. reflexivity.
Defined.

(** ** The cost of a JSON-RPC call *)

Lemma rpc_loop_budget env req retries : forall remaining attempt w,
  let w' := snd (rpc_loop env req retries attempt remaining w) in
  db w' = db w /\ files w' = files w /\
  exists evs,
    trace w' = trace w ++ evs /\
    Forall (fun ev => ev = EvUrlopen req \/ exists q, ev = EvSleep q) evs /\
    (requests_made evs <= remaining)%nat.
Proof.
  induction remaining as [|rest IH]; intros attempt w; cbn zeta.
  - simpl. split; [done|]. split; [done|]. exists []. by rewrite app_nil_r.
  - cbn [rpc_loop]. unfold try_except. rewrite rpc_attempt_run.
    assert (Hone : exists evs,
              trace (push [EvUrlopen req] w) = trace w ++ evs /\
              Forall (fun ev => ev = EvUrlopen req \/ exists q, ev = EvSleep q) evs /\
              (requests_made evs <= S rest)%nat).
    { exists [EvUrlopen req]. split; [done|]. split; [|unfold requests_made; simpl; lia].
      constructor; [by left|constructor]. }
    destruct (match urlopen env (length (trace w)) req with
              | NetError => Raise OSError
              | NotJson => Raise ValueError
              | Body data => rpc_result env data
              end) as [v|e]; [done|].
    destruct (is_OSError e); [|done].
    destruct (Nat.eqb attempt (retries - 1)); [done|].
    rewrite (bind_run (sleep (inject_Z (1 + Z.of_nat attempt))) _
               (push [EvUrlopen req] w) tt
               (push [EvUrlopen req; EvSleep (inject_Z (1 + Z.of_nat attempt))] w)).
    2: { unfold sleep, emit, push. simpl. by rewrite <- app_assoc. }
    destruct (IH (S attempt)
                (push [EvUrlopen req; EvSleep (inject_Z (1 + Z.of_nat attempt))] w))
      as (Hdb & Hfiles & evs & Ht & Hall & Hn).
    split; [done|]. split; [done|].
    exists ([EvUrlopen req; EvSleep (inject_Z (1 + Z.of_nat attempt))] ++ evs).
    split; [by rewrite Ht; simpl; rewrite <- app_assoc|]. split.
    + constructor; [by left|]. constructor; [right; by eexists|done].
    + unfold requests_made in *. simpl. lia.
Qed.

(** X7. A JSON-RPC call with a bound of [retries] attempts sends the
    request at most [retries] times, whatever the network does; between
    requests it only sleeps, and it changes neither the store nor the
    files.  With a bound of 0 it returns [None] at once, without a
    request. *)
Theorem X_rpc_request_budget (env : Env) (url method : string) (params : json)
    (secret : string) (retries : nat) (w : World) :
  let req := rpc_request url method params secret in
  let w' := snd (_rpc env url method params secret retries w) in
  db w' = db w /\ files w' = files w /\
  (exists evs,
     trace w' = trace w ++ evs /\
     Forall (fun ev => ev = EvUrlopen req \/ exists q, ev = EvSleep q) evs /\
     (requests_made evs <= retries)%nat) /\
  (retries = 0%nat -> _rpc env url method params secret retries w = (Ok JNull, w)).
Proof.
  cbn zeta. unfold _rpc.
  destruct (rpc_loop_budget env (rpc_request url method params secret) retries retries
              0%nat w) as (Hdb & Hfiles & Hevs).
  split; [done|]. split; [done|]. split; [done|]. by intros ->.
Qed.

(** ** Runs that do not get the tip *)

Lemma bind_raise {A B} (m : M A) (k : A -> M B) w e w1 :
  m w = (Raise e, w1) -> bind m k w = (Raise e, w1).
Proof. intros H. unfold bind. by rewrite H. Qed.

(** X8. Both the incremental update and the initial import stop at the
    request for the tip when it gives nothing to work with, in the world
    that request left.  If the request raises, the exception leaves the
    command as it is; if it returns an empty value, the command exits with
    status 1.  In particular, when the node cannot be reached the third
    transport failure is what is raised, not the exit; and when the node
    answers with an empty result, the command exits after that single
    request.  The request for the tip touches neither the store nor the
    files, so in all these cases they are as the command found them. *)
Theorem X_commands_without_tip (env : Env) (w : World) :
  let req := rpc_request (NODE_URL env) "get_tip" JNull (API_SECRET env) in
  let n0 := length (trace w) in
  let both_end := fun (r : Exc unit * World) =>
    cmd_update env w = r /\ cmd_init_history env w = r in
  (db (snd (grin_rpc env "get_tip" JNull 3 w)) = db w /\
   files (snd (grin_rpc env "get_tip" JNull 3 w)) = files w) /\
  (forall e w1, grin_rpc env "get_tip" JNull 3 w = (Raise e, w1) ->
     both_end (Raise e, w1)) /\
  (forall tip w1, grin_rpc env "get_tip" JNull 3 w = (Ok tip, w1) ->
     truthy tip = false -> both_end (Raise (SystemExit 1), w1)) /\
  ((forall i, (i < 3)%nat -> urlopen env (n0 + 2 * i) req = NetError) ->
   both_end
     (Raise OSError,
      push [EvUrlopen req; EvSleep 1; EvUrlopen req; EvSleep 2; EvUrlopen req] w)) /\
  (forall data tip, urlopen env n0 req = Body data ->
     rpc_result env data = Ok tip -> truthy tip = false ->
     both_end (Raise (SystemExit 1), push [EvUrlopen req] w)).
Proof.
  cbn zeta.
  assert (Hraise : forall e w1, grin_rpc env "get_tip" JNull 3 w = (Raise e, w1) ->
            cmd_update env w = (Raise e, w1) /\ cmd_init_history env w = (Raise e, w1)).
  { intros e w1 H. split.
    - unfold cmd_update. rewrite (bind_run (get_meta "last_height" 0) _ w _ w eq_refl).
      by apply bind_raise.
    - by apply bind_raise. }
  assert (Hempty : forall tip w1, grin_rpc env "get_tip" JNull 3 w = (Ok tip, w1) ->
            truthy tip = false ->
            cmd_update env w = (Raise (SystemExit 1), w1) /\
            cmd_init_history env w = (Raise (SystemExit 1), w1)).
  { intros tip w1 H Ht. split.
    - unfold cmd_update. rewrite (bind_run (get_meta "last_height" 0) _ w _ w eq_refl).
      rewrite (bind_run _ _ _ _ _ H). by rewrite Ht.
    - unfold cmd_init_history. rewrite (bind_run _ _ _ _ _ H). by rewrite Ht. }
  split.
  { destruct (rpc_loop_budget env
                (rpc_request (NODE_URL env) "get_tip" JNull (API_SECRET env)) 3 3 0 w)
      as (Hdb & Hfiles & _).
    done. }
  split; [done|]. split; [done|]. split.
  - intros Hfail. apply Hraise. unfold grin_rpc, _rpc.
    rewrite rpc_loop_exhausted; [reflexivity|lia|lia|done].
  - intros data tip Hbody Hres Ht. apply (Hempty tip); [|done].
    unfold grin_rpc, _rpc.
    rewrite (rpc_loop_response env _ 3 0 0 3 w data); [by rewrite Hres|lia|lia|intros; lia|].
    by rewrite Nat.add_0_r.
Qed.

(** ** The initial import *)

Lemma elem_of_height_batches heights size b h :
  b ∈ height_batches heights size -> h ∈ b -> h ∈ heights.
Proof.
  unfold height_batches, slice. intros (i & -> & _)%list_elem_of_fmap Hh.
  by apply subseteq_take, subseteq_drop in Hh.
Qed.

Lemma fetch_batches_run env bs : forall acc w,
  exists rows,
    fetch_batches env bs acc w = (Ok rows, snd (fetch_batches env bs acc w)) /\
    db (snd (fetch_batches env bs acc w)) = db w /\
    forall r, r ∈ rows ->
      r ∈ acc \/
      exists b h w0, b ∈ bs /\ h ∈ b /\ fst (fetch_header env h w0) = Ok (Some r).
Proof.
  induction bs as [|b rest IH]; intros acc w; simpl.
  - exists acc. split; [done|]. split; [done|]. by left.
  - destruct (fetch_headers_batch_run env b 8 w) as (rows & Hrun & _ & _ & Hin).
    pose proof (fetch_headers_batch_reads env b 8 w) as Hdb%extends_eq_db.
    rewrite (bind_run _ _ _ _ _ Hrun).
    destruct (IH (acc ++ rows) (snd (fetch_headers_batch env b 8 w)))
      as (all & Hall & Hdb' & Hin').
    exists all. split; [done|]. split; [congruence|].
    intros r [[Hr|Hr]%elem_of_app|(b' & h & w0 & Hb' & Hh & Hf)]%Hin'.
    + by left.
    + right. destruct (Hin r Hr) as (h & w0 & Hh & Hf).
      exists b, h, w0. split; [left|done].
    + right. exists b', h, w0. split; [by right|done].
Qed.

Lemma rate_after_headers p phr rows : map rated_header (rate_after p phr rows) = rows.
Proof.
  revert p phr. induction rows as [|r rows IH]; intros p phr; simpl; [done|].
  by rewrite IH.
Qed.

Lemma calc_hashrate_headers rows : map rated_header (calc_hashrate rows) = rows.
Proof.
  destruct rows as [|r rows]; [done|].
  rewrite calc_hashrate_cons. simpl. by rewrite rate_after_headers.
Qed.

Lemma with_buckets_rows env rated : forall w to_insert w',
  with_buckets env rated w = (Ok to_insert, w') ->
  map (fun hr => (fst hr, b_timestamp (snd hr), b_total_diff (snd hr), b_hashrate (snd hr)))
    to_insert
  = rated.
Proof.
  induction rated as [|[[[h ts] diff] hr] rest IH]; intros w to_insert w'; simpl.
  - by intros [= <- <-].
  - rewrite (bind_run _ _ _ _ _ (assign_bucket_run env ts w)).
    unfold bind at 1.
    destruct (with_buckets env rest (push [EvClock] w)) as [[rs|e] w2] eqn:E;
      [|discriminate].
    intros [= <- <-]. simpl. by rewrite (IH _ _ _ E).
Qed.

Lemma lookup_insert_rows_Some rows (b : gmap Z BlockRow) h r :
  insert_rows rows b !! h = Some r -> (h, r) ∈ rows \/ b !! h = Some r.
Proof.
  unfold insert_rows. revert b.
  induction rows as [|[h' r'] rows IH]; intros b; simpl; [by right|].
  intros [Hin|Hb]%IH; [left; by right|].
  destruct (decide (h' = h)) as [->|Hne].
  - rewrite lookup_insert_eq in Hb. injection Hb as <-. left. by left.
  - rewrite lookup_insert_ne in Hb by done. by right.
Qed.

(** What follows the block phase of either command: it never fails and
    leaves [blocks] and [meta] as they are. *)
Lemma stats_peers_export env start stop w :
  let m := (_fetch_block_stats_range env start stop 4 ;;
            _update_peers env ;; export_all_json env)%M in
  m w = (Ok tt, snd (m w)) /\
  blocks (db (snd (m w))) = blocks (db w) /\ meta (db (snd (m w))) = meta (db w).
Proof.
  cbn zeta. split.
  - match goal with |- ?m w = _ => destruct (total_run m w) as [[] H]; [|done] end.
    apply total_bind; [apply total_fetch_block_stats_range|]. intros _.
    apply total_bind; [apply total_update_peers|]. intros _.
    apply total_export_all_json.
  - set (okdb := fun d d' : DB => blocks d' = blocks d /\ meta d' = meta d).
    assert (Hrefl : forall d, okdb d d) by done.
    assert (Htrans : forall a b c, okdb a b -> okdb b c -> okdb a c).
    { unfold okdb. intros a b c [? ?] [? ?]. split; congruence. }
    assert (Hf : frame (fun _ => True) okdb
                   (_fetch_block_stats_range env start stop 4 ;;
                    _update_peers env ;; export_all_json env)%M).
    { apply frame_bind; [done| |intros _; apply frame_bind; [done| |intros _]].
      - by apply frame_fetch_block_stats_range with (ok_method := fun _ => True).
      - by apply frame_update_peers with (ok_method := fun _ => True).
      - by apply frame_export_all_json. }
    by destruct (Hf w) as [[? ?] _].
Qed.

Lemma calc_hashrate_nonneg rows x : x ∈ calc_hashrate rows -> (0 <= rated_hashrate x)%Q.
Proof.
  destruct rows as [|r rows]; [by intros ?%elem_of_nil|].
  rewrite calc_hashrate_cons. intros [->|Hin]%elem_of_cons; [done|].
  eapply rate_after_nonneg; [|done]. apply Qle_refl.
Qed.

(** X9. Let the node answer [get_tip] with a height.  The initial import
    then returns normally and records the tip as last_height.  The blocks
    table is rebuilt from nothing: every row it holds afterwards, at
    whatever height, carries the height, timestamp and difficulty of a
    header that the fetch of one of the sampled heights returned, and a
    hashrate that is not negative, whatever the table held before the
    run. *)
Theorem X_init_history_rebuilds_blocks
    (env : Env) (w w1 : World) (tip : json) (tip_height : Z) :
  grin_rpc env "get_tip" JNull 3 w = (Ok tip, w1) ->
  truthy tip = true ->
  and_then (getitem tip "height") (py_int env) = Ok tip_height ->
  let w' := snd (cmd_init_history env w) in
  fst (cmd_init_history env w) = Ok tt /\
  meta (db w') !! "last_height" = Some tip_height /\
  forall h r, blocks (db w') !! h = Some r ->
    (0 <= b_hashrate r)%Q /\
    exists h0 w0,
      h0 ∈ sample_heights tip_height /\
      fst (fetch_header env h0 w0) = Ok (Some (h, b_timestamp r, b_total_diff r)).
Proof.
  intros Htip Htruthy Hheight. cbn zeta.
  unfold cmd_init_history.
  rewrite (bind_run _ _ _ _ _ Htip). rewrite Htruthy. cbn [negb].
  rewrite (bind_run (lift (and_then (getitem tip "height") (py_int env))) _ w1
             tip_height w1) by (unfold lift; by rewrite Hheight).
  rewrite (bind_run (now_ts env) _ w1 _ _ (int_time_run env w1)).
  remember (sample_heights tip_height) as heights eqn:Hheights.
  destruct (fetch_batches_run env (height_batches heights 20) [] (push [EvClock] w1))
    as (rows_all & Hrun & _ & Hin).
  rewrite (bind_run _ _ _ _ _ Hrun).
  set (w2 := snd (fetch_batches env (height_batches heights 20) [] (push [EvClock] w1))).
  set (rated := calc_hashrate (sort_by header_height rows_all)).
  set (w3 := mkWorld (with_blocks (fun _ => ∅) (db w2)) (files w2) (trace w2)).
  rewrite (bind_run (execute (with_blocks (fun _ => ∅))) _ w2 tt w3 eq_refl).
  destruct (total_run _ w3 (total_with_buckets env rated)) as [to_insert Hins].
  rewrite (bind_run _ _ _ _ _ Hins).
  set (w4 := snd (with_buckets env rated w3)) in *.
  pose proof (with_buckets_reads env rated w3) as Hdb4%extends_eq_db. fold w4 in Hdb4.
  set (w5 := mkWorld
               (with_meta (insert "last_updated" (clock env (length (trace w4))))
                  (with_meta (insert "last_height" tip_height)
                     (insert_blocks to_insert (db w4))))
               (files w4) (trace w4 ++ [EvClock])).
  assert (Hstmts : forall (k : M unit),
    (execute (insert_blocks to_insert) ;;
     set_meta "last_height" tip_height ;;
     now' <- now_ts env ;;
     set_meta "last_updated" now' ;; k)%M w4 = k w5) by reflexivity.
  rewrite Hstmts.
  destruct (stats_peers_export env (tip_height - 90 * BLOCKS_PER_DAY) tip_height w5)
    as (Hok & Hblocks & Hmeta).
  cbn zeta in Hok, Hblocks, Hmeta.
  rewrite Hok. split; [done|]. cbn [snd]. rewrite Hblocks, Hmeta.
  unfold w5. cbn [db]. split.
  { simpl. rewrite lookup_insert_ne by done. by rewrite lookup_insert_eq. }
  intros h r Hr.
  assert (Hrow : (h, r) ∈ to_insert).
  { simpl in Hr. rewrite Hdb4 in Hr. unfold w3 in Hr. simpl in Hr.
    apply lookup_insert_rows_Some in Hr as [?|Hr]; [done|].
    by rewrite lookup_empty in Hr. }
  assert (Hrated : (h, b_timestamp r, b_total_diff r, b_hashrate r) ∈ rated).
  { rewrite <- (with_buckets_rows _ _ _ _ _ Hins).
    by apply (list_elem_of_fmap_2
                (fun hr : Z * BlockRow =>
                   (fst hr, b_timestamp (snd hr), b_total_diff (snd hr),
                    b_hashrate (snd hr))) to_insert (h, r)). }
  split; [by apply (calc_hashrate_nonneg _ _ Hrated)|].
  assert (Hhdr : (h, b_timestamp r, b_total_diff r) ∈ rows_all).
  { apply (elem_of_sort_by header_height).
    rewrite <- (calc_hashrate_headers (sort_by header_height rows_all)).
    by apply (list_elem_of_fmap_2 rated_header _ _ Hrated). }
  destruct (Hin _ Hhdr) as [Hnil|(b & h0 & w0 & Hb & Hh0 & Hf)];
    [by apply elem_of_nil in Hnil|].
  exists h0, w0. split; [|done]. by eapply elem_of_height_batches.
Qed.

(** X9 on an empty chain: the tip is height 0, and the header of height 0
    is the one row of the table afterwards. *)
Lemma X_init_history_witness :
  let env :=
    node_env (fun _ => 1704067300)
      (fun method _ =>
         if String.eqb method "get_tip" then rpc_ok (JObj [("height", JInt 0)])
         else if String.eqb method "get_header"
         then rpc_ok (JObj [("height", JInt 0); ("timestamp", JStr "2024-01-01T00:00:00");
                            ("total_difficulty", JInt 5)])
         else NetError) in
  let w := one_block_world 77 (mkBlock 0 100 0 Recent) in
  let w' := snd (cmd_init_history env w) in
  fst (cmd_init_history env w) = Ok tt /\
  meta (db w') !! "last_height" = Some 0 /\
  blocks (db w') = {[ 0 := mkBlock 1704067200 5 0 Recent ]}.
Proof.
  cbn zeta.
  match goal with
  | |- fst (cmd_init_history ?env ?w) = _ /\ _ =>
      pose proof (X_init_history_rebuilds_blocks env w
                    (push [EvUrlopen (rpc_request (NODE_URL env) "get_tip" JNull
                                        (API_SECRET env))] w)
                    (JObj [("height", JInt 0)]) 0
                    ltac:(vm_compute; reflexivity) eq_refl eq_refl) as (Hok & Hmeta & _)
  end.
  split; [exact Hok|]. split; [exact Hmeta|].
  vm_compute. reflexivity.
Defined.

(** ** What an update records *)

Lemma ensures_bind {A B} (Q : World -> Prop) (m : M A) (k : A -> M B) :
  total m -> (forall a, ensures Q (k a)) -> ensures Q (bind m k).
Proof.
  intros Hm Hk w. unfold bind. destruct (Hm w) as [a Ha].
  destruct (m w) as [r w']. simpl in Ha. subst r. apply Hk.
Qed.

Lemma total_append_hashrate rows last_height : total (_append_hashrate rows last_height).
Proof.
  intros w. destruct (append_hashrate_run rows last_height w) as [rated H].
  exists rated. by rewrite H.
Qed.

(** The part of either command that follows the block phase and the block
    statistics: it never fails, asks nothing about the chain and touches
    none of [blocks], [block_stats] and [meta]. *)
Lemma peers_export_chain env w :
  let m := (_update_peers env ;; export_all_json env)%M in
  m w = (Ok tt, snd (m w)) /\
  extends (fun ev => is_chain_request ev = false) same_chain_data w (snd (m w)).
Proof.
  cbn zeta. split; [apply peers_and_export|].
  assert (Hrefl : forall d, same_chain_data d d) by done.
  assert (Htrans : forall a b c,
            same_chain_data a b -> same_chain_data b c -> same_chain_data a c).
  { unfold same_chain_data. intros a b c (? & ? & ?) (? & ? & ?).
    repeat split; congruence. }
  apply (frame_bind (fun ev => is_chain_request ev = false) same_chain_data Htrans).
  - apply frame_update_peers
      with (ok_method := fun m => m <> "get_tip" /\ m <> "get_header" /\ m <> "get_block");
      try done.
    intros url method params auth (H1 & H2 & H3). unfold is_chain_request. simpl.
    apply orb_false_intro; [|apply orb_false_intro]; by apply String.eqb_neq.
  - intros _. by apply frame_export_all_json.
Qed.

(** The update once the tip is known. *)
Lemma cmd_update_unfold env w w1 tip tip_height :
  grin_rpc env "get_tip" JNull 3 w = (Ok tip, w1) ->
  truthy tip = true ->
  and_then (getitem tip "height") (py_int env) = Ok tip_height ->
  let last_height := default 0 (meta (db w) !! "last_height") in
  cmd_update env w
  = ((if tip_height <=? last_height then ret tt
      else
        (rows <- fetch_headers_batch env (range (last_height + 1) (tip_height + 1)) 4 ;;
         let rows := sort_by header_height rows in
         rows_with_hr <- _append_hashrate rows last_height ;;
         to_insert <- with_buckets env rows_with_hr ;;
         execute (insert_blocks to_insert) ;;
         now1 <- now_ts env ;;
         execute (rebucket Recent Hourly (now1 - RECENT_HOURS * 3600)) ;;
         now2 <- now_ts env ;;
         execute (rebucket Hourly Daily (now2 - HOURLY_DAYS * 86400)) ;;
         set_meta "last_height" tip_height ;;
         now3 <- now_ts env ;;
         set_meta "last_updated" now3 ;;
         _fetch_block_stats_range env (last_height + 1) tip_height 4)) ;;
     _update_peers env ;; export_all_json env)%M w1.
Proof.
  intros Htip Htruthy Hheight. cbn zeta.
  unfold cmd_update. unfold bind at 1. unfold get_meta, query.
  unfold bind at 1. rewrite Htip, Htruthy. simpl negb. cbv iota.
  unfold bind at 1. unfold lift. rewrite Hheight. reflexivity.
Qed.

Lemma block_phase_last_height env last_height tip_height :
  ensures (fun w => meta (db w) !! "last_height" = Some tip_height)
    (rows <- fetch_headers_batch env (range (last_height + 1) (tip_height + 1)) 4 ;;
     let rows := sort_by header_height rows in
     rows_with_hr <- _append_hashrate rows last_height ;;
     to_insert <- with_buckets env rows_with_hr ;;
     execute (insert_blocks to_insert) ;;
     now1 <- now_ts env ;;
     execute (rebucket Recent Hourly (now1 - RECENT_HOURS * 3600)) ;;
     now2 <- now_ts env ;;
     execute (rebucket Hourly Daily (now2 - HOURLY_DAYS * 86400)) ;;
     set_meta "last_height" tip_height ;;
     now3 <- now_ts env ;;
     set_meta "last_updated" now3 ;;
     _fetch_block_stats_range env (last_height + 1) tip_height 4)%M.
Proof.
  apply ensures_bind; [apply total_fetch_headers_batch|]. intros rows. cbn zeta.
  apply ensures_bind; [apply total_append_hashrate|]. intros rated.
  apply ensures_bind; [apply total_with_buckets|]. intros to_insert.
  apply ensures_bind; [apply total_execute|]. intros _.
  apply ensures_bind; [apply total_int_time|]. intros now1.
  apply ensures_bind; [apply total_execute|]. intros _.
  apply ensures_bind; [apply total_int_time|]. intros now2.
  apply ensures_bind; [apply total_execute|]. intros _.
  intros w.
  set (okdb := fun d d' : DB => meta d' !! "last_height" = meta d !! "last_height").
  assert (Hrefl : forall d, okdb d d) by done.
  assert (Htrans : forall a b c, okdb a b -> okdb b c -> okdb a c).
  { unfold okdb. congruence. }
  assert (Hf : frame (fun _ => True) okdb
                 (now3 <- now_ts env ;;
                  set_meta "last_updated" now3 ;;
                  _fetch_block_stats_range env (last_height + 1) tip_height 4)%M).
  { apply frame_bind; [done|by apply frame_int_time|]. intros now3.
    apply frame_bind; [done| |intros _].
    - apply frame_execute. intros d. unfold okdb. simpl. by rewrite lookup_insert_ne.
    - by apply frame_fetch_block_stats_range with (ok_method := fun _ => True). }
  rewrite (bind_run (set_meta "last_height" tip_height) _ w tt _ eq_refl).
  match goal with |- context [snd (_ ?w0)] => destruct (Hf w0) as [Hm _] end.
  unfold okdb in Hm. rewrite Hm. simpl. by rewrite lookup_insert_eq.
Qed.

(** X10. Let the node answer [get_tip] with a height.  An update that
    finds the tip ahead of last_height records the tip as last_height
    whatever the fetches of the headers in between returned, so that a
    height whose fetch failed is not asked for by a later update.  An update
    that finds the tip not ahead leaves the whole meta table, last_updated
    included, and the block statistics as they were. *)
Theorem X_update_records_tip (env : Env) (w w1 : World) (tip : json) (tip_height : Z) :
  grin_rpc env "get_tip" JNull 3 w = (Ok tip, w1) ->
  truthy tip = true ->
  and_then (getitem tip "height") (py_int env) = Ok tip_height ->
  let last_height := default 0 (meta (db w) !! "last_height") in
  let w' := snd (cmd_update env w) in
  (last_height < tip_height -> meta (db w') !! "last_height" = Some tip_height) /\
  (tip_height <= last_height ->
   meta (db w') = meta (db w) /\ block_stats (db w') = block_stats (db w)).
Proof.
  intros Htip Htruthy Hheight. cbn zeta.
  rewrite (cmd_update_unfold env w w1 tip tip_height Htip Htruthy Hheight). cbn zeta.
  assert (Hdb1 : db w1 = db w).
  { pose proof (frame_grin_rpc (fun _ => True) eq ltac:(done) ltac:(congruence)
                  ltac:(done) (fun _ => True) ltac:(done) env "get_tip" JNull 3%nat I w)
      as [Hd _].
    by rewrite Htip in Hd. }
  destruct (Z.leb_spec tip_height (default 0 (meta (db w) !! "last_height")))
    as [Hle|Hlt].
  - split; [lia|]. intros _.
    rewrite (bind_run (ret tt) _ w1 tt w1 eq_refl).
    destruct (peers_export_chain env w1) as [_ [(_ & Hs & Hm) _]].
    cbn zeta in Hs, Hm. by rewrite Hs, Hm, Hdb1.
  - split; [|lia]. intros _.
    pose proof (block_phase_last_height env (default 0 (meta (db w) !! "last_height"))
                  tip_height w1) as Hmeta.
    destruct (ingest_run env (default 0 (meta (db w) !! "last_height")) tip_height w1)
      as (to_insert & k1 & _ & Hphase & _).
    cbn zeta in Hphase, Hmeta.
    rewrite (bind_run _ _ _ _ _ Hphase).
    match type of Hphase with _ = (_, snd ?x) => set (w5 := snd x) in * end.
    destruct (peers_export_chain env w5) as [_ [(_ & _ & Hm) _]].
    cbn zeta in Hm. by rewrite Hm.
Qed.

(** X10 where the tip is 5, last_height is 3 and no header can be
    fetched: last_height becomes 5 and the table gets no row. *)
Lemma X_update_records_tip_witness :
  let env := tip_only_env 5 200000 in
  let w := one_block_world 3 (mkBlock 199000 100 0 Recent) in
  let w' := snd (cmd_update env w) in
  default 0 (meta (db w) !! "last_height") < 5 /\
  meta (db w') !! "last_height" = Some 5 /\
  blocks (db w') = blocks (db w).
Proof.
  cbn zeta.
  match goal with
  | |- _ /\ meta (db (snd (cmd_update ?env ?w))) !! _ = _ /\ _ =>
      pose proof (X_update_records_tip env w
                    (push [EvUrlopen (rpc_request (NODE_URL env) "get_tip" JNull
                                        (API_SECRET env))] w)
                    (JObj [("height", JInt 5)]) 5
                    ltac:(vm_compute; reflexivity) eq_refl eq_refl) as [Hahead _]
  end.
  assert (Hlt : default 0 (meta (db (one_block_world 3 (mkBlock 199000 100 0 Recent)))
                             !! "last_height") < 5) by (vm_compute; reflexivity).
  split; [exact Hlt|]. split; [exact (Hahead Hlt)|].
  vm_compute. reflexivity.
Defined.

(** ** The entry point *)

(** X11. With [--peers-only] the program returns normally, sends no
    request for the tip, a header or a block, and leaves the tables blocks,
    block_stats and meta as they were. *)
Theorem X_main_peers_only (env : Env) (args : Args) (w : World) :
  init_db args = false -> init_history args = false -> peers_only args = true ->
  let w' := snd (main env args w) in
  fst (main env args w) = Ok tt /\
  same_chain_data (db w) (db w') /\
  exists evs, trace w' = trace w ++ evs /\
              Forall (fun ev => is_chain_request ev = false) evs.
Proof.
  unfold main. intros -> -> ->. cbn zeta.
  destruct (peers_export_chain env w) as [Hrun [Hdb Hev]]. cbn zeta in Hrun, Hdb, Hev.
  rewrite Hrun. done.
Qed.

(** X11 with no node running, on a store with one block. *)
Lemma X_main_peers_only_witness :
  let args := mkArgs false false false true in
  let w := one_block_world 3 (mkBlock 199000 100 0 Recent) in
  let w' := snd (main (offline_env 200000) args w) in
  fst (main (offline_env 200000) args w) = Ok tt /\
  same_chain_data (db w) (db w') /\
  exists evs, trace w' = trace w ++ evs /\
              Forall (fun ev => is_chain_request ev = false) evs.
Proof.
  exact (X_main_peers_only (offline_env 200000) (mkArgs false false false true)
           (one_block_world 3 (mkBlock 199000 100 0 Recent)) eq_refl eq_refl eq_refl).
Defined.

(** ** Geolocation in batches *)

Lemma batches_spec (size : nat) : forall fuel l,
  (0 < size)%nat -> (length l <= fuel)%nat ->
  concat (batches fuel size l) = l /\
  Forall (fun b => (0 < length b <= size)%nat) (batches fuel size l).
Proof.
  induction fuel as [|fuel IH]; intros l Hsize Hlen.
  - destruct l; [done|simpl in Hlen; lia].
  - destruct l as [|x l]; [done|].
    cbn [batches].
    destruct (IH (drop size (x :: l)) Hsize) as [Hcat Hall].
    { rewrite length_drop. simpl in *. lia. }
    split.
    + cbn [concat]. rewrite Hcat. apply take_drop.
    + constructor; [|done]. rewrite length_take. simpl length. lia.
Qed.

Lemma geo_requests_app evs1 evs2 :
  geo_requests (evs1 ++ evs2) = geo_requests evs1 ++ geo_requests evs2.
Proof.
  induction evs1 as [|ev evs1 IH]; [done|].
  destruct ev as [|[url method params auth|ips]| | |]; simpl; by rewrite ?IH.
Qed.

Lemma geo_batch_requests env batch geo_map w :
  exists evs,
    trace (snd (geo_batch env batch geo_map w)) = trace w ++ evs /\
    geo_requests evs = [batch].
Proof.
  unfold geo_batch, try_except. unfold bind at 1. unfold bind at 1.
  rewrite urlopen_json_run.
  destruct (urlopen env (length (trace w)) (GeoRequest batch)) as [| |data]; simpl;
    try (by exists [EvUrlopen (GeoRequest batch)]).
  destruct (iter data) as [items|e]; [|by exists [EvUrlopen (GeoRequest batch)]].
  destruct (collect_geo items geo_map) as [m [e|]].
  - by exists [EvUrlopen (GeoRequest batch)].
  - exists [EvUrlopen (GeoRequest batch); EvSleep (3 # 2)]. simpl.
    by rewrite <- app_assoc.
Qed.

Lemma geolocate_batches_requests env bs : forall geo_map w,
  exists evs,
    trace (snd (geolocate_batches env bs geo_map w)) = trace w ++ evs /\
    geo_requests evs = bs.
Proof.
  induction bs as [|b rest IH]; intros geo_map w; simpl.
  - exists []. by rewrite app_nil_r.
  - destruct (geo_batch_requests env b geo_map w) as (evs1 & Ht1 & Hr1).
    destruct (total_run _ w (total_geo_batch env b geo_map)) as [m Hrun].
    rewrite (bind_run _ _ _ _ _ Hrun).
    destruct (IH m (snd (geo_batch env b geo_map w))) as (evs2 & Ht2 & Hr2).
    exists (evs1 ++ evs2). split.
    + by rewrite Ht2, Ht1, app_assoc.
    + by rewrite geo_requests_app, Hr1, Hr2.
Qed.

(** X12. Geolocation sends the IPs of the peers in batches of at most 100,
    none of them empty; taken together the batches hold every IP of the
    peers, and none twice. *)
Theorem X_geolocate_batches (env : Env) (all_peers : list Peer) (w : World) :
  exists evs,
    trace (snd (geolocate env all_peers w)) = trace w ++ evs /\
    Forall (fun b => (0 < length b <= 100)%nat) (geo_requests evs) /\
    NoDup (concat (geo_requests evs)) /\
    forall ip, ip ∈ concat (geo_requests evs) <-> exists p, p ∈ all_peers /\ p_ip p = ip.
Proof.
  unfold geolocate.
  destruct (geolocate_batches_requests env
              (batches (length (remove_dups (map p_ip all_peers))) GEO_BATCH
                 (remove_dups (map p_ip all_peers))) ∅ w) as (evs & Ht & Hr).
  destruct (batches_spec GEO_BATCH (length (remove_dups (map p_ip all_peers)))
              (remove_dups (map p_ip all_peers))) as [Hcat Hall];
    [unfold GEO_BATCH; lia|done|].
  exists evs. rewrite Hr, Hcat. split; [done|]. split; [done|].
  split; [apply NoDup_remove_dups|].
  intros ip. rewrite elem_of_remove_dups, list_elem_of_fmap. split.
  - intros (p & -> & Hp). by exists p.
  - intros (p & Hp & <-). by exists p.
Qed.

(** ** Re-bucketing against the classifier *)

(** X13. The two re-bucketing statements of an update, with both cut-offs
    taken at the same second [now], against the classifier at [now].  A row
    never moves to a younger tier: daily stays daily and hourly never
    becomes recent, whatever its age.  A recent row ends in the tier the
    classifier gives its age, except at the boundaries: at an age of exactly
    24h it stays recent where the classifier says hourly, and an hourly row
    at an age of exactly 30d stays hourly where the classifier says daily.
    Timestamp, difficulty and hashrate are never changed. *)
Theorem X_rebucket_versus_classifier (now : Z) (r : BlockRow) :
  let age := now - b_timestamp r in
  let r' := rebucket_row Hourly Daily (now - HOURLY_DAYS * 86400)
              (rebucket_row Recent Hourly (now - RECENT_HOURS * 3600) r) in
  (b_timestamp r' = b_timestamp r /\ b_total_diff r' = b_total_diff r /\
   b_hashrate r' = b_hashrate r) /\
  (b_bucket r = Daily -> b_bucket r' = Daily) /\
  (b_bucket r = Hourly -> b_bucket r' <> Recent) /\
  (b_bucket r = Recent -> age <> 24 * 3600 -> age <> 30 * 86400 ->
   b_bucket r' = bucket_of_age age) /\
  (b_bucket r = Recent -> age = 24 * 3600 ->
   b_bucket r' = Recent /\ bucket_of_age age = Hourly) /\
  (b_bucket r = Hourly -> age = 30 * 86400 ->
   b_bucket r' = Hourly /\ bucket_of_age age = Daily).
Proof.
  cbn zeta. unfold rebucket_row, bucket_of_age, HOURLY_DAYS, RECENT_HOURS.
  destruct r as [ts diff hr b]. simpl.
  destruct b; simpl;
    repeat match goal with
           | |- context [?a <? ?b] => destruct (Z.ltb_spec a b); simpl
           end;
    repeat split; intros; try done; try lia.
Qed.

(** ** The transaction and fee series *)

Lemma sum_map_to_list_insert (m : gmap Z Z) k v :
  sum (map snd (map_to_list (<[k := default 0 (m !! k) + v]> m)))
  = sum (map snd (map_to_list m)) + v.
Proof.
  destruct (m !! k) as [y|] eqn:E; simpl.
  - rewrite <- insert_delete_eq.
    rewrite (sum_perm _ (map snd ((k, y + v) :: map_to_list (delete k m)))).
    2: { apply Permutation_map, map_to_list_insert, lookup_delete_eq. }
    rewrite (sum_perm (map snd (map_to_list m))
               (map snd ((k, y) :: map_to_list (delete k m)))).
    2: { apply Permutation_map. symmetry. by apply map_to_list_delete. }
    simpl. rewrite !sum_cons. lia.
  - rewrite (sum_perm _ (map snd ((k, 0 + v) :: map_to_list m))).
    2: { by apply Permutation_map, map_to_list_insert. }
    simpl. rewrite sum_cons. lia.
Qed.

Lemma group_sum_total width rows :
  sum (map snd (group_sum width rows)) = sum (map snd rows).
Proof.
  unfold group_sum. cbn zeta.
  rewrite (sum_perm _ _ (Permutation_map snd (sort_by_perm fst _))).
  assert (H : forall m : gmap Z Z,
    sum (map snd (map_to_list
      (fold_left (fun (m : gmap Z Z) (r : Z * Z) =>
                    <[Z.quot (fst r) width * width
                      := default 0 (m !! (Z.quot (fst r) width * width)) + snd r]> m)
         rows m)))
    = sum (map snd (map_to_list m)) + sum (map snd rows)).
  { induction rows as [|r rows IH]; intros m; cbn [fold_left map].
    - change (sum []) with 0. lia.
    - rewrite IH, sum_map_to_list_insert, sum_cons. lia. }
  rewrite H. by rewrite map_to_list_empty.
Qed.

Lemma group_sum_keys width rows :
  StronglySorted (fun a b => fst a < fst b) (group_sum width rows) /\
  Forall (fun p => exists r, r ∈ rows /\ fst p = Z.quot (fst r) width * width)
    (group_sum width rows).
Proof.
  unfold group_sum. cbn zeta. split.
  - apply strictly_sorted_by; [apply sort_by_sorted|].
    rewrite (sort_by_perm fst). apply NoDup_fst_map_to_list.
  - apply Forall_forall. intros [k v] Hkv.
    apply elem_of_sort_by, elem_of_map_to_list in Hkv.
    assert (H : forall m : gmap Z Z,
      is_Some (fold_left (fun (m : gmap Z Z) (r : Z * Z) =>
                 <[Z.quot (fst r) width * width
                   := default 0 (m !! (Z.quot (fst r) width * width)) + snd r]> m)
                 rows m !! k) ->
      is_Some (m !! k) \/ exists r, r ∈ rows /\ k = Z.quot (fst r) width * width).
    { clear Hkv. induction rows as [|r rows IH]; intros m; simpl; [by left|].
      intros [Hm|(r' & Hr' & ->)]%IH.
      - destruct (decide (Z.quot (fst r) width * width = k)) as [<-|Hne].
        + right. exists r. split; [left|done].
        + rewrite lookup_insert_ne in Hm by done. by left.
      - right. exists r'. split; [by right|done]. }
    destruct (H ∅ (mk_is_Some _ _ Hkv)) as [[? Hempty]|Hr]; [|done].
    by rewrite lookup_empty in Hempty.
Qed.

Lemma sum_three_windows (c1 c2 : Z) (rows : list (Z * Z)) :
  c2 <= c1 ->
  sum (map snd (List.filter (fun r => fst r <? c2) rows))
  + sum (map snd (List.filter (fun r => (c2 <=? fst r) && (fst r <? c1)) rows))
  + sum (map snd (List.filter (fun r => c1 <=? fst r) rows))
  = sum (map snd rows).
Proof.
  intros Hc. induction rows as [|[t v] rows IH]; [done|].
  simpl. rewrite sum_cons. simpl.
  destruct (Z.ltb_spec t c2), (Z.leb_spec c2 t), (Z.ltb_spec t c1), (Z.leb_spec c1 t);
    simpl; rewrite ?sum_cons; simpl; lia.
Qed.

(** X14. The transaction document and the fee document each have three
    series.  Every stored block statistic is counted in exactly one of
    them: the values of the three series add up to the total of the column
    over the whole table.  The daily and hourly series are in strictly
    ascending order of their timestamps, which are multiples of 86400 and
    of 3600; the recent series is in ascending order. *)
Theorem X_txfee_series_conserve (col : StatRow -> Z) (ts_now : Z) (d : DB) :
  exists daily hourly recent,
    txfee_doc col ts_now d
    = JObj [("updated", JInt ts_now); ("daily", points daily);
            ("hourly", points hourly); ("recent", points recent)] /\
    sum (map snd daily) + sum (map snd hourly) + sum (map snd recent)
    = sum (map snd (stat_rows col d)) /\
    StronglySorted (fun a b => fst a < fst b) daily /\
    StronglySorted (fun a b => fst a < fst b) hourly /\
    StronglySorted (by_key fst) recent /\
    Forall (fun p => fst p mod 86400 = 0) daily /\
    Forall (fun p => fst p mod 3600 = 0) hourly.
Proof.
  unfold txfee_doc. cbn zeta. do 3 eexists. split; [reflexivity|].
  rewrite !group_sum_total.
  rewrite (sum_perm _ _ (Permutation_map snd (sort_by_perm fst _))).
  split; [apply sum_three_windows; lia|].
  split; [apply group_sum_keys|]. split; [apply group_sum_keys|].
  split; [apply sort_by_sorted|]. split.
  - eapply Forall_impl; [apply group_sum_keys|].
    intros p (r & _ & ->). apply Z_mod_mult.
  - eapply Forall_impl; [apply group_sum_keys|].
    intros p (r & _ & ->). apply (Z_mod_mult _ 3600).
Qed.

(** ** The version snapshot of a peer update *)

Lemma update_peers_snapshots env w all_peers w1 :
  discover_peers env w = (Ok all_peers, w1) ->
  exists ts,
    peer_snapshots (db (snd (_update_peers env w)))
    = match Counter (map p_user_agent
              (List.filter (fun p => is_mainnet (p_network p))
                 (dedup_peers [] all_peers))) with
      | [] => peer_snapshots (db w)
      | c :: cs =>
          List.filter (fun s => negb (sampled_at s <? ts - 365 * 86400))
            (peer_snapshots (db w)
             ++ map (fun uc => mkSnapshot ts (fst uc) (snd uc)) (c :: cs))
      end.
Proof.
  intros Hdisc.
  pose proof (discover_peers_reads env w) as Hdb1%extends_eq_db.
  rewrite Hdisc in Hdb1. simpl in Hdb1.
  unfold _update_peers. rewrite (bind_run _ _ _ _ _ Hdisc).
  destruct all_peers as [|p rest].
  - exists 0. simpl. by rewrite Hdb1.
  - remember (dedup_peers [] (p :: rest)) as peers eqn:Epeers.
    destruct (total_run _ w1 (total_geolocate_batches env _ _ :
                total (geolocate env peers))) as [geo_map Hgeo].
    pose proof (geolocate_reads env peers w1) as Hdb2%extends_eq_db.
    set (w2 := snd (geolocate env peers w1)) in *.
    rewrite (bind_run _ _ _ _ _ Hgeo).
    rewrite Hdb1 in Hdb2.
    exists (clock env (length (trace w2))).
    remember (Counter (map p_user_agent
                (List.filter (fun p0 => is_mainnet (p_network p0)) peers)))
      as version_counts eqn:EC.
    destruct version_counts as [|c cs].
    + unfold _write_peers_json, now_ts, int_time, bind, steps, emit, ret, _write_json,
        execute, query.
      simpl. by rewrite Hdb2.
    + unfold _write_peers_json, now_ts, int_time, bind, steps, emit, ret, _write_json,
        execute, query.
      simpl. by rewrite Hdb2.
Qed.

(** X15. The version snapshot a peer update takes counts the mainnet peers
    of the run and no others.  When the run finds no mainnet peer, the
    snapshot table is left as it was.  Otherwise the run appends one row per
    user agent seen among the de-duplicated mainnet peers, each stamped
    with the time of the run and with a count of at least 1, the counts
    adding up to the number of these peers, and then drops every row older
    than 365 days. *)
Theorem X_version_snapshot (env : Env) (w w1 : World) (all_peers : list Peer) :
  discover_peers env w = (Ok all_peers, w1) ->
  let snaps' := peer_snapshots (db (snd (_update_peers env w))) in
  let mainnet :=
    List.filter (fun p => is_mainnet (p_network p)) (dedup_peers [] all_peers) in
  (mainnet = [] -> snaps' = peer_snapshots (db w)) /\
  (mainnet <> [] ->
   exists ts new,
     snaps' = List.filter (fun s => negb (sampled_at s <? ts - 365 * 86400))
                (peer_snapshots (db w) ++ new) /\
     Forall (fun s => sampled_at s = ts /\ 1 <= snap_count s) new /\
     NoDup (map snap_user_agent new) /\
     (forall ua, ua ∈ map snap_user_agent new <->
                 exists p, p ∈ mainnet /\ p_user_agent p = ua) /\
     sum (map snap_count new) = Z.of_nat (length mainnet)).
Proof.
  intros Hdisc. cbn zeta.
  destruct (update_peers_snapshots env w all_peers w1 Hdisc) as [ts Hs].
  rewrite Hs. clear Hs.
  set (mainnet := List.filter (fun p => is_mainnet (p_network p))
                    (dedup_peers [] all_peers)).
  destruct (Counter_spec (map p_user_agent mainnet)) as (Hnd & Hkeys & _ & Hpos & Hsum).
  rewrite length_map in Hsum.
  split.
  - intros ->. done.
  - intros Hne.
    destruct (Counter (map p_user_agent mainnet)) as [|c cs] eqn:EC.
    { destruct mainnet; [done|]. simpl in Hsum. change (sum []) with 0 in Hsum. lia. }
    exists ts, (map (fun uc => mkSnapshot ts (fst uc) (snd uc)) (c :: cs)).
    split; [done|].
    assert (Hua : map snap_user_agent
                    (map (fun uc => mkSnapshot ts (fst uc) (snd uc)) (c :: cs))
                  = map fst (c :: cs)).
    { rewrite map_map. by apply map_ext. }
    assert (Hcnt : map snap_count
                     (map (fun uc => mkSnapshot ts (fst uc) (snd uc)) (c :: cs))
                   = map snd (c :: cs)).
    { rewrite map_map. by apply map_ext. }
    rewrite Hua, Hcnt. split; [|split; [done|split; [|done]]].
    + apply Forall_fmap. eapply Forall_impl; [exact Hpos|]. by intros [ua n].
    + intros ua. rewrite Hkeys, list_elem_of_fmap. split.
      * intros (p & -> & Hp). by exists p.
      * intros (p & Hp & <-). by exists p.
Qed.

(** X15 at a node that lists two peers running one version and a third
    running another. *)
Lemma X_version_snapshot_witness :
  let env :=
    owner_peers_env 1700000000
      (JArr [JObj [("addr", JStr "8.8.8.8:3414"); ("user_agent", JStr "MW/Grin 5.3.0")];
             JObj [("addr", JStr "9.9.9.9:3414"); ("user_agent", JStr "MW/Grin 5.3.0")];
             JObj [("addr", JStr "1.1.1.1:3414"); ("user_agent", JStr "MW/Grin 5.2.1")]]) in
  let all_peers :=
    [mkPeer "8.8.8.8" "3414" "MW/Grin 5.3.0" "Outbound" "mainnet";
     mkPeer "9.9.9.9" "3414" "MW/Grin 5.3.0" "Outbound" "mainnet";
     mkPeer "1.1.1.1" "3414" "MW/Grin 5.2.1" "Outbound" "mainnet"] in
  let w1 := snd (discover_peers env empty_world) in
  discover_peers env empty_world = (Ok all_peers, w1) /\
  map (fun s => (snap_user_agent s, snap_count s))
    (peer_snapshots (db (snd (_update_peers env empty_world))))
  = [("MW/Grin 5.3.0", 2); ("MW/Grin 5.2.1", 1)] /\
  exists ts new,
    peer_snapshots (db (snd (_update_peers env empty_world)))
    = List.filter (fun s => negb (sampled_at s <? ts - 365 * 86400))
        (peer_snapshots (db empty_world) ++ new) /\
    sum (map snap_count new) = 3.
Proof.
  cbn zeta.
  match goal with |- ?A /\ _ => assert (Hdisc : A) by (vm_compute; reflexivity) end.
  split; [exact Hdisc|]. split; [vm_compute; reflexivity|].
  destruct (proj2 (X_version_snapshot _ _ _ _ Hdisc) ltac:(discriminate))
    as (ts & new & Hs & _ & _ & _ & Hsum).
  exists ts, new. split; [exact Hs|exact Hsum].
Defined.

(** ** The version document *)

Lemma sorted_app_elems {A} (R : A -> A -> Prop) (l1 l2 : list A) x1 x2 :
  StronglySorted R (l1 ++ l2) -> x1 ∈ l1 -> x2 ∈ l2 -> R x1 x2.
Proof.
  induction l1 as [|y l1 IH]; simpl; [by intros _ ?%elem_of_nil|].
  intros Hs [->|Hx1]%elem_of_cons Hx2.
  - apply StronglySorted_inv in Hs as [_ Hall].
    rewrite Forall_forall in Hall. apply Hall.
    apply elem_of_app. by right.
  - apply StronglySorted_inv in Hs as [Hs _]. by apply IH.
Qed.

Lemma sum_nonneg (l : list Z) : Forall (fun n => 0 <= n) l -> 0 <= sum l.
Proof.
  induction 1 as [|x l Hx _ IH]; [done|]. rewrite sum_cons. lia.
Qed.

(** X16. Let no stored snapshot have a negative count.  The version
    document then lists at most six entries, and the counts it lists add up
    to its [sampled_from], which is the total of the counts sampled at the
    given time.  No version merged into "Other" has a higher count than a
    version listed under its own label. *)
Theorem X_versions_doc_counts (ts_now t : Z) (d : DB) :
  Forall (fun s => 0 <= snap_count s) (peer_snapshots d) ->
  exists versions,
    versions_doc ts_now t d
    = JObj [("updated", JInt ts_now);
            ("sampled_from", JInt (sum (map snd (select_snapshot t d))));
            ("versions", JArr versions)] /\
    (length versions <= 6)%nat /\
    sum (map listed_count versions) = sum (map snd (select_snapshot t d)) /\
    forall top rest,
      top ∈ take 5 (select_snapshot t d) -> rest ∈ drop 5 (select_snapshot t d) ->
      snd rest <= snd top.
Proof.
  intros Hpos. unfold versions_doc. cbn zeta.
  set (rows := select_snapshot t d).
  eexists. split; [reflexivity|].
  assert (Hrows : Forall (fun n => 0 <= n) (map snd rows)).
  { unfold rows, select_snapshot. rewrite map_map. simpl.
    apply Forall_fmap, Forall_forall. intros s Hs.
    apply elem_of_sort_by in Hs.
    assert (Hin : s ∈ peer_snapshots d).
    { apply list_elem_of_In in Hs. apply filter_In in Hs as [Hs _].
      by apply list_elem_of_In. }
    rewrite Forall_forall in Hpos.
    exact (Hpos s Hin). }
  assert (Hother : 0 <= sum (map snd (drop 5 rows))).
  { apply sum_nonneg. rewrite <- (take_drop 5 rows), map_app in Hrows.
    by apply Forall_app in Hrows as [_ ?]. }
  assert (Hsplit : sum (map snd rows)
                   = sum (map snd (take 5 rows)) + sum (map snd (drop 5 rows))).
  { by rewrite <- sum_app, <- map_app, take_drop. }
  assert (Hlisted : sum (map listed_count
                      (map (fun r : string * Z =>
                              JObj [("label", JStr (fst r)); ("count", JInt (snd r))])
                         (take 5 rows)))
                    = sum (map snd (take 5 rows))).
  { rewrite map_map. f_equal. }
  split; [|split].
  - rewrite length_app, length_map, length_take.
    destruct (0 <? sum (map snd (drop 5 rows))); cbn [length]; lia.
  - rewrite map_app, sum_app, Hlisted, Hsplit.
    destruct (Z.ltb_spec 0 (sum (map snd (drop 5 rows)))); simpl.
    + rewrite sum_cons. change (sum []) with 0. lia.
    + change (sum []) with 0. lia.
  - intros top rest Htop Hrest.
    assert (Hs : StronglySorted (by_key (fun r : string * Z => - snd r)) rows).
    { unfold rows, select_snapshot.
      pose proof (sort_by_sorted (fun s => - snap_count s)
                    (List.filter (fun s => sampled_at s =? t) (peer_snapshots d))) as Hs.
      induction Hs as [|s l _ IH Hall]; simpl; constructor; [done|].
      apply Forall_fmap. eapply Forall_impl; [exact Hall|]. done. }
    rewrite <- (take_drop 5 rows) in Hs.
    pose proof (sorted_app_elems _ _ _ _ _ Hs Htop Hrest) as Hle.
    unfold by_key in Hle. lia.
Qed.

(** X16 on a table of seven versions sampled at time 50. *)
Lemma X_versions_doc_witness :
  let d := mkDB ∅ ∅
             (map (fun n => mkSnapshot 50 "MW/Grin" n) [3; 9; 1; 4; 1; 5; 2]) ∅ ∅ in
  Forall (fun s => 0 <= snap_count s) (peer_snapshots d) /\
  exists versions,
    versions_doc 60 50 d
    = JObj [("updated", JInt 60); ("sampled_from", JInt 25); ("versions", JArr versions)] /\
    (length versions <= 6)%nat /\
    sum (map listed_count versions) = 25.
Proof.
  cbn zeta.
  match goal with |- ?A /\ _ => assert (Hpos : A) by (repeat constructor; simpl; lia) end.
  split; [exact Hpos|].
  destruct (X_versions_doc_counts 60 50 _ Hpos) as (versions & Hdoc & Hlen & Hsum & _).
  exists versions. split; [exact Hdoc|]. split; [exact Hlen|exact Hsum].
Defined.

(** ** Peer addresses *)

Lemma rsplit1_avoids c s : avoids c s -> rsplit1 c s = None.
Proof.
  unfold avoids. induction s as [|d s IH]; simpl; [done|].
  intros [Hd Hs]%Forall_cons. rewrite (IH Hs). unfold is_char.
  destruct (Ascii.eqb_spec c d); [by subst|done].
Qed.

Lemma rsplit1_app c a b : avoids c b -> rsplit1 c (a ++ String c b) = Some (a, b).
Proof.
  intros Hb. induction a as [|d a IH]; simpl.
  - rewrite (rsplit1_avoids c b Hb). unfold is_char. by rewrite Ascii.eqb_refl.
  - by rewrite IH.
Qed.

Lemma contains_colon_app a b : contains ":" (a ++ String ":" b) = true.
Proof.
  induction a as [|d a IH]; simpl.
  - by destruct b.
  - rewrite IH. apply orb_true_r.
Qed.

Lemma contains_colon_avoids s : avoids ":" s -> contains ":" s = false.
Proof.
  unfold avoids. induction s as [|d s IH]; simpl; [done|].
  intros [Hd Hs]%Forall_cons. rewrite (IH Hs), orb_false_r.
  destruct (Ascii.eqb_spec ":" d) as [<-|Hne]; [done|].
  unfold Ascii.eqb in *. destruct d as [[] [] [] [] [] [] [] []]; try done.
Qed.

(** X17. How the address of a peer is taken apart.  An address with a
    colon is cut at its last colon: what follows is the port, what comes
    before, with brackets stripped from both ends, is the IP.  An address
    without a colon is the IP as a whole, brackets stripped, and the port
    is the default 3414. *)
Theorem X_addr_split (host port : string) :
  (avoids ":" port ->
   addr_ip (host ++ ":" ++ port) = strip "[]" host /\
   addr_port (host ++ ":" ++ port) = port) /\
  (avoids ":" host ->
   addr_ip host = strip "[]" host /\ addr_port host = "3414").
Proof.
  unfold addr_ip, addr_port, rsplit_first, rsplit_last. split.
  - intros Hport. change (":" ++ port)%string with (String ":" port).
    by rewrite rsplit1_app, contains_colon_app.
  - intros Hhost. by rewrite rsplit1_avoids, contains_colon_avoids.
Qed.

(** X17 on a bracketed IPv6 address with a port. *)
Lemma X_addr_split_witness :
  avoids ":" "13414" /\
  addr_ip ("[2001:db8::1]" ++ ":" ++ "13414") = "2001:db8::1" /\
  addr_port ("[2001:db8::1]" ++ ":" ++ "13414") = "13414".
Proof.
  assert (H : avoids ":" "13414") by (repeat constructor; discriminate).
  split; [exact H|].
  destruct (proj1 (X_addr_split "[2001:db8::1]" "13414") H) as [Hip Hport].
  split; [rewrite Hip; reflexivity|exact Hport].
Defined.

(** ** The tip of the export *)

Lemma newest_first (d : DB) h r :
  blocks d !! h = Some r ->
  (forall h', is_Some (blocks d !! h') -> h' <= h) ->
  exists rest, sort_by (fun hr => - fst hr) (map_to_list (blocks d)) = (h, r) :: rest.
Proof.
  intros Hr Hmax.
  pose proof (sort_by_sorted (fun hr : Z * BlockRow => - fst hr) (map_to_list (blocks d)))
    as Hs.
  assert (Hin : forall x, x ∈ sort_by (fun hr => - fst hr) (map_to_list (blocks d)) ->
                  blocks d !! fst x = Some (snd x)).
  { intros [h' r'] Hx%elem_of_sort_by. by apply elem_of_map_to_list in Hx. }
  assert (Hhr : (h, r) ∈ sort_by (fun hr => - fst hr) (map_to_list (blocks d))).
  { by apply elem_of_sort_by, elem_of_map_to_list. }
  destruct (sort_by _ _) as [|[h0 r0] rest]; [by apply elem_of_nil in Hhr|].
  exists rest. f_equal.
  apply elem_of_cons in Hhr as [[= <- <-]|Hrest]; [done|].
  apply StronglySorted_inv in Hs as [_ Hall].
  rewrite Forall_forall in Hall.
  assert (Hle : by_key (fun hr : Z * BlockRow => - fst hr) (h0, r0) (h, r)).
  { by apply Hall. }
  unfold by_key in Hle. simpl in Hle.
  pose proof (Hin (h0, r0) ltac:(left)) as H0. simpl in H0.
  pose proof (Hmax h0 (mk_is_Some _ _ H0)).
  assert (h0 = h) as -> by lia. congruence.
Qed.

(** X18. When the blocks table has a row of highest height, the summary
    reports that height as the tip, with the hashrate (rounded to two
    places) and the difficulty of that row, and the hashrate and difficulty
    documents report the same row as current.  On an empty table the
    summary reports zeros. *)
Theorem X_summary_reports_highest (ts_now : Z) (d : DB) :
  (forall h r,
     blocks d !! h = Some r ->
     (forall h', is_Some (blocks d !! h') -> h' <= h) ->
     (exists avg,
        summary_doc ts_now d
        = JObj [("updated", JInt ts_now); ("tip_height", JInt h);
                ("avg_block_time", JInt avg);
                ("current_hashrate", JReal (round2 (b_hashrate r)));
                ("current_difficulty", JInt (b_total_diff r))]) /\
     (forall col, exists daily hourly recent,
        metric_doc col ts_now d
        = JObj [("updated", JInt ts_now); ("current", py_round2 (col r));
                ("daily", daily); ("hourly", hourly); ("recent", recent)])) /\
  (blocks d = ∅ ->
   summary_doc ts_now d
   = JObj [("updated", JInt ts_now); ("tip_height", JInt 0); ("avg_block_time", JInt 0);
           ("current_hashrate", JInt 0); ("current_difficulty", JInt 0)]).
Proof.
  split.
  - intros h r Hr Hmax.
    destruct (newest_first d h r Hr Hmax) as [rest Hsorted]. split.
    + unfold summary_doc, select_tip. cbn zeta. rewrite Hsorted.
      destruct rest as [|[h1 r1] rest]; simpl; by eexists.
    + intros col. unfold metric_doc, select_tip. cbn zeta. rewrite Hsorted.
      simpl. by do 3 eexists.
  - intros Hempty. unfold summary_doc, select_tip. cbn zeta.
    by rewrite Hempty, map_to_list_empty.
Qed.

(** ** The block statistics of a range *)

Lemma elem_of_range (a b h : Z) : h ∈ range a b <-> a <= h < b.
Proof.
  unfold range. rewrite list_elem_of_fmap. split.
  - intros (k & -> & Hk%elem_of_seq). lia.
  - intros Hh. exists (Z.to_nat (h - a)). split; [lia|]. apply elem_of_seq. lia.
Qed.

Lemma lookup_insert_block_stats batch (t : gmap Z StatRow) h s :
  block_stats (insert_block_stats batch (mkDB ∅ t [] ∅ ∅)) !! h = Some s ->
  (h, s_timestamp s, s_tx_count s, s_fee_total s, s_output_count s) ∈ batch \/
  t !! h = Some s.
Proof.
  unfold insert_block_stats, with_block_stats. simpl. revert t.
  induction batch as [|[[[[h' ts] txs] fees] outs] batch IH]; intros t; simpl; [by right|].
  intros [Hin|Ht]%IH; [left; by right|].
  destruct (decide (h' = h)) as [->|Hne].
  - rewrite lookup_insert_eq in Ht. injection Ht as <-. left. by left.
  - rewrite lookup_insert_ne in Ht by done. by right.
Qed.

(** X19. Fetching the block statistics of a range never raises and changes
    no table but block_stats.  Every row the table holds afterwards was
    there before or carries what the fetch of a block of the range, from
    max(0, start) to the end, returned.  On an empty range nothing happens
    at all. *)
Theorem X_block_stats_range (env : Env) (start stop : Z) (workers : nat) (w : World) :
  let run := _fetch_block_stats_range env start stop workers w in
  fst run = Ok tt /\
  db (snd run) = with_block_stats (fun _ => block_stats (db (snd run))) (db w) /\
  (forall h s, block_stats (db (snd run)) !! h = Some s ->
     block_stats (db w) !! h = Some s \/
     exists h0 w0,
       Z.max 0 start <= h0 <= stop /\
       fst (fetch_full_block env h0 w0)
       = Ok (Some (h, s_timestamp s, s_tx_count s, s_fee_total s, s_output_count s))) /\
  (stop < Z.max 0 start -> run = (Ok tt, w)).
Proof.
  cbn zeta. unfold _fetch_block_stats_range.
  destruct (range (Z.max 0 start) (stop + 1)) as [|h1 hs] eqn:Erange.
  { simpl. split; [done|]. split; [by destruct w as [[] ? ?]|].
    split; [by left|done]. }
  assert (Hheights : forall h0, h0 ∈ h1 :: hs -> Z.max 0 start <= h0 <= stop).
  { intros h0 Hh0. rewrite <- Erange in Hh0. apply elem_of_range in Hh0. lia. }
  assert (Hnonempty : Z.max 0 start <= stop).
  { pose proof (Hheights h1 ltac:(left)). lia. }
  destruct (total_run _ w (total_run_tasks (fetch_full_block env) (h1 :: hs)
                             (total_fetch_full_block env))) as [batch Hrun].
  destruct (run_tasks_results _ _ _ _ _ Hrun) as [_ Hin].
  assert (Hdb : db (snd (run_tasks (fetch_full_block env) (h1 :: hs) w)) = db w).
  { apply extends_eq_db.
    apply (frame_run_tasks (fun _ => True) eq ltac:(done) ltac:(congruence)).
    intros h.
    apply frame_fetch_full_block with (ok_method := fun _ => True); side_conditions. }
  rewrite (bind_run _ _ _ _ _ Hrun).
  set (w2 := snd (run_tasks (fetch_full_block env) (h1 :: hs) w)) in *.
  destruct batch as [|b batch].
  { simpl. rewrite Hdb. split; [done|]. split; [by destruct (db w)|].
    split; [by left|lia]. }
  unfold execute. cbn [fst snd db]. rewrite Hdb.
  split; [done|]. split; [by destruct (db w)|]. split; [|lia].
  intros h s Hs.
  assert (Hs' : block_stats (insert_block_stats (b :: batch)
                               (mkDB ∅ (block_stats (db w)) [] ∅ ∅)) !! h = Some s).
  { by destruct (db w). }
  apply lookup_insert_block_stats in Hs' as [Hrow|Hold]; [right|by left].
  destruct (Hin _ Hrow) as (h0 & w0 & Hh0 & Hf).
  exists h0, w0. split; [by apply Hheights|done].
Qed.

(** ** Which nodes discovery asks *)

Lemma fetch_all_peers_label env owner_url secret label :
  returns (fun peers => forall p, p ∈ peers -> p_network p = label)
    (_fetch_all_peers_from_node env owner_url secret label).
Proof.
  intros w peers. unfold _fetch_all_peers_from_node, bind.
  pose proof (try_owner_api_returns env owner_url secret label w) as Howner.
  destruct (try_owner_api env owner_url secret label w) as [[first|e] w1]; [|discriminate].
  specialize (Howner first eq_refl).
  assert (Hfirst : forall p, p ∈ (match first with inl pl | inr pl => pl end) ->
            p_network p = label).
  { by intros p (e & (Hn & _)%owner_entry_ok)%Howner. }
  destruct first as [pl|pl].
  - simpl. by intros [= <-].
  - intros Hret. eapply (try_foreign_api_returns env owner_url label pl); [done| |done].
    intros e p. apply foreign_entry_ok.
Qed.

Lemma is_node_running_run env port w :
  _is_node_running env port w
  = (Ok (listening env (length (trace w)) port), push [EvConnect port] w).
Proof. reflexivity. Qed.

(** X20. Discovery always returns a list, and every peer in it is
    labelled mainnet or testnet.  While nothing listens on port 13413 no
    testnet peer is returned, and while nothing listens on either port
    discovery makes its two connection attempts and returns no peer,
    without any request. *)
Theorem X_discover_peers_networks (env : Env) (w : World) :
  exists peers,
    fst (discover_peers env w) = Ok peers /\
    (forall p, p ∈ peers -> p_network p = "mainnet" \/ p_network p = "testnet") /\
    ((forall k, listening env k 13413 = false) ->
     forall p, p ∈ peers -> p_network p = "mainnet") /\
    ((forall k port, listening env k port = false) ->
     discover_peers env w = (Ok [], push [EvConnect 3413; EvConnect 13413] w)).
Proof.
  unfold discover_peers.
  rewrite (bind_run _ _ _ _ _ (is_node_running_run env 3413 w)).
  set (w1 := push [EvConnect 3413] w).
  set (fetch1 := if listening env (length (trace w)) 3413
                 then _fetch_all_peers_from_node env (MAINNET_OWNER_URL env)
                        (API_SECRET env) "mainnet"
                 else ret []).
  assert (Htot1 : total fetch1).
  { unfold fetch1. destruct (listening env (length (trace w)) 3413);
      [apply total_fetch_all_peers|apply total_ret]. }
  assert (Hlab1 : returns (fun peers => forall p, p ∈ peers -> p_network p = "mainnet")
                    fetch1).
  { unfold fetch1. destruct (listening env (length (trace w)) 3413);
      [apply fetch_all_peers_label|].
    intros w0 a [= <-] p Hp. by apply elem_of_nil in Hp. }
  destruct (total_run _ w1 Htot1) as [mainnet_peers Hrun1].
  rewrite (bind_run _ _ _ _ _ Hrun1).
  set (w2 := snd (fetch1 w1)) in *.
  rewrite (bind_run _ _ _ _ _ (is_node_running_run env 13413 w2)).
  set (w3 := push [EvConnect 13413] w2).
  set (fetch2 := if listening env (length (trace w2)) 13413
                 then _fetch_all_peers_from_node env (TESTNET_OWNER_URL env)
                        (TESTNET_API_SECRET env) "testnet"
                 else ret []).
  assert (Htot2 : total fetch2).
  { unfold fetch2. destruct (listening env (length (trace w2)) 13413);
      [apply total_fetch_all_peers|apply total_ret]. }
  assert (Hlab2 : returns (fun peers => forall p, p ∈ peers -> p_network p = "testnet")
                    fetch2).
  { unfold fetch2. destruct (listening env (length (trace w2)) 13413);
      [apply fetch_all_peers_label|].
    intros w0 a [= <-] p Hp. by apply elem_of_nil in Hp. }
  destruct (total_run _ w3 Htot2) as [testnet_peers Hrun2].
  rewrite (bind_run _ _ _ _ _ Hrun2).
  pose proof (Hlab1 w1 mainnet_peers ltac:(by rewrite Hrun1)) as Hm.
  pose proof (Hlab2 w3 testnet_peers ltac:(by rewrite Hrun2)) as Ht.
  exists (mainnet_peers ++ testnet_peers). split; [done|]. split; [|split].
  - intros p [Hp|Hp]%elem_of_app; [left; by apply Hm|right; by apply Ht].
  - intros Hdown p [Hp|Hp]%elem_of_app; [by apply Hm|].
    unfold fetch2 in Hrun2. rewrite Hdown in Hrun2. unfold ret in Hrun2.
    assert (testnet_peers = []) as -> by congruence.
    by apply elem_of_nil in Hp.
  - intros Hdown.
    assert (Hf1 : fetch1 = ret []) by (unfold fetch1; by rewrite Hdown).
    assert (Hf2 : fetch2 = ret []) by (unfold fetch2; by rewrite Hdown).
    rewrite Hf1 in Hrun1. rewrite Hf2 in Hrun2 |- *. unfold ret in Hrun1, Hrun2.
    assert (mainnet_peers = []) as -> by congruence.
    assert (testnet_peers = []) as -> by congruence.
    unfold ret. cbn [snd app]. f_equal.
    unfold w3, w2. rewrite Hf1. unfold ret. cbn [snd]. unfold w1.
    by rewrite push_push.
Qed.

(** ** Where the location of a peer comes from *)

Lemma geo_entry_located g (m m' : gmap string Geo) ip geo :
  geo_entry g m = Ok m' -> m' !! ip = Some geo ->
  m !! ip = Some geo \/ located_by g ip geo.
Proof.
  unfold geo_entry. intros (status & Hstatus & H)%and_then_Ok.
  destruct (is_str status "success") eqn:Hsuccess; [|injection H as <-; by left].
  apply and_then_Ok in H as (lat & Hlat & H).
  apply and_then_Ok in H as (lon & Hlon & H).
  apply and_then_Ok in H as (country & Hcountry & H).
  apply and_then_Ok in H as (code & Hcode & H).
  apply and_then_Ok in H as (city & Hcity & H).
  apply and_then_Ok in H as (q & Hq & H).
  destruct q as [| | | |ip'| |]; try discriminate; try (injection H as <-; by left).
  injection H as <-. intros Hlookup.
  destruct (decide (ip' = ip)) as [->|Hne].
  - rewrite lookup_insert_eq in Hlookup. injection Hlookup as <-. right.
    unfold located_by. simpl. eauto 10.
  - rewrite lookup_insert_ne in Hlookup by done. by left.
Qed.

Lemma collect_geo_located results : forall (m : gmap string Geo) ip geo,
  fst (collect_geo results m) !! ip = Some geo ->
  m !! ip = Some geo \/ exists g, g ∈ results /\ located_by g ip geo.
Proof.
  induction results as [|g results IH]; intros m ip geo; simpl; [by left|].
  destruct (geo_entry g m) as [m1|e] eqn:E; simpl; [|by left].
  intros [Hm1|(g' & Hg' & Hloc)]%IH.
  - destruct (geo_entry_located _ _ _ _ _ E Hm1) as [?|Hloc]; [by left|].
    right. exists g. split; [left|done].
  - right. exists g'. split; [by right|done].
Qed.

Lemma in_geo_response_mono env lo hi lo' hi' g :
  (lo' <= lo)%nat -> (hi <= hi')%nat ->
  in_geo_response env lo hi g -> in_geo_response env lo' hi' g.
Proof.
  intros Hlo Hhi (k & batch & data & items & Hk & Hbody & Hiter & Hg).
  exists k, batch, data, items. split; [lia|done].
Qed.

Lemma geo_batch_grows env batch (m : gmap string Geo) w :
  (length (trace w) < length (trace (snd (geo_batch env batch m w))))%nat.
Proof.
  destruct (geo_batch_requests env batch m w) as (evs & -> & Hreq).
  rewrite length_app. destruct evs; [discriminate|simpl; lia].
Qed.

Lemma geolocate_batches_grows env bs (m : gmap string Geo) w :
  (length (trace w) <= length (trace (snd (geolocate_batches env bs m w))))%nat.
Proof.
  destruct (geolocate_batches_requests env bs m w) as (evs & -> & _).
  rewrite length_app. lia.
Qed.

Lemma geo_batch_located env batch (m : gmap string Geo) w m' ip geo :
  fst (geo_batch env batch m w) = Ok m' -> m' !! ip = Some geo ->
  m !! ip = Some geo \/
  exists g,
    in_geo_response env (length (trace w))
      (length (trace (snd (geo_batch env batch m w)))) g /\
    located_by g ip geo.
Proof.
  intros Hrun Hlookup.
  assert (H : m !! ip = Some geo \/
              exists g, in_geo_response env (length (trace w)) (S (length (trace w))) g /\
                        located_by g ip geo).
  { revert Hrun Hlookup.
    unfold geo_batch, try_except. unfold bind at 1. unfold bind at 1.
    rewrite urlopen_json_run.
    destruct (urlopen env (length (trace w)) (GeoRequest batch)) as [| |data] eqn:Ebody;
      simpl; try (intros [= <-]; by left).
    destruct (iter data) as [items|e] eqn:Eiter; [|intros [= <-]; by left].
    pose proof (collect_geo_located items m ip geo) as Hc.
    assert (Hfound : forall g, g ∈ items ->
              in_geo_response env (length (trace w)) (S (length (trace w))) g).
    { intros g Hg. exists (length (trace w)), batch, data, items. split; [lia|done]. }
    destruct (collect_geo items m) as [m1 [e|]]; simpl in *.
    - intros [= <-] [?|(g & Hg & ?)]%Hc; [by left|right]. exists g. eauto.
    - intros [= <-] [?|(g & Hg & ?)]%Hc; [by left|right]. exists g. eauto. }
  destruct H as [?|(g & Hresp & Hloc)]; [by left|right].
  exists g. split; [|done].
  pose proof (geo_batch_grows env batch m w).
  eapply in_geo_response_mono; [| |exact Hresp]; lia.
Qed.

Lemma geolocate_batches_located env bs : forall (m : gmap string Geo) w m' ip geo,
  fst (geolocate_batches env bs m w) = Ok m' -> m' !! ip = Some geo ->
  m !! ip = Some geo \/
  exists g,
    in_geo_response env (length (trace w))
      (length (trace (snd (geolocate_batches env bs m w)))) g /\
    located_by g ip geo.
Proof.
  induction bs as [|b rest IH]; intros m w m' ip geo; simpl.
  - intros [= <-]. by left.
  - destruct (total_run _ w (total_geo_batch env b m)) as [m1 Hrun].
    rewrite (bind_run _ _ _ _ _ Hrun).
    pose proof (geo_batch_grows env b m w) as Hgrow1.
    pose proof (geolocate_batches_grows env rest m1 (snd (geo_batch env b m w))) as Hgrow2.
    intros Hrest Hlookup.
    destruct (IH _ _ _ _ _ Hrest Hlookup) as [Hm1|(g & Hresp & Hloc)].
    + destruct (geo_batch_located env b m w m1 ip geo) as [?|(g & Hresp & Hloc)];
        [by rewrite Hrun|done|by left|right].
      exists g. split; [|done]. eapply in_geo_response_mono; [| |exact Hresp]; lia.
    + right. exists g. split; [|done].
      eapply in_geo_response_mono; [| |exact Hresp]; lia.
Qed.

(** X21. Geolocation always returns a map.  A location is stored in it
    only from an item of a response that the service gave in this run and
    marked success, under the [query] string of that item.  A peer is
    therefore enriched with the fields of such an item for its own IP, and
    a peer whose IP got no such item is enriched with latitude 0,
    longitude 0 and empty names. *)
Theorem X_geolocate_entries (env : Env) (all_peers : list Peer) (w : World) :
  let lo := length (trace w) in
  let hi := length (trace (snd (geolocate env all_peers w))) in
  exists geo_map,
    fst (geolocate env all_peers w) = Ok geo_map /\
    (forall ip geo, geo_map !! ip = Some geo ->
       exists g, in_geo_response env lo hi g /\ located_by g ip geo) /\
    forall ts p,
      let e := enrich geo_map ts p in
      (exists g,
         in_geo_response env lo hi g /\
         located_by g (p_ip p)
           (mkGeo (e_lat e) (e_lng e) (e_country e) (e_country_code e) (e_city e)))
      \/ (geo_map !! p_ip p = None /\
          e_lat e = JInt 0 /\ e_lng e = JInt 0 /\ e_country e = JStr "" /\
          e_country_code e = JStr "" /\ e_city e = JStr "").
Proof.
  cbn zeta.
  destruct (total_run _ w (total_geolocate_batches env _ _ :
              total (geolocate env all_peers))) as [geo_map Hrun].
  exists geo_map. split; [by rewrite Hrun|].
  assert (Hloc : forall ip geo, geo_map !! ip = Some geo ->
            exists g,
              in_geo_response env (length (trace w))
                (length (trace (snd (geolocate env all_peers w)))) g /\
              located_by g ip geo).
  { intros ip geo Hlookup. unfold geolocate in *.
    eapply geolocate_batches_located in Hlookup as [Hempty|?];
      [by rewrite lookup_empty in Hempty|done|by rewrite Hrun]. }
  split; [done|]. intros ts p. cbn zeta. unfold enrich. simpl.
  destruct (geo_map !! p_ip p) as [[lat lng country code city]|] eqn:E; simpl.
  - left. by apply Hloc.
  - right. done.
Qed.

(** X21 at a service that locates 8.8.8.8 and fails on 9.9.9.9. *)
Lemma X_geolocate_entries_witness :
  let env :=
    geo_env 1700000000
      (fun _ => Body (JArr [JObj [("status", JStr "success"); ("query", JStr "8.8.8.8");
                                  ("lat", JInt 37); ("lon", JInt (-122));
                                  ("country", JStr "United States");
                                  ("countryCode", JStr "US"); ("city", JStr "Ashburn")];
                            JObj [("status", JStr "fail"); ("query", JStr "9.9.9.9")]])) in
  let peers := [mkPeer "8.8.8.8" "3414" "MW/Grin 5.3.0" "Outbound" "mainnet";
                mkPeer "9.9.9.9" "3414" "MW/Grin 5.3.0" "Outbound" "mainnet"] in
  let located := mkGeo (JInt 37) (JInt (-122)) (JStr "United States") (JStr "US")
                   (JStr "Ashburn") in
  fst (geolocate env peers empty_world) = Ok {[ "8.8.8.8" := located ]} /\
  exists g,
    in_geo_response env 0 (length (trace (snd (geolocate env peers empty_world)))) g /\
    located_by g "8.8.8.8" located.
Proof.
  cbn zeta.
  match goal with |- ?A /\ _ => assert (Hrun : A) by (vm_compute; reflexivity) end.
  split; [exact Hrun|].
  match type of Hrun with
  | fst (geolocate ?env ?peers ?w) = _ =>
      destruct (X_geolocate_entries env peers w) as (geo_map & Hmap & Hloc & _)
  end.
  rewrite Hrun in Hmap. injection Hmap as <-.
  apply Hloc. apply lookup_singleton_eq.
Defined.

(** ** The heights a run asks for *)

Ltac asks_step :=
  lazymatch goal with
  | |- frame _ _ (bind _ _) => apply frame_bind; [done| |intros ?]
  | |- frame _ _ (ret _) => by apply frame_ret
  | |- frame _ _ (raise _) => by apply frame_raise
  | |- frame _ _ (lift _) => by apply frame_lift
  | |- frame _ _ (query _) => by apply frame_query
  | |- frame _ _ (execute _) => by apply frame_execute
  | |- frame _ _ (set_meta _ _) => by apply frame_execute
  | |- frame _ _ (now_ts _) => by apply frame_int_time
  | |- frame _ _ (parse_ts _ _) => by apply frame_parse_ts
  | |- frame _ _ (with_buckets _ _) => by apply frame_with_buckets
  | |- frame _ _ (if ?b then _ else _) => destruct b
  end.

Lemma asks_fetch_header env (Ph Pb : Z -> Prop) h :
  Ph h -> frame (asks_within Ph Pb) (fun _ _ => True) (fetch_header env h).
Proof.
  intros Hh. unfold fetch_header, grin_rpc.
  apply frame_try; [done| |intros ?; by apply frame_ret].
  apply frame_bind; [done| |intros data].
  - apply frame_rpc; try done. intros auth. split; [intros _; by exists h|discriminate].
  - repeat asks_step.
Qed.

Lemma asks_fetch_full_block env (Ph Pb : Z -> Prop) h :
  Pb h -> frame (asks_within Ph Pb) (fun _ _ => True) (fetch_full_block env h).
Proof.
  intros Hh. unfold fetch_full_block, grin_rpc.
  apply frame_try; [done| |intros ?; by apply frame_ret].
  apply frame_bind; [done| |intros data].
  - apply frame_rpc; try done. intros auth. split; [discriminate|intros _; by exists h].
  - repeat asks_step.
Qed.

Lemma asks_run_tasks {A} (okev : Event -> Prop) (task : Z -> M (option A)) heights :
  (forall h, h ∈ heights -> frame okev (fun _ _ => True) (task h)) ->
  frame okev (fun _ _ => True) (run_tasks task heights).
Proof.
  induction heights as [|h rest IH]; intros Ht; simpl; [by apply frame_ret|].
  apply frame_bind; [done|apply Ht; left|]. intros row.
  apply frame_bind; [done| |intros ?; by apply frame_ret].
  apply IH. intros h' Hh'. apply Ht. by right.
Qed.

Lemma asks_fetch_headers_batch env (Ph Pb : Z -> Prop) heights workers :
  (forall h, h ∈ heights -> Ph h) ->
  frame (asks_within Ph Pb) (fun _ _ => True) (fetch_headers_batch env heights workers).
Proof.
  intros Hh. unfold fetch_headers_batch.
  apply frame_bind; [done| |intros ?; by apply frame_ret].
  apply asks_run_tasks. intros h Hin. by apply asks_fetch_header, Hh.
Qed.

Lemma asks_fetch_batches env (Ph Pb : Z -> Prop) bs : forall acc,
  (forall b h, b ∈ bs -> h ∈ b -> Ph h) ->
  frame (asks_within Ph Pb) (fun _ _ => True) (fetch_batches env bs acc).
Proof.
  induction bs as [|b rest IH]; intros acc Hbs; simpl; [by apply frame_ret|].
  apply frame_bind; [done| |intros rows].
  - apply asks_fetch_headers_batch. intros h Hh. apply (Hbs b); [left|done].
  - apply IH. intros b' h Hb' Hh. apply (Hbs b'); [by right|done].
Qed.

Lemma asks_fetch_block_stats_range env (Ph Pb : Z -> Prop) start stop workers :
  (forall h, Z.max 0 start <= h <= stop -> Pb h) ->
  frame (asks_within Ph Pb) (fun _ _ => True)
    (_fetch_block_stats_range env start stop workers).
Proof.
  intros Hb. unfold _fetch_block_stats_range.
  destruct (range (Z.max 0 start) (stop + 1)) as [|h1 hs] eqn:Erange;
    [by apply frame_ret|].
  apply frame_bind; [done| |intros batch].
  - apply asks_run_tasks. intros h Hh. apply asks_fetch_full_block, Hb.
    rewrite <- Erange in Hh. apply elem_of_range in Hh. lia.
  - destruct batch; [by apply frame_ret|by apply frame_execute].
Qed.

Lemma asks_update_peers env (Ph Pb : Z -> Prop) :
  frame (asks_within Ph Pb) (fun _ _ => True) (_update_peers env).
Proof.
  apply frame_update_peers
    with (ok_method := fun m => m <> "get_header" /\ m <> "get_block"); try done.
  by intros url method params auth [H1 H2].
Qed.

Lemma asks_peers_export env (Ph Pb : Z -> Prop) :
  frame (asks_within Ph Pb) (fun _ _ => True) (_update_peers env ;; export_all_json env).
Proof.
  apply frame_bind; [done|apply asks_update_peers|].
  intros _. by apply frame_export_all_json.
Qed.

Lemma asks_get_tip env (Ph Pb : Z -> Prop) :
  frame (asks_within Ph Pb) (fun _ _ => True) (grin_rpc env "get_tip" JNull 3).
Proof. apply frame_rpc; try done. Qed.

(** The initial import once the tip is known. *)
Lemma cmd_init_history_unfold env w w1 tip tip_height :
  grin_rpc env "get_tip" JNull 3 w = (Ok tip, w1) ->
  truthy tip = true ->
  and_then (getitem tip "height") (py_int env) = Ok tip_height ->
  cmd_init_history env w
  = (now <- now_ts env ;;
     rows_all <- fetch_batches env (height_batches (sample_heights tip_height) 20) [] ;;
     let rows_all := sort_by header_height rows_all in
     let rows_with_hr := calc_hashrate rows_all in
     execute (with_blocks (fun _ => ∅)) ;;
     to_insert <- with_buckets env rows_with_hr ;;
     execute (insert_blocks to_insert) ;;
     set_meta "last_height" tip_height ;;
     now' <- now_ts env ;;
     set_meta "last_updated" now' ;;
     _fetch_block_stats_range env (tip_height - 90 * BLOCKS_PER_DAY) tip_height 4 ;;
     _update_peers env ;;
     export_all_json env)%M w1.
Proof.
  intros Htip Htruthy Hheight. unfold cmd_init_history.
  rewrite (bind_run _ _ _ _ _ Htip). rewrite Htruthy. cbn [negb].
  by rewrite (bind_run (lift (and_then (getitem tip "height") (py_int env))) _ w1
                tip_height w1) by (unfold lift; by rewrite Hheight).
Qed.

(** X22. Let the node answer [get_tip] with a height.  An update then
    asks for no header and no block but of a height above last_height and
    up to the tip.  The initial import asks for no header but of a sampled
    height, and for no block but of one of the last 129600 heights up to the
    tip; neither asks for a block of negative height. *)
Theorem X_request_windows (env : Env) (w w1 : World) (tip : json) (tip_height : Z) :
  grin_rpc env "get_tip" JNull 3 w = (Ok tip, w1) ->
  truthy tip = true ->
  and_then (getitem tip "height") (py_int env) = Ok tip_height ->
  let last_height := default 0 (meta (db w) !! "last_height") in
  (exists evs,
     trace (snd (cmd_update env w)) = trace w ++ evs /\
     Forall (asks_within (fun h => last_height < h <= tip_height)
               (fun h => 0 <= h /\ last_height < h <= tip_height)) evs) /\
  (exists evs,
     trace (snd (cmd_init_history env w)) = trace w ++ evs /\
     Forall (asks_within (sampled tip_height)
               (fun h => 0 <= h /\ tip_height - 129600 <= h <= tip_height)) evs).
Proof.
  intros Htip Htruthy Hheight. cbn zeta.
  assert (Htrans : forall a b c : DB, True -> True -> True) by done.
  assert (Hfirst : forall Ph Pb,
            extends (asks_within Ph Pb) (fun _ _ => True) w w1).
  { intros Ph Pb. pose proof (asks_get_tip env Ph Pb w) as H. by rewrite Htip in H. }
  split.
  - rewrite (cmd_update_unfold env w w1 tip tip_height Htip Htruthy Hheight). cbn zeta.
    set (last_height := default 0 (meta (db w) !! "last_height")).
    set (Ph := fun h => last_height < h <= tip_height).
    set (Pb := fun h => 0 <= h /\ last_height < h <= tip_height).
    apply (extends_trans (asks_within Ph Pb) (fun _ _ => True) Htrans w w1);
      [apply Hfirst|].
    apply frame_bind; [done| |intros _; apply asks_peers_export].
    destruct (tip_height <=? last_height); [by apply frame_ret|].
    apply frame_bind; [done| |intros rows; cbn zeta].
    { apply asks_fetch_headers_batch. intros h Hh%elem_of_range. unfold Ph. lia. }
    apply frame_bind; [done| |intros rated].
    { unfold _append_hashrate. destruct (sort_by _ _); repeat asks_step. }
    repeat asks_step.
    apply asks_fetch_block_stats_range. intros h Hh. unfold Pb. lia.
  - rewrite (cmd_init_history_unfold env w w1 tip tip_height Htip Htruthy Hheight).
    set (Pb := fun h => 0 <= h /\ tip_height - 129600 <= h <= tip_height).
    apply (extends_trans (asks_within (sampled tip_height) Pb) (fun _ _ => True) Htrans
             w w1); [apply Hfirst|].
    apply frame_bind; [done|by apply frame_int_time|intros now].
    apply frame_bind; [done| |intros rows_all; cbn zeta].
    { apply asks_fetch_batches. intros b h Hb Hh.
      apply sample_heights_spec. by eapply elem_of_height_batches. }
    repeat asks_step.
    + apply asks_fetch_block_stats_range. intros h Hh. unfold Pb, BLOCKS_PER_DAY in *. lia.
    + apply asks_update_peers.
    + by apply frame_export_all_json.
Qed.

(** X22 at a node whose chain has the one block of height 0. *)
Lemma X_request_windows_witness :
  let env :=
    node_env (fun _ => 1704067300)
      (fun method _ =>
         if String.eqb method "get_tip" then rpc_ok (JObj [("height", JInt 0)])
         else if String.eqb method "get_header"
         then rpc_ok (JObj [("height", JInt 0); ("timestamp", JStr "2024-01-01T00:00:00");
                            ("total_difficulty", JInt 5)])
         else NetError) in
  exists evs,
    trace (snd (cmd_init_history env empty_world)) = trace empty_world ++ evs /\
    Forall (asks_within (sampled 0) (fun h => 0 <= h /\ 0 - 129600 <= h <= 0)) evs.
Proof.
  cbn zeta.
  match goal with
  | |- exists evs, trace (snd (cmd_init_history ?env ?w)) = _ /\ _ =>
      exact (proj2 (X_request_windows env w
                      (push [EvUrlopen (rpc_request (NODE_URL env) "get_tip" JNull
                                          (API_SECRET env))] w)
                      (JObj [("height", JInt 0)]) 0
                      ltac:(vm_compute; reflexivity) eq_refl eq_refl))
  end.
Defined.

(** ** The rows an update stores *)

Lemma append_hashrate_rows new_rows last_height w rated w' :
  _append_hashrate new_rows last_height w = (Ok rated, w') ->
  map rated_header rated = new_rows /\
  forall x, x ∈ rated -> (0 <= rated_hashrate x)%Q.
Proof.
  unfold _append_hashrate. destruct new_rows as [|r0 rest].
  { intros [= <- <-]. split; [done|]. by intros x ?%elem_of_nil. }
  unfold bind, query, ret. intros [= <- <-].
  set (base := match select_block last_height (db w) with
               | Some r => [r]
               | None => []
               end).
  split.
  - rewrite <- (drop_app_length base (r0 :: rest)) at 2.
    rewrite <- (calc_hashrate_headers (base ++ r0 :: rest)) at 2.
    unfold rated_header. by rewrite <- fmap_drop.
  - intros x Hx. apply (calc_hashrate_nonneg (base ++ r0 :: rest)).
    by apply (subseteq_drop (length base)).
Qed.

Lemma ingest_rows env last_height tip_height w1 :
  let block_phase :=
    (rows <- fetch_headers_batch env (range (last_height + 1) (tip_height + 1)) 4 ;;
     let rows := sort_by header_height rows in
     rows_with_hr <- _append_hashrate rows last_height ;;
     to_insert <- with_buckets env rows_with_hr ;;
     execute (insert_blocks to_insert) ;;
     now1 <- now_ts env ;;
     execute (rebucket Recent Hourly (now1 - RECENT_HOURS * 3600)) ;;
     now2 <- now_ts env ;;
     execute (rebucket Hourly Daily (now2 - HOURLY_DAYS * 86400)) ;;
     set_meta "last_height" tip_height ;;
     now3 <- now_ts env ;;
     set_meta "last_updated" now3 ;;
     _fetch_block_stats_range env (last_height + 1) tip_height 4)%M in
  forall h r, blocks (db (snd (block_phase w1))) !! h = Some r ->
    (exists r0, blocks (db w1) !! h = Some r0 /\
                b_timestamp r = b_timestamp r0 /\ b_total_diff r = b_total_diff r0 /\
                b_hashrate r = b_hashrate r0) \/
    ((0 <= b_hashrate r)%Q /\
     exists h0 w0,
       last_height < h0 <= tip_height /\
       fst (fetch_header env h0 w0) = Ok (Some (h, b_timestamp r, b_total_diff r))).
Proof.
  cbn zeta. intros h r.
  destruct (fetch_headers_batch_run env (range (last_height + 1) (tip_height + 1)) 4 w1)
    as (rows & Hrows & _ & _ & Hin).
  pose proof (fetch_headers_batch_reads env
                (range (last_height + 1) (tip_height + 1)) 4 w1) as Hw2.
  set (w2 := snd (fetch_headers_batch env _ 4 w1)) in *.
  rewrite (bind_run _ _ _ _ _ Hrows).
  destruct (append_hashrate_run (sort_by header_height rows) last_height w2)
    as [rated Hrated].
  destruct (append_hashrate_rows _ _ _ _ _ Hrated) as [Hhdr Hnn].
  rewrite (bind_run _ _ _ _ _ Hrated).
  destruct (total_run _ w2 (total_with_buckets env rated)) as [to_insert Hins].
  pose proof (with_buckets_reads env rated w2) as Hw3.
  set (w3 := snd (with_buckets env rated w2)) in *.
  rewrite (bind_run _ _ _ _ _ Hins).
  set (w5 := mkWorld
               (with_meta (insert "last_updated" (clock env (S (S (length (trace w3))))))
                  (with_meta (insert "last_height" tip_height)
                     (rebucket Hourly Daily
                        (clock env (S (length (trace w3))) - HOURLY_DAYS * 86400)
                        (rebucket Recent Hourly
                           (clock env (length (trace w3)) - RECENT_HOURS * 3600)
                           (insert_blocks to_insert (db w3))))))
               (files w3) (trace w3 ++ [EvClock; EvClock; EvClock])).
  assert (Hstmts : forall (k : M unit),
    (execute (insert_blocks to_insert) ;;
     now1 <- now_ts env ;;
     execute (rebucket Recent Hourly (now1 - RECENT_HOURS * 3600)) ;;
     now2 <- now_ts env ;;
     execute (rebucket Hourly Daily (now2 - HOURLY_DAYS * 86400)) ;;
     set_meta "last_height" tip_height ;;
     now3 <- now_ts env ;;
     set_meta "last_updated" now3 ;; k)%M w3 = k w5).
  { intros k. unfold bind, execute, now_ts, int_time, bind, steps, emit, ret, set_meta,
      execute. simpl. rewrite !length_app. simpl.
    replace (length (trace w3) + 1)%nat with (S (length (trace w3))) by lia.
    replace (S (length (trace w3)) + 1)%nat with (S (S (length (trace w3)))) by lia.
    rewrite <- !app_assoc. reflexivity. }
  rewrite Hstmts.
  pose proof (fetch_block_stats_range_blocks env (last_height + 1) tip_height 4 w5)
    as [Hb _].
  rewrite Hb. unfold w5. simpl.
  rewrite (extends_eq_db _ _ Hw3), (extends_eq_db _ _ Hw2).
  rewrite !lookup_fmap.
  change (fold_left (fun m hr => <[fst hr := snd hr]> m) to_insert (blocks (db w1)))
    with (insert_rows to_insert (blocks (db w1))).
  destruct (insert_rows to_insert (blocks (db w1)) !! h) as [r1|] eqn:E; [|done].
  simpl. intros [= <-].
  set (c1 := clock env (length (trace w3)) - RECENT_HOURS * 3600).
  set (c2 := clock env (S (length (trace w3))) - HOURLY_DAYS * 86400).
  pose proof (rebucket_row_data Hourly Daily c2 (rebucket_row Recent Hourly c1 r1))
    as (Hts & Hdiff & Hhr).
  pose proof (rebucket_row_data Recent Hourly c1 r1) as (Hts' & Hdiff' & Hhr').
  rewrite Hts, Hdiff, Hhr, Hts', Hdiff', Hhr'.
  apply lookup_insert_rows_Some in E as [Hrow|Hold]; [right|left; by exists r1].
  assert (Hr : (h, b_timestamp r1, b_total_diff r1, b_hashrate r1) ∈ rated).
  { rewrite <- (with_buckets_rows _ _ _ _ _ Hins).
    by apply (list_elem_of_fmap_2
                (fun hr : Z * BlockRow =>
                   (fst hr, b_timestamp (snd hr), b_total_diff (snd hr),
                    b_hashrate (snd hr))) to_insert (h, r1)). }
  split; [by apply (Hnn _ Hr)|].
  assert (Hrow' : (h, b_timestamp r1, b_total_diff r1) ∈ rows).
  { apply (elem_of_sort_by header_height). rewrite <- Hhdr.
    by apply (list_elem_of_fmap_2 rated_header _ _ Hr). }
  destruct (Hin _ Hrow') as (h0 & w0 & Hh0%elem_of_range & Hf).
  exists h0, w0. split; [lia|done].
Qed.

(** X23. Let the node answer [get_tip] with a height.  Every row of the
    blocks table after an update either was stored before at that height,
    with the same timestamp, difficulty and hashrate, or carries the height,
    timestamp and difficulty of a header returned by the fetch of a height
    above last_height and up to the tip, with a hashrate that is not
    negative.  So an update keeps a table free of negative hashrates free
    of them. *)
Theorem X_update_block_rows (env : Env) (w w1 : World) (tip : json) (tip_height : Z) :
  grin_rpc env "get_tip" JNull 3 w = (Ok tip, w1) ->
  truthy tip = true ->
  and_then (getitem tip "height") (py_int env) = Ok tip_height ->
  let last_height := default 0 (meta (db w) !! "last_height") in
  let w' := snd (cmd_update env w) in
  (forall h r, blocks (db w') !! h = Some r ->
     (exists r0, blocks (db w) !! h = Some r0 /\
                 b_timestamp r = b_timestamp r0 /\ b_total_diff r = b_total_diff r0 /\
                 b_hashrate r = b_hashrate r0) \/
     ((0 <= b_hashrate r)%Q /\
      exists h0 w0,
        last_height < h0 <= tip_height /\
        fst (fetch_header env h0 w0) = Ok (Some (h, b_timestamp r, b_total_diff r)))) /\
  ((forall h r, blocks (db w) !! h = Some r -> (0 <= b_hashrate r)%Q) ->
   forall h r, blocks (db w') !! h = Some r -> (0 <= b_hashrate r)%Q).
Proof.
  intros Htip Htruthy Hheight. cbn zeta.
  match goal with |- ?A /\ _ => assert (Hrows : A) end.
  { rewrite (cmd_update_unfold env w w1 tip tip_height Htip Htruthy Hheight). cbn zeta.
    assert (Hdb1 : db w1 = db w).
    { pose proof (frame_grin_rpc (fun _ => True) eq ltac:(done) ltac:(congruence)
                    ltac:(done) (fun _ => True) ltac:(done) env "get_tip" JNull 3%nat I w)
        as [Hd _].
      by rewrite Htip in Hd. }
    intros h r.
    destruct (Z.leb_spec tip_height (default 0 (meta (db w) !! "last_height")))
      as [Hle|Hlt].
    - rewrite (bind_run (ret tt) _ w1 tt w1 eq_refl).
      destruct (peers_export_chain env w1) as [_ [(Hb & _) _]]. cbn zeta in Hb.
      rewrite Hb, Hdb1. intros Hr. left. by exists r.
    - pose proof (ingest_rows env (default 0 (meta (db w) !! "last_height"))
                    tip_height w1) as Hprov.
      destruct (ingest_run env (default 0 (meta (db w) !! "last_height")) tip_height w1)
        as (to_insert & k1 & _ & Hphase & _).
      cbn zeta in Hphase, Hprov.
      rewrite (bind_run _ _ _ _ _ Hphase).
      match type of Hphase with _ = (_, snd ?x) => set (w5 := snd x) in * end.
      destruct (peers_export_chain env w5) as [_ [(Hb & _) _]]. cbn zeta in Hb.
      rewrite Hb. intros Hr.
      destruct (Hprov h r Hr) as [(r0 & Hr0 & Hdata)|Hnew]; [left|by right].
      exists r0. by rewrite <- Hdb1. }
  split; [exact Hrows|].
  intros Hnn h r Hr.
  destruct (Hrows h r Hr) as [(r0 & Hr0 & _ & _ & ->)|[Hpos _]]; [by eapply Hnn|done].
Qed.

(** X23 where the tip is 5, last_height is 3 and no header can be
    fetched: the one stored row is the one row afterwards. *)
Lemma X_update_block_rows_witness :
  let env := tip_only_env 5 200000 in
  let w := one_block_world 3 (mkBlock 199000 100 0 Recent) in
  (forall h r, blocks (db w) !! h = Some r -> (0 <= b_hashrate r)%Q) /\
  forall h r, blocks (db (snd (cmd_update env w))) !! h = Some r -> (0 <= b_hashrate r)%Q.
Proof.
  cbn zeta.
  assert (Hnn : forall h r,
            blocks (db (one_block_world 3 (mkBlock 199000 100 0 Recent))) !! h = Some r ->
            (0 <= b_hashrate r)%Q).
  { intros h r Hr. unfold one_block_world in Hr. simpl in Hr.
    apply lookup_singleton_Some in Hr as [_ <-]. simpl. apply Qle_refl. }
  split; [exact Hnn|].
  match goal with
  | |- forall h r, blocks (db (snd (cmd_update ?env ?w))) !! h = Some r -> _ =>
      exact (proj2 (X_update_block_rows env w
                      (push [EvUrlopen (rpc_request (NODE_URL env) "get_tip" JNull
                                          (API_SECRET env))] w)
                      (JObj [("height", JInt 5)]) 5
                      ltac:(vm_compute; reflexivity) eq_refl eq_refl) Hnn)
  end.
Defined.

(* ====================================================================== *)
(** * Part IV: the incremental update in full                              *)
(* ====================================================================== *)

(** The two re-labelling statements give a row the tier the specification
    names. *)
Lemma migrate_tier c1 c2 r : b_bucket (migrate c1 c2 r) = spec_tier_after c1 c2 r.
Proof.
  unfold migrate, rebucket_row, spec_tier_after.
  destruct r as [ts diff hr []]; simpl;
    repeat match goal with
           | |- context [?a <? ?b] => destruct (a <? b); simpl
           end; done.
Qed.

Lemma migrate_data c1 c2 r :
  b_timestamp (migrate c1 c2 r) = b_timestamp r /\
  b_total_diff (migrate c1 c2 r) = b_total_diff r /\
  b_hashrate (migrate c1 c2 r) = b_hashrate r.
Proof.
  unfold migrate.
  pose proof (rebucket_row_data Hourly Daily c2 (rebucket_row Recent Hourly c1 r))
    as (-> & -> & ->).
  apply rebucket_row_data.
Qed.

(** Each new row is classified at a clock reading of its own. *)
Lemma with_buckets_tiers env rated : forall w to_insert w',
  with_buckets env rated w = (Ok to_insert, w') ->
  forall h r, (h, r) ∈ to_insert ->
    exists k, (length (trace w) <= k < length (trace w'))%nat /\
              b_bucket r = bucket_of_age (clock env k - b_timestamp r).
Proof.
  induction rated as [|[[[h0 ts] diff] hr] rest IH]; intros w to_insert w'; simpl.
  - intros [= <- <-] h r Hin. by apply elem_of_nil in Hin.
  - rewrite (bind_run _ _ _ _ _ (assign_bucket_run env ts w)).
    unfold bind at 1.
    destruct (with_buckets env rest (push [EvClock] w)) as [[rs|e] w2] eqn:E;
      [|discriminate].
    intros [= <- <-] h r.
    pose proof (with_buckets_reads env rest (push [EvClock] w)) as Hlen%extends_length.
    rewrite E in Hlen. simpl in Hlen. rewrite length_app in Hlen. simpl in Hlen.
    intros [[= -> ->]|Hin]%elem_of_cons.
    + exists (length (trace w)). simpl. split; [lia|done].
    + destruct (IH _ _ _ E h r Hin) as (k & Hk & Hb).
      exists k. split; [|done]. simpl in Hk. rewrite length_app in Hk. simpl in Hk. lia.
Qed.

(** The block phase of a run that finds the tip ahead, with the rows it
    writes. *)
Lemma ingest_run_rows env last_height tip_height w1 :
  let block_phase :=
    (rows <- fetch_headers_batch env (range (last_height + 1) (tip_height + 1)) 4 ;;
     let rows := sort_by header_height rows in
     rows_with_hr <- _append_hashrate rows last_height ;;
     to_insert <- with_buckets env rows_with_hr ;;
     execute (insert_blocks to_insert) ;;
     now1 <- now_ts env ;;
     execute (rebucket Recent Hourly (now1 - RECENT_HOURS * 3600)) ;;
     now2 <- now_ts env ;;
     execute (rebucket Hourly Daily (now2 - HOURLY_DAYS * 86400)) ;;
     set_meta "last_height" tip_height ;;
     now3 <- now_ts env ;;
     set_meta "last_updated" now3 ;;
     _fetch_block_stats_range env (last_height + 1) tip_height 4)%M in
  exists (rows : list Header) (w2 : World) (to_insert : list (Z * BlockRow)) (k1 : nat),
    fetch_headers_batch env (range (last_height + 1) (tip_height + 1)) 4 w1
    = (Ok rows, w2) /\
    map (fun hr => (fst hr, b_timestamp (snd hr), b_total_diff (snd hr))) to_insert
    = sort_by header_height rows /\
    (forall h r, (h, r) ∈ to_insert ->
       (0 <= b_hashrate r)%Q /\
       exists k, (length (trace w1) <= k < k1)%nat /\
                 b_bucket r = bucket_of_age (clock env k - b_timestamp r)) /\
    (length (trace w1) <= k1 /\ S k1 < length (trace (snd (block_phase w1))))%nat /\
    block_phase w1 = (Ok tt, snd (block_phase w1)) /\
    blocks (db (snd (block_phase w1)))
    = migrate (clock env k1 - 24 * 3600) (clock env (S k1) - 30 * 86400)
        <$> insert_rows to_insert (blocks (db w1)).
Proof.
  cbn zeta.
  destruct (fetch_headers_batch_run env (range (last_height + 1) (tip_height + 1)) 4 w1)
    as (rows & Hrows & _ & _ & _).
  pose proof (fetch_headers_batch_reads env
                (range (last_height + 1) (tip_height + 1)) 4 w1) as Hw2.
  set (w2 := snd (fetch_headers_batch env _ 4 w1)) in *.
  rewrite (bind_run _ _ _ _ _ Hrows).
  destruct (append_hashrate_run (sort_by header_height rows) last_height w2)
    as [rated Hrated].
  destruct (append_hashrate_rows _ _ _ _ _ Hrated) as [Hhdr Hnn].
  rewrite (bind_run _ _ _ _ _ Hrated).
  destruct (total_run _ w2 (total_with_buckets env rated)) as [to_insert Hins].
  pose proof (with_buckets_reads env rated w2) as Hw3.
  pose proof (with_buckets_tiers env rated _ _ _ Hins) as Htiers.
  pose proof (with_buckets_rows env rated _ _ _ Hins) as Hrated_rows.
  set (w3 := snd (with_buckets env rated w2)) in *.
  rewrite (bind_run _ _ _ _ _ Hins).
  exists rows, w2, to_insert, (length (trace w3)).
  split; [done|].
  assert (Hlen2 : (length (trace w1) <= length (trace w2))%nat)
    by (by apply extends_length in Hw2).
  assert (Hlen3 : (length (trace w2) <= length (trace w3))%nat)
    by (by apply extends_length in Hw3).
  split.
  { rewrite <- Hhdr, <- Hrated_rows, !map_map. by apply map_ext. }
  split.
  { intros h r Hin. split.
    - apply (Hnn (h, b_timestamp r, b_total_diff r, b_hashrate r)).
      rewrite <- Hrated_rows.
      by apply (list_elem_of_fmap_2
                  (fun hr : Z * BlockRow =>
                     (fst hr, b_timestamp (snd hr), b_total_diff (snd hr),
                      b_hashrate (snd hr))) to_insert (h, r)).
    - destruct (Htiers h r Hin) as (k & Hk & Hb). exists k. split; [lia|done]. }
  (* the statements *)
  set (w5 := mkWorld
               (with_meta (insert "last_updated" (clock env (S (S (length (trace w3))))))
                  (with_meta (insert "last_height" tip_height)
                     (rebucket Hourly Daily
                        (clock env (S (length (trace w3))) - HOURLY_DAYS * 86400)
                        (rebucket Recent Hourly
                           (clock env (length (trace w3)) - RECENT_HOURS * 3600)
                           (insert_blocks to_insert (db w3))))))
               (files w3) (trace w3 ++ [EvClock; EvClock; EvClock])).
  assert (Hstmts : forall (k : M unit),
    (execute (insert_blocks to_insert) ;;
     now1 <- now_ts env ;;
     execute (rebucket Recent Hourly (now1 - RECENT_HOURS * 3600)) ;;
     now2 <- now_ts env ;;
     execute (rebucket Hourly Daily (now2 - HOURLY_DAYS * 86400)) ;;
     set_meta "last_height" tip_height ;;
     now3 <- now_ts env ;;
     set_meta "last_updated" now3 ;; k)%M w3 = k w5).
  { intros k. unfold bind, execute, now_ts, int_time, bind, steps, emit, ret, set_meta,
      execute. simpl. rewrite !length_app. simpl.
    replace (length (trace w3) + 1)%nat with (S (length (trace w3))) by lia.
    replace (S (length (trace w3)) + 1)%nat with (S (S (length (trace w3)))) by lia.
    rewrite <- !app_assoc. reflexivity. }
  rewrite Hstmts.
  destruct (total_run _ w5 (total_fetch_block_stats_range env (last_height + 1) tip_height 4))
    as [[] Hst].
  pose proof (fetch_block_stats_range_blocks env (last_height + 1) tip_height 4 w5)
    as Hw6.
  split.
  { split; [lia|]. apply extends_length in Hw6. unfold w5 in Hw6 at 1. simpl in Hw6.
    rewrite length_app in Hw6. simpl in Hw6. lia. }
  split; [done|].
  destruct Hw6 as [Hb _]. rewrite Hb. unfold w5. simpl.
  rewrite (extends_eq_db _ _ Hw3), (extends_eq_db _ _ Hw2).
  unfold migrate, insert_rows, RECENT_HOURS, HOURLY_DAYS.
  by rewrite <- map_fmap_compose.
Qed.

(** C3, as the code has it.  Let the node answer [get_tip] with a height.
    The update then returns normally.  If the tip is not ahead of
    last_height, the run requests no header and no block and leaves the
    whole blocks table as it was, tiers included: no row migrates.  If the
    tip is ahead, the run fetches the headers of the heights above
    last_height up to the tip and writes one row per header returned, with
    a hashrate that is not negative and the tier the classifier gives it at
    a clock reading of the run.  The table after the run is the old table
    with these rows written over it and then re-labelled, for two
    successive clock readings now1 and now2 of the run: a row that is
    recent with timestamp < now1 - 24h becomes hourly; then a row that is
    hourly, before or by the first step, with timestamp < now2 - 30d
    becomes daily; every other row keeps its tier; no height is added or
    removed by the re-labelling, and every row keeps its timestamp,
    difficulty and hashrate. *)
Theorem C3_update_rebuckets_only_with_new_blocks
    (env : Env) (w w1 : World) (tip : json) (tip_height : Z) :
  grin_rpc env "get_tip" JNull 3 w = (Ok tip, w1) ->
  truthy tip = true ->
  and_then (getitem tip "height") (py_int env) = Ok tip_height ->
  let last_height := default 0 (meta (db w) !! "last_height") in
  let w' := snd (cmd_update env w) in
  fst (cmd_update env w) = Ok tt /\
  (tip_height <= last_height ->
   blocks (db w') = blocks (db w) /\
   exists evs, trace w' = trace w ++ evs /\
               Forall (fun ev => is_block_fetch ev = false) evs) /\
  (last_height < tip_height ->
   exists (rows : list Header) (w2 : World) (to_insert : list (Z * BlockRow)) (k1 : nat),
     fetch_headers_batch env (range (last_height + 1) (tip_height + 1)) 4 w1
     = (Ok rows, w2) /\
     map (fun hr => (fst hr, b_timestamp (snd hr), b_total_diff (snd hr))) to_insert
     = sort_by header_height rows /\
     (forall h r, (h, r) ∈ to_insert ->
        (0 <= b_hashrate r)%Q /\
        exists k, (length (trace w) <= k < k1)%nat /\
                  b_bucket r = bucket_of_age (clock env k - b_timestamp r)) /\
     (length (trace w) <= k1 /\ S k1 < length (trace w'))%nat /\
     let c1 := clock env k1 - 24 * 3600 in
     let c2 := clock env (S k1) - 30 * 86400 in
     blocks (db w') = migrate c1 c2 <$> insert_rows to_insert (blocks (db w)) /\
     (forall h,
        match insert_rows to_insert (blocks (db w)) !! h with
        | Some r =>
            exists r',
              blocks (db w') !! h = Some r' /\
              b_timestamp r' = b_timestamp r /\ b_total_diff r' = b_total_diff r /\
              b_hashrate r' = b_hashrate r /\
              b_bucket r' = spec_tier_after c1 c2 r
        | None => blocks (db w') !! h = None
        end) /\
     forall h r, blocks (db w) !! h = Some r -> h ∉ map fst to_insert ->
       blocks (db w') !! h = Some (migrate c1 c2 r) /\
       b_timestamp (migrate c1 c2 r) = b_timestamp r /\
       b_total_diff (migrate c1 c2 r) = b_total_diff r /\
       b_hashrate (migrate c1 c2 r) = b_hashrate r /\
       b_bucket (migrate c1 c2 r) = spec_tier_after c1 c2 r).
Proof.
  intros Htip Htruthy Hheight. cbn zeta.
  assert (Hw1 : extends (fun ev => is_block_fetch ev = false) same_blocks w w1).
  { pose proof (frame_grin_rpc (fun ev => is_block_fetch ev = false) same_blocks
                  same_blocks_refl same_blocks_trans ltac:(done)
                  (fun m => m <> "get_header" /\ m <> "get_block")) as Hf.
    specialize (Hf ltac:(intros url method params auth [H1 H2]; simpl;
                         apply orb_false_intro; by apply String.eqb_neq)
                   env "get_tip" JNull 3%nat ltac:(done) w).
    by rewrite Htip in Hf. }
  assert (Hdb1 : db w1 = db w).
  { pose proof (frame_grin_rpc (fun _ => True) eq ltac:(done) ltac:(congruence)
                  ltac:(done) (fun _ => True) ltac:(done) env "get_tip" JNull 3%nat I w)
      as [Hd _].
    by rewrite Htip in Hd. }
  rewrite (cmd_update_unfold env w w1 tip tip_height Htip Htruthy Hheight). cbn zeta.
  destruct (Z.leb_spec tip_height (default 0 (meta (db w) !! "last_height")))
    as [Hle|Hlt].
  - (* no new block *)
    unfold bind at 1 3. unfold ret at 1 3.
    destruct (peers_and_export env w1) as [Hrun Hext]. cbn zeta in Hrun, Hext.
    rewrite Hrun. simpl fst. simpl snd. split; [done|]. split; [|lia].
    intros _.
    destruct (extends_trans _ _ same_blocks_trans _ _ _ Hw1 Hext) as [Hb Hev].
    split; [apply Hb|apply Hev].
  - (* new blocks *)
    destruct (ingest_run_rows env (default 0 (meta (db w) !! "last_height")) tip_height w1)
      as (rows & w2 & to_insert & k1 & Hrows & Hhdr & Hnew & [Hk1 Hk1'] & Hphase & Hblocks).
    cbn zeta in Hphase, Hblocks, Hk1'.
    rewrite (bind_run _ _ _ _ _ Hphase).
    match type of Hphase with _ = (_, snd ?x) => set (w5 := snd x) in * end.
    destruct (peers_and_export env w5) as [Hrun Hext]. cbn zeta in Hrun, Hext.
    rewrite Hrun. simpl fst. simpl snd. split; [done|]. split; [lia|].
    intros _. exists rows, w2, to_insert, k1.
    pose proof (extends_length _ _ _ _ Hw1) as Hlen1.
    pose proof (extends_length _ _ _ _ Hext) as Hlen5.
    split; [done|]. split; [done|]. split.
    { intros h r Hin. destruct (Hnew h r Hin) as (Hnn & k & Hk & Hb).
      split; [done|]. exists k. split; [lia|done]. }
    split; [lia|].
    cbn zeta. destruct Hext as [Hb _]. unfold same_blocks in Hb.
    rewrite Hb, Hblocks, Hdb1. split; [done|]. split.
    + intros h. rewrite lookup_fmap.
      destruct (insert_rows to_insert (blocks (db w)) !! h) as [r|]; simpl; [|done].
      exists (migrate (clock env k1 - 24 * 3600) (clock env (S k1) - 30 * 86400) r).
      split; [done|].
      pose proof (migrate_data (clock env k1 - 24 * 3600) (clock env (S k1) - 30 * 86400) r)
        as (-> & -> & ->).
      split; [done|]. split; [done|]. split; [done|]. apply migrate_tier.
    + intros h r Hr Hnotin.
      rewrite lookup_fmap, lookup_insert_rows_notin, Hr by done. split; [done|].
      pose proof (migrate_data (clock env k1 - 24 * 3600) (clock env (S k1) - 30 * 86400) r)
        as (-> & -> & ->).
      split; [done|]. split; [done|]. split; [done|]. apply migrate_tier.
Qed.

(** C3 where the tip is 5 and last_height is 3.  Of the stored rows, the
    recent one at height 1, older than thirty days, ends as daily through
    both steps; the hourly one at height 2, older than thirty days, becomes
    daily; the recent one at height 3, twelve days old, becomes hourly.  The
    headers of heights 4 and 5 are stored as recent rows. *)
Lemma C3_update_witness :
  let env :=
    node_env (fun _ => 1704067300)
      (fun method params =>
         if String.eqb method "get_tip" then rpc_ok (JObj [("height", JInt 5)])
         else if String.eqb method "get_header"
         then match params with
              | JObj ((_, JInt h) :: _) =>
                  rpc_ok (JObj [("height", JInt h);
                                ("timestamp", JStr "2024-01-01T00:00:00");
                                ("total_difficulty", JInt (100 * h))])
              | _ => NetError
              end
         else NetError) in
  let w :=
    mkWorld (mkDB {[ 1 := mkBlock 1698000000 100 0 Recent;
                     2 := mkBlock 1700000000 200 0 Hourly;
                     3 := mkBlock 1703000000 300 0 Recent ]}
               ∅ [] {["last_height" := 3]} ∅) ∅ [] in
  let tip := JObj [("height", JInt 5)] in
  let w1 := push [EvUrlopen (rpc_request (NODE_URL env) "get_tip" JNull (API_SECRET env))] w in
  let w' := snd (cmd_update env w) in
  grin_rpc env "get_tip" JNull 3 w = (Ok tip, w1) /\
  truthy tip = true /\
  and_then (getitem tip "height") (py_int env) = Ok 5 /\
  default 0 (meta (db w) !! "last_height") < 5 /\
  fst (cmd_update env w) = Ok tt /\
  blocks (db w')
  = {[ 1 := mkBlock 1698000000 100 0 Daily;
       2 := mkBlock 1700000000 200 0 Daily;
       3 := mkBlock 1703000000 300 0 Hourly;
       4 := mkBlock 1704067200 400 (1 # 10672) Recent;
       5 := mkBlock 1704067200 500 (1 # 10672) Recent ]} /\
  exists (to_insert : list (Z * BlockRow)) (k1 : nat),
    blocks (db w')
    = migrate (clock env k1 - 24 * 3600) (clock env (S k1) - 30 * 86400)
        <$> insert_rows to_insert (blocks (db w)).
Proof.
  cbn zeta.
  match goal with |- ?A /\ _ => assert (Htip : A) by (vm_compute; reflexivity) end.
  match goal with
  | |- _ /\ _ /\ _ /\ ?B /\ _ => assert (Hlt : B) by (vm_compute; reflexivity)
  end.
  match type of Htip with
  | grin_rpc ?env _ _ _ ?w = (Ok ?tip, ?w1) =>
      pose proof (C3_update_rebuckets_only_with_new_blocks env w w1 tip 5
                    Htip eq_refl eq_refl) as (Hok & _ & Hahead)
  end.
  destruct (Hahead Hlt) as (rows & w2 & to_insert & k1 & _ & _ & _ & _ & Hblocks & _).
  split; [exact Htip|]. split; [reflexivity|]. split; [reflexivity|].
  split; [exact Hlt|]. split; [exact Hok|]. split; [vm_compute; reflexivity|].
  exists to_insert, k1. exact Hblocks.
Defined.
